(** * Stable Scheduler: the roster engine and its calendar export

    A shallow embedding of the scheduling logic of the React component
    (generateDates, generateSchedule with its two passes, workedLastWeekend,
    manualAssign, downloadICal) and of utils/icalGenerator.js (escapeText,
    foldLine, generateICalContent), followed by the properties that the
    specification states about them.  Date objects are time values read
    through the time zone of the host, which is a parameter of whatever
    builds or moves one. *)

From Stdlib Require Import ZArith Lia Ascii String.
From stdpp Require Import base numbers list strings pretty gmap sorting.

Local Open Scope Z_scope.

(** ** JavaScript strings

    A JavaScript string is a sequence of UTF-16 code units; [length],
    [substring] and [indexOf] count code units. *)

Abbreviation JsString := (list N).

(** The string written as an ASCII literal in the source. *)
Definition str (s : string) : JsString :=
  N_of_ascii <$> list_ascii_of_string s.

Definition CR : N := 13%N.
Definition LF : N := 10%N.
Definition SPACE : N := 32%N.
Definition CRLF : JsString := [CR; LF].

(** [String(n)] and template interpolation of an integer. *)
Definition String_of_Z (n : Z) : JsString := str (pretty n).

(** [s.padStart(targetLength, c)] with a one-unit pad string. *)
Definition padStart (s : JsString) (targetLength : nat) (c : N) : JsString :=
  replicate (targetLength - length s) c ++ s.

(** [s.replace(/c/g, by)] for a single code unit [c]. *)
Definition replaceAll (c : N) (by_ : JsString) (s : JsString) : JsString :=
  s ≫= (λ u, if decide (u = c) then by_ else [u]).

(** [arr.join(sep)]. *)
Fixpoint join (sep : JsString) (parts : list JsString) : JsString :=
  match parts with
  | [] => []
  | [p] => p
  | p :: rest => p ++ sep ++ join sep rest
  end.

(** Number of octets of the UTF-8 encoding of a string (what a Blob or a file
    holds): one, two or three octets per code unit, four for a surrogate
    pair. *)
Definition isHighSurrogate (u : N) : bool := ((55296 <=? u) && (u <? 56320))%N.
Definition isLowSurrogate (u : N) : bool := ((56320 <=? u) && (u <? 57344))%N.

Fixpoint utf8Length (s : JsString) : nat :=
  match s with
  | [] => 0
  | u :: rest =>
      if (u <? 128)%N then S (utf8Length rest)
      else if (u <? 2048)%N then 2 + utf8Length rest
      else match rest with
           | v :: rest' =>
               if isHighSurrogate u && isLowSurrogate v
               then 4 + utf8Length rest'
               else 3 + utf8Length rest
           | [] => 3
           end
  end%nat.

(** [s.split('\r\n')]: the pieces between successive CR LF pairs, scanning
    from the left. *)
Fixpoint splitCRLF_go (s acc : JsString) : list JsString :=
  match s with
  | [] => [reverse acc]
  | u :: rest =>
      match rest with
      | v :: rest' =>
          if decide (u = CR ∧ v = LF) then reverse acc :: splitCRLF_go rest' []
          else splitCRLF_go rest (u :: acc)
      | [] => [reverse (u :: acc)]
      end
  end.
Definition splitCRLF (s : JsString) : list JsString := splitCRLF_go s [].

(** ** Dates

    The calendar functions work on a day number: the whole days from
    1970-01-01 to a calendar day.  A Date object of the program holds a time
    value (see the host below); its getters, [formatDate] and the two passes
    of the scheduler read it through the local calendar day it falls on, and
    [Date] is that day number.  The getters and [setDate] follow the
    language definition on the day: [setDate(dt)] goes to
    [MakeDay(YearFromTime t, MonthFromTime t, dt)], the day number of the
    first of the month plus [dt - 1]. *)

Definition Date := Z.

Definition year_start (yoe : Z) : Z := 365 * yoe + yoe / 4 - yoe / 100.
Definition month_start (mp : Z) : Z := (153 * mp + 2) / 5.

(** Day number of the civil date [y]-[m]-[d], months counted from 1, in the
    proleptic Gregorian calendar (years are taken from March, in eras of 400
    years of 146097 days). *)
Definition DaysFromCivil (y m d : Z) : Z :=
  let y' := if m <=? 2 then y - 1 else y in
  let era := y' / 400 in
  let yoe := y' mod 400 in
  let mp := (m + 9) mod 12 in
  era * 146097 + (year_start yoe + month_start mp + (d - 1)) - 719468.

Definition yoe_of_doe (doe : Z) : Z :=
  (doe - doe / 1460 + doe / 36524 - doe / 146096) / 365.
Definition doy_of_doe (doe : Z) : Z := doe - year_start (yoe_of_doe doe).
Definition mp_of_doy (doy : Z) : Z := (5 * doy + 2) / 153.

Definition era_of (t : Date) : Z := (t + 719468) / 146097.
Definition doe_of (t : Date) : Z := (t + 719468) mod 146097.
Definition mp_of (t : Date) : Z := mp_of_doy (doy_of_doe (doe_of t)).

(** [date.getMonth()], 0 for January. *)
Definition getMonth (t : Date) : Z :=
  let mp := mp_of t in if mp <? 10 then mp + 2 else mp - 10.
(** [date.getDate()], the day of the month. *)
Definition getDate (t : Date) : Z :=
  doy_of_doe (doe_of t) - month_start (mp_of t) + 1.
(** [date.getFullYear()]. *)
Definition getFullYear (t : Date) : Z :=
  yoe_of_doe (doe_of t) + era_of t * 400 + (if getMonth t <=? 1 then 1 else 0).
(** [date.getDay()], 0 for Sunday; 1970-01-01 was a Thursday. *)
Definition getDay (t : Date) : Z := (t + 4) mod 7.

Definition MakeDay (year month date : Z) : Z :=
  DaysFromCivil (year + month / 12) (month mod 12 + 1) 1 + date - 1.
(** [date.setDate(dt)]: the updated Date. *)
Definition setDate (t : Date) (dt : Z) : Date :=
  MakeDay (getFullYear t) (getMonth t) dt.

(** The Date of a civil day, months counted from 1 as they are written. *)
Definition mkDate (y m d : Z) : Date := DaysFromCivil y m d.

(** The civil calendar, stated on its own: leap years, month lengths and
    the day after a civil date (months counted from 0 as [getMonth] does). *)
Definition isLeapYear (y : Z) : bool :=
  (y mod 4 =? 0) && (negb (y mod 100 =? 0) || (y mod 400 =? 0)).
Definition daysInMonth (y m : Z) : Z :=
  if m =? 1 then (if isLeapYear y then 29 else 28)
  else if (m =? 3) || (m =? 5) || (m =? 8) || (m =? 10) then 30 else 31.
Definition nextCivil (c : Z * Z * Z) : Z * Z * Z :=
  let '(y, m, d) := c in
  if d <? daysInMonth y m then (y, m, d + 1)
  else if m <? 11 then (y, m + 1, 1) else (y + 1, 0, 1).
Definition civil (t : Date) : Z * Z * Z := (getFullYear t, getMonth t, getDate t).
Definition validCivil (c : Z * Z * Z) : Prop :=
  let '(y, m, d) := c in 0 <= m <= 11 /\ 1 <= d <= daysInMonth y m.
Definition days_before_year (n : Z) : Z := 365 * n + n / 4 - n / 100 + n / 400.

(** ** The host: time values and the local time zone

    A Date object holds a time value, the milliseconds from
    1970-01-01T00:00Z.  The host supplies the local time zone adjustment
    [LocalTZA(t, isUTC)], the offset of local time from UTC in milliseconds:
    at the instant [t] when [isUTC] is true, for the wall-clock time [t]
    otherwise (for a wall-clock time that a clock change skips or repeats
    the language takes the offset before the change).  The host also
    supplies what [new Date(string)] makes of a string outside the ISO
    format, which the language leaves to the implementation; [None] is the
    Invalid Date.  [TimeClip] is left out: time values stay far inside the
    range of a Date. *)
Definition msPerDay : Z := 86400000.
Definition Day (t : Z) : Z := t / msPerDay.
Definition TimeWithinDay (t : Z) : Z := t mod msPerDay.

Record Host := {
  LocalTZA : Z → bool → Z;
  legacyParse : JsString → option Z
}.
Definition LocalTime (host : Host) (t : Z) : Z := t + LocalTZA host t true.
Definition UTC (host : Host) (t : Z) : Z := t - LocalTZA host t false.

(** The methods of a Date object, on its time value. *)
Module Instant.

(** [new Date("YYYY-MM-DD")]: a date-only string in the ISO format is the
    midnight that begins that day in UTC; [day] is the day that the string
    names. *)
Definition ofDateOnly (day : Date) : Z := day * msPerDay.

(** The local calendar day that the time value falls on. *)
Definition localDay (host : Host) (t : Z) : Date := Day (LocalTime host t).

Definition getFullYear (host : Host) (t : Z) : Z := getFullYear (localDay host t).
Definition getMonth (host : Host) (t : Z) : Z := getMonth (localDay host t).
Definition getDate (host : Host) (t : Z) : Z := getDate (localDay host t).

(** [d.setHours(0, 0, 0, 0)]: midnight of the local day, taken back to
    UTC. *)
Definition setHours0 (host : Host) (t : Z) : Z :=
  UTC host (Day (LocalTime host t) * msPerDay).

(** [d.setDate(dt)]: the day [dt] of the local month at the same wall-clock
    time, taken back to UTC. *)
Definition setDate (host : Host) (t : Z) (dt : Z) : Z :=
  let local := LocalTime host t in
  UTC host (setDate (Day local) dt * msPerDay + TimeWithinDay local).

End Instant.

(** *** Utility functions of the component *)

(** The loop of [generateDates] on the time values of [current] and [end]:
    [current <= end] compares them, [current.setDate(current.getDate() + 1)]
    advances the cursor.  [dates.push(new Date(current))] appends a copy;
    whatever takes the list afterwards reads a Date through its local
    calendar day, which is what the list holds here.  [fuel] bounds the
    number of iterations. *)
Fixpoint generateDates_loop (host : Host) (fuel : nat) (current end_ : Z)
    (dates : list Date) : list Date :=
  match fuel with
  | O => dates
  | S fuel' =>
      if current <=? end_
      then generateDates_loop host fuel'
             (Instant.setDate host current (Instant.getDate host current + 1))
             end_ (dates ++ [Instant.localDay host current])
      else dates
  end.

(** [generateDates(startDate, endDate)]; the two arguments are date-only
    strings (the value of a date input, or a prefix of [toISOString()]) and
    are given by the days they name.  The fuel is the number of local days
    from [start] to [end_]: on a host whose clock changes stay within a day
    the loop leaves by its own test (see [generateDates_fuel]). *)
Definition generateDates (host : Host) (startDate endDate : Date) : list Date :=
  let start := Instant.setHours0 host (Instant.ofDateOnly startDate) in
  let end_ := Instant.setHours0 host (Instant.ofDateOnly endDate) in
  let fuel :=
    Z.to_nat (Instant.localDay host end_ - Instant.localDay host start + 1) in
  generateDates_loop host fuel start end_ [].

Definition isWeekendDay (date : Date) : bool :=
  (getDay date =? 0) || (getDay date =? 6).
Definition isSaturday (date : Date) : bool := getDay date =? 6.
Definition isFriSatSun (date : Date) : bool :=
  (getDay date =? 5) || (getDay date =? 6) || (getDay date =? 0).

Definition DASH : N := 45%N.
Definition ZERO : N := 48%N.

(** [formatDate]: YYYY-MM-DD of the local calendar day. *)
Definition formatDate (date : Date) : JsString :=
  let year := getFullYear date in
  let month := padStart (String_of_Z (getMonth date + 1)) 2 ZERO in
  let day := padStart (String_of_Z (getDate date)) 2 ZERO in
  String_of_Z year ++ [DASH] ++ month ++ [DASH] ++ day.

Definition formatICalDate (dateStr : JsString) : JsString :=
  replaceAll DASH [] dateStr.

(** ** The scheduler *)

(** A rider of the roster; [blockedDates] holds YYYY-MM-DD strings. *)
Record Rider := {
  id : Z;
  name : JsString;
  color : JsString;
  blockedDates : list JsString
}.

(** The schedule object [{ "2023-10-01": riderId }]: a missing key reads as
    [undefined] (lookup [None]), the value [null] is [Some None], a rider id
    is [Some (Some i)]. *)
Abbreviation Schedule := (gmap JsString (option Z)).

(** The fairness counters [stats[r.id] = { total, saturdays }]. *)
Record Stat := { total : Z; saturdays : Z }.
Abbreviation Stats := (gmap Z Stat).

Definition statOf (stats : Stats) (i : Z) : Stat :=
  default {| total := 0; saturdays := 0 |} (stats !! i).

(** [stats[i].total++; stats[i].saturdays++] and [stats[i].total++]. *)
Definition incrAnchor (s : Stat) : Stat :=
  {| total := total s + 1; saturdays := saturdays s + 1 |}.
Definition incrTotal (s : Stat) : Stat :=
  {| total := total s + 1; saturdays := saturdays s |}.

(** The initial counters, [riders.reduce((acc, r) => ..., {})]. *)
Definition initStats (riders : list Rider) : Stats :=
  foldl (λ acc r, <[id r := {| total := 0; saturdays := 0 |}]> acc) ∅ riders.

(** *** The tie-break source

    [Math.random] is read as a tape of outcomes; a tape that has run out
    reads 0.  [shuffle] is [array.sort(() => Math.random() - 0.5)]: sorting
    with a comparator that ignores its arguments leaves some permutation of
    the array, which one being fixed by the successive outcomes.  It is
    modelled by one outcome per element, giving the position at which the
    element is put back; every permutation arises from some tape. *)
Definition Rng := list nat.

Definition insertAt {A} (n : nat) (x : A) (l : list A) : list A :=
  take n l ++ x :: drop n l.

Fixpoint shuffle {A} (array : list A) (rng : Rng) : list A * Rng :=
  match array with
  | [] => ([], rng)
  | x :: rest =>
      let '(s, rng') := shuffle rest rng in
      (insertAt (hd 0%nat rng' `mod` S (length s)) x s, tl rng')
  end.

(** [array.sort(compare)] with a consistent comparator: the stable sort. *)
Fixpoint sort_insert {A} (compare : A → A → Z) (x : A) (l : list A) : list A :=
  match l with
  | [] => [x]
  | y :: l' => if compare y x <? 0 then y :: sort_insert compare x l'
               else x :: y :: l'
  end.
Definition sort {A} (compare : A → A → Z) (array : list A) : list A :=
  foldr (sort_insert compare) [] array.

(** The comparator of pass 1 and the comparator of pass 2. *)
Definition compareAnchor (stats : Stats) (a b : Rider) : Z :=
  let statsA := statOf stats (id a) in
  let statsB := statOf stats (id b) in
  if decide (saturdays statsA ≠ saturdays statsB)
  then saturdays statsA - saturdays statsB
  else total statsA - total statsB.
Definition compareFill (stats : Stats) (a b : Rider) : Z :=
  total (statOf stats (id a)) - total (statOf stats (id b)).

(** *** workedLastWeekend *)

(** [while (check.getDay() !== 0) check.setDate(check.getDate() - 1)]. *)
Fixpoint backToSunday (fuel : nat) (check : Date) : Date :=
  match fuel with
  | O => check
  | S fuel' =>
      if decide (getDay check ≠ 0)
      then backToSunday fuel' (setDate check (getDate check - 1))
      else check
  end.

Definition workedLastWeekend (newSchedule : Schedule) (currentDate : Date)
    (candidateId : Z) : bool :=
  let check := backToSunday 7 currentDate in
  let lastSun := check in
  let lastSat := setDate check (getDate check - 1) in
  let lastFri := setDate check (getDate check - 2) in
  existsb (λ d,
    if d >=? currentDate then false
    else bool_decide (newSchedule !! formatDate d = Some (Some candidateId)))
    [lastFri; lastSat; lastSun].

(** *** The same on Date objects

    The passes hold the Date objects of [generateDates] and copies of them
    moved by [setDate].  The definitions above take a Date by its local
    calendar day; these are [formatDate], [getDay], the walk back to Sunday
    and [workedLastWeekend] on the time values themselves, [d >= currentDate]
    comparing time values, to set against them. *)
Module DateObject.

Definition getDay (host : Host) (date : Z) : Z :=
  getDay (Instant.localDay host date).

Definition formatDate (host : Host) (date : Z) : JsString :=
  let year := Instant.getFullYear host date in
  let month := padStart (String_of_Z (Instant.getMonth host date + 1)) 2 ZERO in
  let day := padStart (String_of_Z (Instant.getDate host date)) 2 ZERO in
  String_of_Z year ++ [DASH] ++ month ++ [DASH] ++ day.

Fixpoint backToSunday (host : Host) (fuel : nat) (check : Z) : Z :=
  match fuel with
  | O => check
  | S fuel' =>
      if decide (getDay host check ≠ 0)
      then backToSunday host fuel'
             (Instant.setDate host check (Instant.getDate host check - 1))
      else check
  end.

Definition workedLastWeekend (host : Host) (newSchedule : Schedule)
    (currentDate : Z) (candidateId : Z) : bool :=
  let check := backToSunday host 7 currentDate in
  let lastSun := check in
  let lastSat := Instant.setDate host check (Instant.getDate host check - 1) in
  let lastFri := Instant.setDate host check (Instant.getDate host check - 2) in
  existsb (λ d,
    if d >=? currentDate then false
    else bool_decide (newSchedule !! formatDate host d = Some (Some candidateId)))
    [lastFri; lastSat; lastSun].

End DateObject.

(** *** generateSchedule *)

(** The state that the two passes share: the schedule under construction,
    the counters and the tie-break tape. *)
Definition GenState : Type := Schedule * Stats * Rng.

(** The candidate pool of a Saturday, before the sort: availability, then
    the soft constraint on the previous Saturday. *)
Definition anchorCandidates (riders : list Rider) (newSchedule : Schedule)
    (date : Date) : list Rider :=
  let dateStr := formatDate date in
  let candidates := filter (λ r, dateStr ∉ blockedDates r) riders in
  let prevSat := setDate date (getDate date - 7) in
  let prevSatWorker := newSchedule !! formatDate prevSat in
  let softCandidates :=
    filter (λ r, Some (Some (id r)) ≠ prevSatWorker) candidates in
  if decide (0 < length softCandidates)%nat then softCandidates else candidates.

(** The body of the pass 1 loop. *)
Definition pass1_day (riders : list Rider) (st : GenState) (date : Date)
    : GenState :=
  let '(newSchedule, stats, rng) := st in
  let dateStr := formatDate date in
  let candidates := anchorCandidates riders newSchedule date in
  if decide (length candidates = 0%nat)
  then (<[dateStr := None]> newSchedule, stats, rng)
  else
    let '(shuffled, rng) := shuffle candidates rng in
    match sort (compareAnchor stats) shuffled with
    | chosen :: _ =>
        (<[dateStr := Some (id chosen)]> newSchedule,
         alter incrAnchor (id chosen) stats, rng)
    | [] => st
    end.

(** Step 2 of pass 2, the consecutive-day constraint. *)
Definition consecutiveFilter (newSchedule : Schedule) (date : Date)
    (candidates : list Rider) : list Rider :=
  let yesterday := setDate date (getDate date - 1) in
  let yesterdayWorker := newSchedule !! formatDate yesterday in
  let tomorrow := setDate date (getDate date + 1) in
  let tomorrowWorker := newSchedule !! formatDate tomorrow in
  let nonConsecutiveCandidates :=
    filter (λ r, Some (Some (id r)) ≠ yesterdayWorker
                 ∧ Some (Some (id r)) ≠ tomorrowWorker) candidates in
  if decide (0 < length nonConsecutiveCandidates)%nat
  then nonConsecutiveCandidates
  else filter (λ r, Some (Some (id r)) ≠ tomorrowWorker) candidates.

(** Step 3 of pass 2, the consecutive-weekend constraint. *)
Definition weekendFilter (newSchedule : Schedule) (date : Date)
    (candidates : list Rider) : list Rider :=
  if isFriSatSun date then
    let freshWeekendCandidates :=
      filter (λ r, workedLastWeekend newSchedule date (id r) = false) candidates in
    if decide (0 < length freshWeekendCandidates)%nat
    then freshWeekendCandidates else candidates
  else candidates.

Definition fillCandidates (riders : list Rider) (newSchedule : Schedule)
    (date : Date) : list Rider :=
  let dateStr := formatDate date in
  let candidates := filter (λ r, dateStr ∉ blockedDates r) riders in
  weekendFilter newSchedule date (consecutiveFilter newSchedule date candidates).

(** The body of the pass 2 loop. *)
Definition pass2_day (riders : list Rider) (st : GenState) (date : Date)
    : GenState :=
  let '(newSchedule, stats, rng) := st in
  let dateStr := formatDate date in
  let candidates := fillCandidates riders newSchedule date in
  if decide (length candidates = 0%nat)
  then (<[dateStr := None]> newSchedule, stats, rng)
  else
    let '(shuffled, rng) := shuffle candidates rng in
    match sort (compareFill stats) shuffled with
    | chosen :: _ =>
        (<[dateStr := Some (id chosen)]> newSchedule,
         alter incrTotal (id chosen) stats, rng)
    | [] => st
    end.

Definition pass1 (riders : list Rider) (dates : list Date) (st : GenState)
    : GenState :=
  foldl (pass1_day riders) st (filter (λ d, isSaturday d = true) dates).
Definition pass2 (riders : list Rider) (dates : list Date) (st : GenState)
    : GenState :=
  foldl (pass2_day riders) st (filter (λ d, isSaturday d ≠ true) dates).

(** [generateSchedule], on the host, the component state it reads ([config],
    [riders]) and the tape of [Math.random]; the result is the schedule
    handed to [setSchedule] together with the counters as the function
    leaves them. *)
Definition generateSchedule (host : Host) (startDate endDate : Date)
    (riders : list Rider) (rng : Rng) : Schedule * Stats :=
  let dates := generateDates host startDate endDate in
  let newSchedule : Schedule := ∅ in
  let stats := initStats riders in
  let st := pass1 riders dates (newSchedule, stats, rng) in
  let '(newSchedule, stats, _) := pass2 riders dates st in
  (newSchedule, stats).

(** How a call ends: the function returns, or an exception leaves it. *)
Inductive Failure := InvalidRange.
Inductive Completion (A : Type) :=
  | Returns (a : A)
  | Throws (e : Failure).
Arguments Returns {A} a.
Arguments Throws {A} e.

(** A call of the generation entry point: the body holds no [throw] and
    calls nothing that throws. *)
Definition generateSchedule_call (host : Host) (startDate endDate : Date)
    (riders : list Rider) (rng : Rng) : Completion (Schedule * Stats) :=
  Returns (generateSchedule host startDate endDate riders rng).

(** *** manualAssign *)

(** [cycleList.indexOf(currentId)], by strict equality; [currentId] is
    [undefined] ([None]) when the schedule has no such key. *)
Fixpoint indexOf_from (l : list (option Z)) (x : option (option Z)) (i : Z) : Z :=
  match l with
  | [] => -1
  | y :: l' => if decide (x = Some y) then i else indexOf_from l' x (i + 1)
  end.
Definition indexOf (l : list (option Z)) (x : option (option Z)) : Z :=
  indexOf_from l x 0.

Definition cycleList (riders : list Rider) (dateStr : JsString)
    : list (option Z) :=
  let availableRiders := filter (λ r, dateStr ∉ blockedDates r) riders in
  ((λ r, Some (id r)) <$> availableRiders) ++ [None].

Definition nextId (schedule : Schedule) (riders : list Rider)
    (dateStr : JsString) : option Z :=
  let currentId := schedule !! dateStr in
  let cycleList := cycleList riders dateStr in
  let currentIndex := indexOf cycleList currentId in
  let nextIndex := (currentIndex + 1) `mod` Z.of_nat (length cycleList) in
  default None (cycleList !! Z.to_nat nextIndex).

(** [manualAssign(dateStr)]: the schedule handed to [setSchedule], the
    spread copy [{ ...schedule, [dateStr]: nextId }]. *)
Definition manualAssign (schedule : Schedule) (riders : list Rider)
    (dateStr : JsString) : Schedule :=
  <[dateStr := nextId schedule riders dateStr]> schedule.

(** *** downloadICal *)

Definition getRiderById (riders : list Rider) (i : Z) : option Rider :=
  List.find (λ r, bool_decide (id r = i)) riders.

Definition BACKSLASH : N := 92%N.

(** A template literal that spans several source lines: every line is
    followed by a line feed. *)
Definition templateLines (lines : list JsString) : JsString :=
  lines ≫= (λ l, l ++ [LF]).

(** The text that [downloadICal(riderId)] puts in the Blob, or [None] when
    the function returns early because the rider is unknown.  [entries] is
    [Object.entries(schedule)], the keys and values of the schedule in
    insertion order. *)
Definition downloadICal (riders : list Rider)
    (entries : list (JsString * option Z)) (eventName eventDescription : JsString)
    (riderId : Z) : option JsString :=
  match getRiderById riders riderId with
  | None => None
  | Some rider =>
      let icalContent := templateLines
        [str "BEGIN:VCALENDAR"; str "VERSION:2.0";
         str "PRODID:-//Stable Scheduler//EN"; str "CALSCALE:GREGORIAN";
         str "METHOD:PUBLISH"] in
      let icalContent :=
        foldl (λ icalContent '(dateStr, scheduledRiderId),
          if decide (scheduledRiderId = Some riderId) then
            let dateFormatted := formatICalDate dateStr in
            let safeDescription :=
              replaceAll LF [BACKSLASH; 110%N] eventDescription in
            icalContent ++ templateLines
              [str "BEGIN:VEVENT";
               str "DTSTART;VALUE=DATE:" ++ dateFormatted;
               str "DTEND;VALUE=DATE:" ++ dateFormatted;
               str "SUMMARY:" ++ eventName;
               str "DESCRIPTION:" ++ safeDescription;
               str "STATUS:CONFIRMED"; str "END:VEVENT"]
          else icalContent) icalContent entries in
      Some (icalContent ++ str "END:VCALENDAR")
  end.

(** ** utils/icalGenerator.js *)

(** [escapeText]: four global replacements, in the order of the source. *)
Definition escapeText (text : JsString) : JsString :=
  replaceAll LF [BACKSLASH; 110%N]
    (replaceAll 44%N [BACKSLASH; 44%N]
      (replaceAll 59%N [BACKSLASH; 59%N]
        (replaceAll BACKSLASH [BACKSLASH; BACKSLASH] text))).

(** The [while] loop of [foldLine]. *)
Fixpoint foldLine_loop (fuel : nat) (result remaining : JsString) : JsString :=
  match fuel with
  | O => result
  | S fuel' =>
      if decide (0 < length remaining)%nat
      then foldLine_loop fuel' (result ++ CRLF ++ [SPACE] ++ take 74 remaining)
             (drop 74 remaining)
      else result
  end.

(** [foldLine]; each turn of the loop removes 74 code units from
    [remaining], so its length is fuel enough. *)
Definition foldLine (line : JsString) : JsString :=
  if decide (length line ≤ 75)%nat then line
  else foldLine_loop (length line) (take 75 line) (drop 75 line).

(** An event handed to the serializer.  The [date] field of the source is
    a key of the schedule, the string that [formatDate] makes of a day; the
    record holds that day and [dateText] is the string.  The [name] field
    is not read. *)
Record CalendarEvent := {
  date : Date;
  riderId : Z;
  eventName : JsString;
  description : JsString
}.
Definition dateText (event : CalendarEvent) : JsString := formatDate (date event).

(** [s.split('.')[0]]. *)
Fixpoint beforeDot (s : JsString) : JsString :=
  match s with
  | [] => []
  | u :: rest => if decide (u = 46%N) then [] else u :: beforeDot rest
  end.

(** [new Date(event.date)].  The key of a day whose year has four digits is
    a date-only string in the ISO format, read as the midnight that begins
    the day in UTC; [formatDate] does not pad the year, so any other key is
    outside the format and left to the host. *)
Definition newDate_key (host : Host) (day : Date) : option Z :=
  if decide (1000 <= getFullYear day <= 9999)
  then Some (Instant.ofDateOnly day)
  else legacyParse host (formatDate day).

(** The lines of one VEVENT, before folding.  On an Invalid Date every
    getter yields NaN, which the template writes as such. *)
Definition eventLines (host : Host) (timestamp : JsString)
    (event : CalendarEvent) : list JsString :=
  let startDate := replaceAll DASH [] (dateText event) in
  let endDate :=
    match newDate_key host (date event) with
    | Some d =>
        let d := Instant.setDate host d (Instant.getDate host d + 1) in
        let year := Instant.getFullYear host d in
        let month :=
          padStart (String_of_Z (Instant.getMonth host d + 1)) 2 ZERO in
        let day := padStart (String_of_Z (Instant.getDate host d)) 2 ZERO in
        String_of_Z year ++ month ++ day
    | None => str "NaN" ++ str "NaN" ++ str "NaN"
    end in
  let uid := dateText event ++ [DASH] ++ String_of_Z (riderId event)
             ++ str "@stablescheduler" in
  let description := escapeText (description event) in
  [str "BEGIN:VEVENT";
   str "DTSTART;VALUE=DATE:" ++ startDate;
   str "DTEND;VALUE=DATE:" ++ endDate;
   str "DTSTAMP:" ++ timestamp;
   str "UID:" ++ uid;
   str "SUMMARY:" ++ escapeText (eventName event);
   str "DESCRIPTION:" ++ description;
   str "STATUS:CONFIRMED";
   str "END:VEVENT"].

(** [generateICalContent(events)]; [nowISO] is what
    [new Date().toISOString()] returns at the call. *)
Definition generateICalContent (host : Host) (nowISO : JsString)
    (events : list CalendarEvent) : JsString :=
  let timestamp :=
    beforeDot (replaceAll 58%N [] (replaceAll DASH [] nowISO)) ++ str "Z" in
  let content := join CRLF
    [str "BEGIN:VCALENDAR"; str "VERSION:2.0";
     str "PRODID:-//Stable Scheduler//EN"; str "CALSCALE:GREGORIAN";
     str "METHOD:PUBLISH"] in
  let content :=
    foldl (λ content event,
      content ++ CRLF
      ++ join CRLF (foldLine <$> eventLines host timestamp event))
      content events in
  content ++ CRLF ++ str "END:VCALENDAR".

(** ** Auxiliary definitions for the statements *)

(** Hosts whose clock changes stay within a day: a wall-clock time set on a
    Date lands on the calendar day it was set for, a wall-clock time of a
    later calendar day is a later instant, and local time is either never
    behind UTC or always behind it, by at most a day. *)
Record RegularHost (host : Host) : Prop := {
  day_stable : forall local, Day (LocalTime host (UTC host local)) = Day local;
  day_increasing : forall local1 local2,
    Day local1 < Day local2 -> UTC host local1 < UTC host local2;
  offset_side :
    (forall t, 0 <= LocalTZA host t true < msPerDay)
    \/ (forall t, - msPerDay <= LocalTZA host t true < 0)
}.
Definition eastOfUTC (host : Host) : Prop :=
  forall t, 0 <= LocalTZA host t true < msPerDay.
Definition westOfUTC (host : Host) : Prop :=
  forall t, - msPerDay <= LocalTZA host t true < 0.
(** The local midnight of the day exists: no clock change skips it. *)
Definition midnightKept (host : Host) (day : Date) : Prop :=
  LocalTime host (UTC host (day * msPerDay)) = day * msPerDay.

(** A host with a constant offset; the host on UTC; a host five hours
    behind UTC; and Cairo in the spring of 2023, two hours ahead of UTC
    until 2023-04-27T22:00Z, when the clocks went from local midnight to
    01:00, three hours ahead. *)
Definition fixedOffset (offset : Z) : Host :=
  {| LocalTZA := λ _ _, offset; legacyParse := λ _, None |}.
Definition utcHost : Host := fixedOffset 0.
Definition fiveHoursWest : Host := fixedOffset (- 5 * 3600000).
Definition cairoChange : Z := DaysFromCivil 2023 4 27 * msPerDay + 22 * 3600000.
Definition cairo : Host :=
  {| LocalTZA := λ t isUTC,
       if isUTC then (if t <? cairoChange then 2 * 3600000 else 3 * 3600000)
       else (if t <? cairoChange + 3 * 3600000 then 2 * 3600000
             else 3 * 3600000);
     legacyParse := λ _, None |}.

(** The days from [first] to [last], and the two passes of
    [generateSchedule] over a list of days. *)
Definition daysFrom (first last : Date) : list Date :=
  seqZ first (last - first + 1).
Definition scheduleOver (dates : list Date) (riders : list Rider) (rng : Rng)
    : Schedule * Stats :=
  let st := pass1 riders dates (∅, initStats riders, rng) in
  let '(newSchedule, stats, _) := pass2 riders dates st in
  (newSchedule, stats).

(** A boolean test on every integer of [z, z + fuel). *)
Fixpoint forall_from (fuel : nat) (z : Z) (p : Z → bool) : bool :=
  match fuel with
  | O => true
  | S k => p z && forall_from k (z + 1) p
  end.

(** The number that two decimal digits write. *)
Definition twoDigits (s : JsString) : Z :=
  match s with
  | [a; b] => (Z.of_N a - 48) * 10 + (Z.of_N b - 48)
  | _ => -1
  end.

(** [n] successive clicks on the same day. *)
Definition manualAssign_times (n : nat) (riders : list Rider)
    (dateStr : JsString) (schedule : Schedule) : Schedule :=
  Nat.iter n (λ s, manualAssign s riders dateStr) schedule.

(** The riders who have not blocked the day. *)
Definition availableRiders (riders : list Rider) (dateStr : JsString)
    : list Rider :=
  filter (λ r, dateStr ∉ blockedDates r) riders.

(** Riders used in the examples; [elin_away] is Elin once she has blocked
    2023-10-01; [silvia] and [hedda] are the third and the fourth rider of the default
    roster. *)
Definition elin : Rider :=
  {| id := 1; name := str "Elin"; color := []; blockedDates := [] |}.
Definition anne : Rider :=
  {| id := 2; name := str "Anne"; color := []; blockedDates := [] |}.
Definition elin_away : Rider :=
  {| id := 1; name := str "Elin"; color := [];
     blockedDates := [str "2023-10-01"] |}.
Definition silvia : Rider :=
  {| id := 3; name := str "Silvia"; color := []; blockedDates := [] |}.
Definition hedda : Rider :=
  {| id := 4; name := str "Hedda"; color := []; blockedDates := [] |}.

(** Successive pieces of at most [n] code units of [s]. *)
Fixpoint chunks (fuel n : nat) (s : JsString) : list JsString :=
  match fuel with
  | O => []
  | S fuel' =>
      if decide (0 < length s)%nat
      then take n s :: chunks fuel' n (drop n s) else []
  end.

(** The segments that folding a long line is to produce: the first 75 code
    units, then pieces of at most 74 code units, each after one space. *)
Definition foldedSegments (line : JsString) : list JsString :=
  take 75 line :: ((λ c, SPACE :: c) <$> chunks (length line) 74 (drop 75 line)).

(** The time stamp of a serialization and the content lines of a document,
    each event line folded on its own. *)
Definition timestampOf (nowISO : JsString) : JsString :=
  beforeDot (replaceAll 58%N [] (replaceAll DASH [] nowISO)) ++ str "Z".
Definition calendarHeader : list JsString :=
  [str "BEGIN:VCALENDAR"; str "VERSION:2.0";
   str "PRODID:-//Stable Scheduler//EN"; str "CALSCALE:GREGORIAN";
   str "METHOD:PUBLISH"].
Definition documentLines (host : Host) (nowISO : JsString)
    (events : list CalendarEvent) : list JsString :=
  calendarHeader
  ++ (events ≫=
        (λ event, foldLine <$> eventLines host (timestampOf nowISO) event))
  ++ [str "END:VCALENDAR"].

(** YYYYMMDD of a day. *)
Definition compactDate (t : Date) : JsString :=
  String_of_Z (getFullYear t)
  ++ padStart (String_of_Z (getMonth t + 1)) 2 ZERO
  ++ padStart (String_of_Z (getDate t)) 2 ZERO.

(** Events used in the examples: a shift on 2023-10-01, one with a
    description of 100 letters A, one with a description of 63 letters
    a-with-ring (code unit 229, two octets in UTF-8). *)
Definition shift_2023_10_01 : CalendarEvent :=
  {| date := mkDate 2023 10 1; riderId := 1; eventName := str "Stallvakt";
     description := str "Stallvakt for Elin." |}.
Definition shift_long : CalendarEvent :=
  {| date := mkDate 2023 10 1; riderId := 1; eventName := str "Test";
     description := replicate 100 65%N |}.
Definition shift_aring : CalendarEvent :=
  {| date := mkDate 2023 10 1; riderId := 1; eventName := str "Test";
     description := replicate 63 229%N |}.
Definition sample_now : JsString := str "2023-11-02T10:11:12.345Z".

(** The weekend that [workedLastWeekend] looks at: walking back from the
    current day, itself included, the first Sunday met; the Friday, Saturday
    and Sunday that end there, without those that are not before the current
    day. *)
Definition lastSunday (date : Date) : Date := date - getDay date.
Definition lastWeekendDays (date : Date) : list Date :=
  filter (λ d, d < date)
    [lastSunday date - 2; lastSunday date - 1; lastSunday date].

(** The most recently fully elapsed weekend of a day: the Friday, Saturday
    and Sunday that end at the nearest Sunday strictly before it. *)
Definition priorSunday (date : Date) : Date := date - 1 - getDay (date - 1).
Definition elapsedWeekend (date : Date) : list Date :=
  [priorSunday date - 2; priorSunday date - 1; priorSunday date].

(** What [array.sort] asks of its comparator for the order to be defined:
    read as "a goes before b" when negative, the comparison is asymmetric
    and its negation is transitive. *)
Record ConsistentComparator {A} (compare : A → A → Z) : Prop := {
  compare_asym : forall a b, compare a b < 0 -> ~ compare b a < 0;
  compare_negtrans : forall a b c,
    ~ compare a b < 0 -> ~ compare b c < 0 -> ~ compare a c < 0
}.

(** The schedule of a state of the passes. *)
Definition scheduleOf (st : GenState) : Schedule := st.1.1.
Definition statsOf (st : GenState) : Stats := st.1.2.

(** The Saturdays and the other days of a range, as the passes take them. *)
Definition saturdaysOf (dates : list Date) : list Date :=
  filter (λ d, isSaturday d = true) dates.
Definition fillDaysOf (dates : list Date) : list Date :=
  filter (λ d, isSaturday d ≠ true) dates.

(** Successive entries are a week apart. *)
Fixpoint weekly (l : list Date) : Prop :=
  match l with
  | d :: (d' :: _) as l' => d' = d + 7 /\ weekly l'
  | _ => True
  end.

(** The Saturday counters of the riders lie within one of each other. *)
Definition balanced (riders : list Rider) (stats : Stats) : Prop :=
  exists m, forall r, r ∈ riders ->
    m <= saturdays (statOf stats (id r)) <= m + 1.
(** Every rider has counters. *)
Definition covered (riders : list Rider) (stats : Stats) : Prop :=
  forall r, r ∈ riders -> is_Some (stats !! id r).
(** The rider of the Saturday a week before [d], if any, has the largest
    Saturday count. *)
Definition prevSatMax (riders : list Rider) (st : GenState) (d : Date) : Prop :=
  forall a, scheduleOf st !! formatDate (d - 7) = Some (Some a) ->
    forall r, r ∈ riders ->
      saturdays (statOf (statsOf st) (id r)) <= saturdays (statOf (statsOf st) a).

(** The results that a call on given inputs can hand over: the function
    takes no seed, the outcomes of [Math.random] are whatever the
    environment yields. *)
Definition possibleRun (host : Host) (startDate endDate : Date)
    (riders : list Rider) (out : Schedule * Stats) : Prop :=
  exists rng, generateSchedule host startDate endDate riders rng = out.

(** Two tapes with the same first [n] outcomes. *)
Definition tapesAgree (n : nat) (t1 t2 : Rng) : Prop :=
  forall i, (i < n)%nat -> nth i t1 0%nat = nth i t2 0%nat.

(** The number of days of [ds] that a schedule gives to the rider [i]. *)
Definition assignedOn (schedule : Schedule) (i : Z) (ds : list Date) : Z :=
  Z.of_nat (length (filter (λ d, schedule !! formatDate d = Some (Some i)) ds)).

(** ** The roster handlers *)

(** [updateRider(id, 'blockedDates', value)]: every rider with that id gets
    the new list. *)
Definition updateRider_blockedDates (riders : list Rider) (i : Z)
    (value : list JsString) : list Rider :=
  (λ r, if decide (id r = i)
        then {| id := id r; name := name r; color := color r;
                blockedDates := value |}
        else r) <$> riders.

(** [toggleBlockedDate(e, riderId, dateStr)]: the rider list handed to
    [setRiders], or the list as it is when no rider has that id. *)
Definition toggleBlockedDate (riders : list Rider) (riderId : Z)
    (dateStr : JsString) : list Rider :=
  match getRiderById riders riderId with
  | None => riders
  | Some rider =>
      let isBlocked := bool_decide (dateStr ∈ blockedDates rider) in
      let newBlocked :=
        if isBlocked then filter (λ d, d ≠ dateStr) (blockedDates rider)
        else blockedDates rider ++ [dateStr] in
      updateRider_blockedDates riders riderId newBlocked
  end.

(** [removeRider(id)]. *)
Definition removeRider (riders : list Rider) (i : Z) : list Rider :=
  filter (λ r, id r ≠ i) riders.

(** ** Reading the export back *)

(** A decimal digit. *)
Definition isDigit (u : N) : Prop := (48 <= u <= 57)%N.

(** What [escapeText] does to one code unit. *)
Definition escapeUnit (u : N) : JsString :=
  if decide (u = BACKSLASH) then [BACKSLASH; BACKSLASH]
  else if decide (u = 59%N) then [BACKSLASH; 59%N]
  else if decide (u = 44%N) then [BACKSLASH; 44%N]
  else if decide (u = LF) then [BACKSLASH; 110%N]
  else [u].

(** The reader's side of the escaping: a backslash announces one escaped
    code unit, [n] standing for the line feed. *)
Fixpoint unescapeText (s : JsString) : JsString :=
  match s with
  | [] => []
  | u :: rest =>
      if decide (u = BACKSLASH) then
        match rest with
        | v :: rest' => (if decide (v = 110%N) then LF else v) :: unescapeText rest'
        | [] => [u]
        end
      else u :: unescapeText rest
  end.

(** The reader's side of the folding: every CR LF followed by a space is
    taken out. *)
Fixpoint unfoldLine (s : JsString) : JsString :=
  match s with
  | [] => []
  | u :: rest =>
      if decide (u = CR) then
        match rest with
        | v :: w :: rest' =>
            if decide (v = LF ∧ w = SPACE) then unfoldLine rest'
            else u :: unfoldLine rest
        | _ => u :: unfoldLine rest
        end
      else u :: unfoldLine rest
  end.

(** The VEVENT block that [downloadICal] writes for one schedule key. *)
Definition downloadICal_event (eventName eventDescription : JsString)
    (dateStr : JsString) : JsString :=
  templateLines
    [str "BEGIN:VEVENT";
     str "DTSTART;VALUE=DATE:" ++ formatICalDate dateStr;
     str "DTEND;VALUE=DATE:" ++ formatICalDate dateStr;
     str "SUMMARY:" ++ eventName;
     str "DESCRIPTION:" ++ replaceAll LF [BACKSLASH; 110%N] eventDescription;
     str "STATUS:CONFIRMED"; str "END:VEVENT"].

(** * Properties *)

(** ** The calendar *)

Lemma doe_of_range t : 0 <= doe_of t < 146097.
Proof. unfold doe_of. apply Z.mod_pos_bound. lia. Qed.

Lemma yoe_range doe : 0 <= doe < 146097 ->
  0 <= yoe_of_doe doe < 400 /\ 0 <= doy_of_doe doe <= 365.
Proof.
  intros H. unfold doy_of_doe, yoe_of_doe, year_start.
  Z.div_mod_to_equations. lia.
Qed.

Lemma mp_range doy : 0 <= doy <= 365 ->
  0 <= mp_of_doy doy <= 11 /\ 0 <= doy - month_start (mp_of_doy doy) <= 30.
Proof.
  intros H. unfold mp_of_doy, month_start. Z.div_mod_to_equations. lia.
Qed.

Lemma getMonth_range t : 0 <= getMonth t <= 11.
Proof.
  unfold getMonth, mp_of.
  pose proof (doe_of_range t) as H1. apply yoe_range in H1 as [_ H1].
  apply mp_range in H1 as [H1 _]. case_match; lia.
Qed.

Lemma getDate_range t : 1 <= getDate t <= 31.
Proof.
  unfold getDate, mp_of.
  pose proof (doe_of_range t) as H1. apply yoe_range in H1 as [_ H1].
  apply mp_range in H1 as [_ H1]. lia.
Qed.

Lemma DaysFromCivil_civil t :
  DaysFromCivil (getFullYear t) (getMonth t + 1) (getDate t) = t.
Proof.
  pose proof (doe_of_range t) as Hd. pose proof (yoe_range _ Hd) as [Hy Hdoy].
  pose proof (mp_range _ Hdoy) as [Hmp _].
  unfold DaysFromCivil, getFullYear, getDate, getMonth, mp_of in *.
  set (doe := doe_of t) in *. set (yoe := yoe_of_doe doe) in *.
  set (mp := mp_of_doy (doy_of_doe doe)) in *.
  assert (Hera : era_of t * 146097 + doe = t + 719468).
  { unfold era_of, doe, doe_of. Z.div_mod_to_equations. lia. }
  assert (Hyear : forall m, m = (if mp <? 10 then mp + 2 else mp - 10) ->
     (if m + 1 <=? 2 then yoe + era_of t * 400 + (if m <=? 1 then 1 else 0) - 1
      else yoe + era_of t * 400 + (if m <=? 1 then 1 else 0)) = yoe + era_of t * 400
     /\ (m + 1 + 9) mod 12 = mp).
  { intros m ->. destruct (Z.ltb_spec mp 10).
    - destruct (Z.leb_spec (mp + 2 + 1) 2), (Z.leb_spec (mp + 2) 1); try lia.
      split; [lia|]. Z.div_mod_to_equations; lia.
    - destruct (Z.leb_spec (mp - 10 + 1) 2), (Z.leb_spec (mp - 10) 1); try lia.
      split; [lia|]. Z.div_mod_to_equations; lia. }
  destruct (Hyear _ eq_refl) as [-> ->].
  replace ((yoe + era_of t * 400) / 400) with (era_of t) by (Z.div_mod_to_equations; lia).
  replace ((yoe + era_of t * 400) mod 400) with yoe by (Z.div_mod_to_equations; lia).
  unfold doy_of_doe. fold yoe. lia.
Qed.

Lemma setDate_getDate t k : setDate t (getDate t + k) = t + k.
Proof.
  pose proof (DaysFromCivil_civil t) as H. pose proof (getMonth_range t) as Hm.
  unfold setDate, MakeDay.
  replace (getMonth t / 12) with 0 by (Z.div_mod_to_equations; lia).
  replace (getMonth t mod 12) with (getMonth t) by (Z.div_mod_to_equations; lia).
  rewrite Z.add_0_r. unfold DaysFromCivil in *. lia.
Qed.


Lemma isLeapYear_spec y :
  isLeapYear y = true <-> (y mod 4 = 0 /\ (y mod 100 <> 0 \/ y mod 400 = 0)).
Proof.
  unfold isLeapYear. rewrite andb_true_iff, orb_true_iff, negb_true_iff.
  rewrite !Z.eqb_eq, Z.eqb_neq. tauto.
Qed.

Lemma doy_leap doe : 0 <= doe < 146097 -> doy_of_doe doe = 365 ->
  (yoe_of_doe doe + 1) mod 4 = 0 /\
  ((yoe_of_doe doe + 1) mod 100 <> 0 \/ (yoe_of_doe doe + 1) mod 400 = 0).
Proof.
  intros H. unfold doy_of_doe, yoe_of_doe, year_start.
  Z.div_mod_to_equations. lia.
Qed.

Lemma yoe_unique doe yoe doy : 0 <= yoe < 400 -> 0 <= doy <= 365 ->
  (doy = 365 -> (yoe + 1) mod 4 = 0 /\ ((yoe + 1) mod 100 <> 0 \/ (yoe + 1) mod 400 = 0)) ->
  doe = year_start yoe + doy -> yoe_of_doe doe = yoe.
Proof.
  intros H1 H2 H3 ->. unfold yoe_of_doe, year_start in *.
  Z.div_mod_to_equations. lia.
Qed.

Lemma mp_unique doy mp d : 0 <= mp <= 11 -> 1 <= d ->
  d <= month_start (mp + 1) - month_start mp ->
  doy = month_start mp + d - 1 -> mp_of_doy doy = mp.
Proof.
  intros H1 H2 H3 ->. unfold mp_of_doy, month_start in *.
  Z.div_mod_to_equations. lia.
Qed.

Lemma month_start_diff mp : 0 <= mp <= 10 ->
  month_start (mp + 1) - month_start mp =
  if (mp =? 1) || (mp =? 3) || (mp =? 6) || (mp =? 8) then 30 else 31.
Proof.
  intros H. assert (mp = 0 \/ mp = 1 \/ mp = 2 \/ mp = 3 \/ mp = 4 \/ mp = 5 \/ mp = 6
    \/ mp = 7 \/ mp = 8 \/ mp = 9 \/ mp = 10) as Hc by lia.
  repeat destruct Hc as [->|Hc]; try subst mp; reflexivity.
Qed.

Lemma getDate_le_daysInMonth t : getDate t <= daysInMonth (getFullYear t) (getMonth t).
Proof.
  pose proof (doe_of_range t) as Hd. pose proof (yoe_range _ Hd) as [Hy Hdoy].
  pose proof (mp_range _ Hdoy) as [Hmp Hdd]. pose proof (doy_leap _ Hd) as Hleap.
  unfold daysInMonth, getFullYear, getDate, getMonth, mp_of.
  set (doe := doe_of t) in *. set (yoe := yoe_of_doe doe) in *.
  set (doy := doy_of_doe doe) in *. set (mp := mp_of_doy doy) in *.
  assert (Hms : 153 * mp <= 5 * doy + 2 < 153 * mp + 153).
  { unfold mp, mp_of_doy. Z.div_mod_to_equations. lia. }
  destruct (Z.ltb_spec mp 10) as [Hlt|Hge].
  - replace (mp + 2 =? 1) with false by lia. replace (mp + 2 <=? 1) with false by lia.
    assert (Hn : doy < month_start (mp + 1)).
    { unfold month_start. Z.div_mod_to_equations. lia. }
    pose proof (month_start_diff mp ltac:(lia)) as Hdiff.
    replace ((mp + 2 =? 3) || (mp + 2 =? 5) || (mp + 2 =? 8) || (mp + 2 =? 10))
      with ((mp =? 1) || (mp =? 3) || (mp =? 6) || (mp =? 8)).
    2:{ f_equal; [f_equal; [f_equal|]|]; lia. }
    destruct ((mp =? 1) || (mp =? 3) || (mp =? 6) || (mp =? 8)); lia.
  - replace (mp - 10 <=? 1) with true by lia.
    destruct (Z.eqb_spec (mp - 10) 1) as [E|E].
    + assert (mp = 11) as Hmp11 by lia. rewrite Hmp11 in *.
      change (month_start 11) with 337.
      destruct (isLeapYear (yoe + era_of t * 400 + 1)) eqn:El; [lia|].
      assert (doy <> 365); [|lia]. intros E365. apply Hleap in E365.
      assert (isLeapYear (yoe + era_of t * 400 + 1) = true); [|congruence].
      apply isLeapYear_spec. Z.div_mod_to_equations. lia.
    + assert (mp = 10) as Hmp10 by lia. rewrite Hmp10 in *.
      change (month_start 10) with 306. simpl.
      assert (doy < 337); [|lia]. lia.
Qed.

Lemma daysInMonth_range y m : 28 <= daysInMonth y m <= 31.
Proof. unfold daysInMonth. repeat case_match; lia. Qed.

Lemma civil_valid t : validCivil (civil t).
Proof.
  unfold validCivil, civil. pose proof (getMonth_range t). pose proof (getDate_range t).
  pose proof (getDate_le_daysInMonth t). lia.
Qed.

Lemma month_cases m : 0 <= m <= 11 ->
  m = 0 \/ m = 1 \/ m = 2 \/ m = 3 \/ m = 4 \/ m = 5 \/ m = 6 \/ m = 7 \/ m = 8 \/ m = 9
  \/ m = 10 \/ m = 11.
Proof. lia. Qed.

Lemma civil_unique y m d : validCivil (y, m, d) ->
  civil (DaysFromCivil y (m + 1) d) = (y, m, d).
Proof.
  intros [Hm Hd]. unfold DaysFromCivil.
  set (y' := if m + 1 <=? 2 then y - 1 else y).
  set (era := y' / 400). set (yoe := y' mod 400). set (mp := (m + 1 + 9) mod 12).
  set (doy := month_start mp + (d - 1)).
  assert (Hyoe : 0 <= yoe < 400) by (apply Z.mod_pos_bound; lia).
  assert (Hy' : y' = era * 400 + yoe).
  { unfold era, yoe. Z.div_mod_to_equations. lia. }
  assert (Hmp : mp = if m <=? 1 then m + 10 else m - 2).
  { unfold mp. destruct (Z.leb_spec m 1); Z.div_mod_to_equations; lia. }
  assert (Hleap : isLeapYear y = true -> m <= 1 ->
    (yoe + 1) mod 4 = 0 /\ ((yoe + 1) mod 100 <> 0 \/ (yoe + 1) mod 400 = 0)).
  { intros Hl Hle. apply isLeapYear_spec in Hl. unfold y' in Hy'.
    replace (m + 1 <=? 2) with true in Hy' by lia.
    Z.div_mod_to_equations. lia. }
  assert (Hdoy : 0 <= doy <= 365 /\ (doy = 365 -> isLeapYear y = true /\ m = 1)
     /\ d <= month_start (mp + 1) - month_start mp /\ 0 <= mp <= 11).
  { unfold doy, daysInMonth in *.
    destruct (month_cases m Hm) as [->|[->|[->|[->|[->|[->|[->|[->|[->|[->|[->| ->]]]]]]]]]]];
      rewrite Hmp; simpl in *;
      try (destruct (isLeapYear y)); vm_compute month_start; lia. }
  destruct Hdoy as (Hdoy & H365 & Hdm & Hmpr).
  set (doe := year_start yoe + doy).
  assert (Hdoe : 0 <= doe < 146097).
  { unfold doe, year_start. Z.div_mod_to_equations. lia. }
  assert (Hyy : yoe_of_doe doe = yoe).
  { apply (yoe_unique doe yoe doy); auto.
    intros E. destruct (H365 E) as [Hl ->]. apply Hleap; [done|lia]. }
  assert (Ht : era * 146097 + (year_start yoe + month_start mp + (d - 1)) - 719468 + 719468
               = era * 146097 + doe) by (unfold doe, doy; lia).
  assert (Hera : era_of (era * 146097 + (year_start yoe + month_start mp + (d - 1)) - 719468) = era).
  { unfold era_of. rewrite Ht. Z.div_mod_to_equations. lia. }
  assert (Hdoe' : doe_of (era * 146097 + (year_start yoe + month_start mp + (d - 1)) - 719468) = doe).
  { unfold doe_of. rewrite Ht. Z.div_mod_to_equations. lia. }
  assert (Hdoy' : doy_of_doe doe = doy).
  { unfold doy_of_doe. rewrite Hyy. unfold doe. lia. }
  assert (Hmp' : mp_of_doy doy = mp).
  { apply (mp_unique doy mp d); auto; unfold doy; lia. }
  assert (Hgm : getMonth (era * 146097 + (year_start yoe + month_start mp + (d - 1)) - 719468) = m).
  { unfold getMonth, mp_of. rewrite Hdoe', Hdoy', Hmp', Hmp.
    destruct (Z.leb_spec m 1), (Z.ltb_spec (m + 10) 10), (Z.ltb_spec (m - 2) 10); lia. }
  unfold civil. rewrite Hgm. f_equal; [f_equal|].
  - unfold getFullYear. rewrite Hgm, Hdoe', Hyy, Hera. unfold y' in Hy'.
    destruct (Z.leb_spec (m + 1) 2), (Z.leb_spec m 1); lia.
  - unfold getDate, mp_of. rewrite Hdoe', Hdoy', Hmp'. unfold doy. lia.
Qed.

Lemma DaysFromCivil_eq y m d : 0 <= m <= 11 ->
  DaysFromCivil y (m + 1) d =
  (if m <=? 1 then days_before_year (y - 1) + month_start (m + 10)
   else days_before_year y + month_start (m - 2)) + d - 1 - 719468.
Proof.
  intros Hm. unfold DaysFromCivil, days_before_year, year_start.
  destruct (Z.leb_spec (m + 1) 2), (Z.leb_spec m 1); try lia.
  - replace ((m + 1 + 9) mod 12) with (m + 10) by (Z.div_mod_to_equations; lia).
    Z.div_mod_to_equations; lia.
  - replace ((m + 1 + 9) mod 12) with (m - 2) by (Z.div_mod_to_equations; lia).
    Z.div_mod_to_equations; lia.
Qed.

Lemma daysInMonth_cases y m : 0 <= m <= 11 ->
  (m = 1 /\ isLeapYear y = true /\ daysInMonth y m = 29) \/
  (m = 1 /\ isLeapYear y = false /\ daysInMonth y m = 28) \/
  ((m = 3 \/ m = 5 \/ m = 8 \/ m = 10) /\ daysInMonth y m = 30) \/
  ((m = 0 \/ m = 2 \/ m = 4 \/ m = 6 \/ m = 7 \/ m = 9 \/ m = 11) /\ daysInMonth y m = 31).
Proof.
  intros Hm. unfold daysInMonth.
  destruct (Z.eqb_spec m 1), (Z.eqb_spec m 3), (Z.eqb_spec m 5), (Z.eqb_spec m 8),
    (Z.eqb_spec m 10), (isLeapYear y); simpl; lia.
Qed.

Lemma days_before_year_succ y :
  days_before_year y - days_before_year (y - 1) = if isLeapYear y then 366 else 365.
Proof.
  destruct (isLeapYear y) eqn:E.
  - apply isLeapYear_spec in E. unfold days_before_year. Z.div_mod_to_equations. lia.
  - assert (~ (y mod 4 = 0 /\ (y mod 100 <> 0 \/ y mod 400 = 0))) as H.
    { rewrite <- isLeapYear_spec. congruence. }
    unfold days_before_year. Z.div_mod_to_equations. lia.
Qed.

Lemma DaysFromCivil_next y m d : validCivil (y, m, d) ->
  validCivil (nextCivil (y, m, d)) /\
  (let '(y2, m2, d2) := nextCivil (y, m, d) in DaysFromCivil y2 (m2 + 1) d2)
  = DaysFromCivil y (m + 1) d + 1.
Proof.
  intros [Hm Hd]. unfold nextCivil. pose proof (daysInMonth_range y m).
  destruct (Z.ltb_spec d (daysInMonth y m)) as [Hlt|Hge].
  { split; [unfold validCivil; lia|]. unfold DaysFromCivil. lia. }
  assert (d = daysInMonth y m) as -> by lia.
  pose proof (days_before_year_succ y) as Hy.
  pose proof (daysInMonth_cases y m Hm) as Hc.
  destruct (Z.ltb_spec m 11) as [Hlt|Hge'].
  - split. { unfold validCivil. pose proof (daysInMonth_range y (m + 1)). lia. }
    rewrite !DaysFromCivil_eq by lia. unfold month_start.
    destruct (Z.leb_spec (m + 1) 1), (Z.leb_spec m 1); try lia.
    + Z.div_mod_to_equations; lia.
    + destruct (isLeapYear y); Z.div_mod_to_equations; lia.
    + Z.div_mod_to_equations; lia.
  - assert (m = 11) as -> by lia. split.
    { unfold validCivil. pose proof (daysInMonth_range (y + 1) 0). lia. }
    rewrite (DaysFromCivil_eq (y + 1) 0), (DaysFromCivil_eq y 11) by lia.
    replace (0 <=? 1) with true by reflexivity. replace (11 <=? 1) with false by reflexivity.
    replace (y + 1 - 1) with y by lia. unfold month_start.
    Z.div_mod_to_equations; lia.
Qed.

Lemma civil_succ t : civil (t + 1) = nextCivil (civil t).
Proof.
  pose proof (civil_valid t) as Hv. pose proof (DaysFromCivil_civil t) as Ht.
  unfold civil in *.
  destruct (DaysFromCivil_next _ _ _ Hv) as [Hv' Hn]. rewrite Ht in Hn.
  destruct (nextCivil (getFullYear t, getMonth t, getDate t)) as [[y2 m2] d2] eqn:E.
  rewrite <- Hn. fold (civil (DaysFromCivil y2 (m2 + 1) d2)). by apply civil_unique.
Qed.

Lemma setDate_getDate_sub t k : setDate t (getDate t - k) = t - k.
Proof. replace (getDate t - k) with (getDate t + - k) by lia. rewrite setDate_getDate. lia. Qed.

Lemma getDay_range t : 0 <= getDay t < 7.
Proof. unfold getDay. apply Z.mod_pos_bound. lia. Qed.

Lemma getDay_succ t : getDay (t + 1) = (getDay t + 1) mod 7.
Proof. unfold getDay. Z.div_mod_to_equations. lia. Qed.

Lemma getDay_shift7 t : getDay (t - 7) = getDay t.
Proof. unfold getDay. Z.div_mod_to_equations. lia. Qed.

(** ** Strings and date keys *)

Lemma forall_from_spec fuel p : forall lo, forall_from fuel lo p = true ->
  forall z, lo <= z < lo + Z.of_nat fuel -> p z = true.
Proof.
  induction fuel as [|k IH]; simpl; intros lo H z Hz; [lia|].
  apply andb_true_iff in H as [H1 H2].
  destruct (Z.eq_dec z lo) as [->|]; [done|]. apply (IH (lo + 1)); [done|lia].
Qed.

Lemma str_inj s1 s2 : str s1 = str s2 -> s1 = s2.
Proof.
  unfold str. intros H.
  rewrite <- (string_of_list_ascii_of_string s1), <- (string_of_list_ascii_of_string s2).
  f_equal. revert H. generalize (list_ascii_of_string s1) (list_ascii_of_string s2).
  induction l as [|a l IH]; intros [|b l'] H; simpl in *; try done.
  injection H as Hab Hl. f_equal; [|by apply IH].
  rewrite <- (ascii_N_embedding a), <- (ascii_N_embedding b). by rewrite Hab.
Qed.

Lemma String_of_Z_inj n1 n2 : String_of_Z n1 = String_of_Z n2 -> n1 = n2.
Proof. intros H. apply str_inj in H. by apply (inj pretty). Qed.

Lemma pad2_twoDigits n : 0 <= n < 100 ->
  length (padStart (String_of_Z n) 2 ZERO) = 2%nat /\
  twoDigits (padStart (String_of_Z n) 2 ZERO) = n.
Proof.
  intros Hn.
  assert (forall_from 100 0 (λ n,
    bool_decide (length (padStart (String_of_Z n) 2 ZERO) = 2%nat) &&
    (twoDigits (padStart (String_of_Z n) 2 ZERO) =? n)) = true) as H
    by (vm_compute; reflexivity).
  pose proof (forall_from_spec _ _ _ H n ltac:(lia)) as Hc. simpl in Hc.
  apply andb_true_iff in Hc as [H1 H2].
  apply bool_decide_eq_true in H1. apply Z.eqb_eq in H2. done.
Qed.

Lemma formatDate_inj (d1 d2 : Date) : formatDate d1 = formatDate d2 -> d1 = d2.
Proof.
  unfold formatDate. intros H.
  pose proof (getMonth_range d1) as Hm1. pose proof (getMonth_range d2) as Hm2.
  pose proof (getDate_range d1) as Hd1. pose proof (getDate_range d2) as Hd2.
  destruct (pad2_twoDigits (getMonth d1 + 1) ltac:(lia)) as [Lm1 Vm1].
  destruct (pad2_twoDigits (getMonth d2 + 1) ltac:(lia)) as [Lm2 Vm2].
  destruct (pad2_twoDigits (getDate d1) ltac:(lia)) as [Ld1 Vd1].
  destruct (pad2_twoDigits (getDate d2) ltac:(lia)) as [Ld2 Vd2].
  apply app_inj_2 in H as [Hy H]; [|rewrite !length_app, Lm1, Lm2, Ld1, Ld2; done].
  apply (app_inj_1 [DASH] [DASH]) in H as [_ H]; [|done].
  apply app_inj_1 in H as [Hm H]; [|congruence].
  apply (app_inj_1 [DASH] [DASH]) in H as [_ Hd]; [|done].
  apply String_of_Z_inj in Hy.
  rewrite <- (DaysFromCivil_civil d1), <- (DaysFromCivil_civil d2).
  rewrite Hy. f_equal; congruence.
Qed.

(** ** Ranges of days *)

Lemma daysFrom_lookup first last (i : nat) d :
  daysFrom first last !! i = Some d <-> d = first + Z.of_nat i /\ d <= last.
Proof. unfold daysFrom. rewrite lookup_seqZ. lia. Qed.

Lemma elem_of_daysFrom first last d :
  d ∈ daysFrom first last <-> first <= d <= last.
Proof. unfold daysFrom. rewrite elem_of_seqZ. lia. Qed.

Lemma NoDup_daysFrom first last : NoDup (daysFrom first last).
Proof. apply NoDup_seqZ. Qed.

Lemma seqZ_daysFrom first n : 0 <= n -> seqZ first n = daysFrom first (first + n - 1).
Proof. intros Hn. unfold daysFrom. f_equal. lia. Qed.

(** ** Hosts *)

Lemma Day_midnight d : Day (d * msPerDay) = d.
Proof. unfold Day, msPerDay. Z.div_mod_to_equations. lia. Qed.

Lemma Day_within d w : 0 <= w < msPerDay -> Day (d * msPerDay + w) = d.
Proof. unfold Day, msPerDay. intros H. Z.div_mod_to_equations. lia. Qed.

Lemma TimeWithinDay_range t : 0 <= TimeWithinDay t < msPerDay.
Proof. unfold TimeWithinDay, msPerDay. Z.div_mod_to_equations. lia. Qed.

Lemma fixedOffset_regular offset :
  - msPerDay <= offset < msPerDay -> RegularHost (fixedOffset offset).
Proof.
  intros H. split.
  - intros local. unfold LocalTime, UTC. cbn. f_equal. lia.
  - intros l1 l2. unfold UTC, Day, msPerDay. cbn. intros Hd.
    Z.div_mod_to_equations. lia.
  - cbn. destruct (Z.le_gt_cases 0 offset); [left|right]; intros _; lia.
Qed.

Lemma utcHost_regular : RegularHost utcHost.
Proof. apply fixedOffset_regular. unfold msPerDay. lia. Qed.

Lemma fiveHoursWest_regular : RegularHost fiveHoursWest.
Proof. apply fixedOffset_regular. unfold msPerDay. lia. Qed.

Lemma fixedOffset_midnightKept offset day : midnightKept (fixedOffset offset) day.
Proof. unfold midnightKept, LocalTime, UTC. cbn. lia. Qed.

Lemma cairoChange_eq : cairoChange = 1682632800000.
Proof. vm_compute. reflexivity. Qed.

Lemma cairo_regular : RegularHost cairo.
Proof.
  split.
  - intros local. unfold LocalTime, UTC, Day, msPerDay. cbn. rewrite cairoChange_eq.
    repeat (case_match; try rewrite Z.ltb_lt in *; try rewrite Z.ltb_ge in *);
      Z.div_mod_to_equations; lia.
  - intros l1 l2. unfold UTC, Day, msPerDay. cbn. rewrite cairoChange_eq. intros Hd.
    repeat (case_match; try rewrite Z.ltb_lt in *; try rewrite Z.ltb_ge in *);
      Z.div_mod_to_equations; lia.
  - left. intros t. cbn. unfold msPerDay. case_match; lia.
Qed.

Lemma localDay_UTC host (Hhost : RegularHost host) local :
  Instant.localDay host (UTC host local) = Day local.
Proof. apply (day_stable host Hhost). Qed.

Lemma localDay_setHours0 host (Hhost : RegularHost host) t :
  Instant.localDay host (Instant.setHours0 host t) = Instant.localDay host t.
Proof.
  unfold Instant.setHours0. rewrite localDay_UTC by done.
  by rewrite Day_midnight.
Qed.

Lemma localDay_ofDateOnly_east host day :
  eastOfUTC host -> Instant.localDay host (Instant.ofDateOnly day) = day.
Proof.
  intros He. unfold Instant.localDay, LocalTime, Instant.ofDateOnly.
  apply Day_within, He.
Qed.

Lemma localDay_ofDateOnly_west host day :
  westOfUTC host -> Instant.localDay host (Instant.ofDateOnly day) = day - 1.
Proof.
  intros Hw. unfold Instant.localDay, LocalTime, Instant.ofDateOnly.
  specialize (Hw (day * msPerDay)). revert Hw.
  generalize (LocalTZA host (day * msPerDay) true). intros off.
  unfold Day, msPerDay. intros Hw. Z.div_mod_to_equations. lia.
Qed.

(** The shift between the day a date-only string names and the local day
    its midnight in UTC falls on: none on a host that is never behind UTC,
    one day back on a host that always is. *)
Lemma localDay_ofDateOnly host (Hhost : RegularHost host) :
  exists shift, (shift = 0 \/ shift = -1)
    /\ forall day, Instant.localDay host (Instant.ofDateOnly day) = day + shift.
Proof.
  destruct (offset_side host Hhost) as [He|Hw].
  - exists 0. split; [by left|]. intros day.
    rewrite localDay_ofDateOnly_east by done. lia.
  - exists (-1). split; [by right|]. intros day.
    rewrite localDay_ofDateOnly_west by done. lia.
Qed.

(** [setDate] to the day of the month plus [k], from a Date set on a
    wall-clock time [local]: the wall-clock time of the day [k] days on. *)
Lemma setDate_UTC host (Hhost : RegularHost host) local k :
  exists local', Instant.setDate host (UTC host local)
                   (Instant.getDate host (UTC host local) + k) = UTC host local'
    /\ Day local' = Day local + k
    /\ (midnightKept host (Day local) -> local = Day local * msPerDay ->
        local' = (Day local + k) * msPerDay).
Proof.
  unfold Instant.setDate, Instant.getDate. rewrite localDay_UTC by done.
  unfold Instant.localDay.
  eexists. split; [reflexivity|].
  rewrite (day_stable host Hhost), setDate_getDate. split.
  - apply Day_within, TimeWithinDay_range.
  - intros Hk Hl. unfold midnightKept in Hk. rewrite Hl at 2. rewrite Hk.
    unfold TimeWithinDay, msPerDay. Z.div_mod_to_equations. lia.
Qed.

(** [setDate] to the day of the month plus [k] moves the local day by
    [k]. *)
Lemma localDay_setDate host (Hhost : RegularHost host) t k :
  Instant.localDay host (Instant.setDate host t (Instant.getDate host t + k))
  = Instant.localDay host t + k.
Proof.
  unfold Instant.setDate, Instant.getDate, Instant.localDay.
  rewrite (day_stable host Hhost), setDate_getDate.
  apply Day_within, TimeWithinDay_range.
Qed.

(** ** The calendar range expander, [generateDates] *)

(** The run of the loop from a cursor set on the wall-clock time [local]
    towards the midnight of the local day [last]: consecutive days from the
    day of the cursor, all days before [last] and possibly [last]; more
    fuel changes nothing. *)
Lemma generateDates_loop_run host (Hhost : RegularHost host) last fuel :
  forall extra local dates,
  last - Day local + 1 <= Z.of_nat fuel ->
  generateDates_loop host (fuel + extra) (UTC host local)
    (UTC host (last * msPerDay)) dates
  = generateDates_loop host fuel (UTC host local) (UTC host (last * msPerDay)) dates
  /\ exists n,
    generateDates_loop host fuel (UTC host local)
      (UTC host (last * msPerDay)) dates
    = dates ++ seqZ (Day local) n
    /\ 0 <= n /\ last - Day local <= n <= Z.max 0 (last - Day local + 1)
    /\ ((forall d, Day local <= d <= last -> midnightKept host d) ->
        local = Day local * msPerDay -> n = Z.max 0 (last - Day local + 1)).
Proof.
  induction fuel as [|fuel IH]; intros extra local dates Hfuel.
  - assert (UTC host (last * msPerDay) < UTC host local) as Hlt.
    { apply (day_increasing host Hhost). rewrite Day_midnight. lia. }
    split.
    + destruct extra as [|extra]; [done|]. cbn [Nat.add generateDates_loop].
      destruct (Z.leb_spec (UTC host local) (UTC host (last * msPerDay))); [lia|done].
    + exists 0. rewrite seqZ_nil, app_nil_r by lia. split; [done|lia].
  - cbn [Nat.add generateDates_loop].
    destruct (Z.leb_spec (UTC host local) (UTC host (last * msPerDay))) as [Hle|Hgt].
    + assert (Day local <= last) as Hday.
      { destruct (Z.le_gt_cases (Day local) last) as [|Hc]; [done|].
        assert (UTC host (last * msPerDay) < UTC host local); [|lia].
        apply (day_increasing host Hhost). rewrite Day_midnight. lia. }
      destruct (setDate_UTC host Hhost local 1) as (local' & -> & Hd' & Hmid).
      rewrite localDay_UTC by done.
      destruct (IH extra local' (dates ++ [Day local]) ltac:(lia))
        as (Ex & n & E & Hn0 & Hn & Hall).
      split; [exact Ex|].
      exists (n + 1). split.
      { etrans; [exact E|]. rewrite (seqZ_cons (Day local)) by lia.
        rewrite <- app_assoc. cbn [app]. rewrite Hd'.
        replace (Z.succ (Day local)) with (Day local + 1) by lia.
        by replace (Z.pred (n + 1)) with n by lia. }
      split; [lia|]. split; [lia|].
      intros Hkept Hl.
      rewrite Hall; [lia| |].
      * intros d Hd. apply Hkept. lia.
      * rewrite Hd'. apply Hmid; [apply Hkept; lia|done].
    + split; [done|].
      exists 0. rewrite seqZ_nil, app_nil_r by lia. split; [done|].
      assert (last <= Day local) as Hday.
      { destruct (Z.le_gt_cases last (Day local)) as [|Hc]; [done|].
        assert (UTC host local < UTC host (last * msPerDay)); [|lia].
        apply (day_increasing host Hhost). rewrite Day_midnight. lia. }
      split; [lia|]. split; [lia|].
      intros Hkept Hl.
      destruct (Z.eq_dec (Day local) last) as [E|]; [|lia].
      rewrite Hl, E in Hgt. lia.
Qed.

Lemma generateDates_eq_loop host (Hhost : RegularHost host) startDate endDate :
  let first := Instant.localDay host (Instant.ofDateOnly startDate) in
  let last := Instant.localDay host (Instant.ofDateOnly endDate) in
  generateDates host startDate endDate
  = generateDates_loop host (Z.to_nat (last - first + 1))
      (UTC host (first * msPerDay)) (UTC host (last * msPerDay)) [].
Proof. intros first last. unfold generateDates. by rewrite !localDay_setHours0. Qed.

(** The loop leaves by its own test: more fuel changes nothing. *)
Lemma generateDates_fuel host (Hhost : RegularHost host) startDate endDate extra :
  let start := Instant.setHours0 host (Instant.ofDateOnly startDate) in
  let end_ := Instant.setHours0 host (Instant.ofDateOnly endDate) in
  generateDates_loop host
    (Z.to_nat (Instant.localDay host end_ - Instant.localDay host start + 1) + extra)
    start end_ []
  = generateDates host startDate endDate.
Proof.
  intros start end_. unfold generateDates. fold start end_.
  subst start end_. rewrite !localDay_setHours0 by done. unfold Instant.setHours0.
  apply generateDates_loop_run; [done|]. unfold Instant.localDay.
  rewrite Day_midnight. lia.
Qed.

(** On a regular host [generateDates] returns consecutive local days, from
    the local day that the start falls on: all days before the local day of
    the end, and that day too unless the cursor has drifted past its
    midnight. *)
Lemma generateDates_run host (Hhost : RegularHost host) startDate endDate :
  let first := Instant.localDay host (Instant.ofDateOnly startDate) in
  let last := Instant.localDay host (Instant.ofDateOnly endDate) in
  exists n, generateDates host startDate endDate = seqZ first n
    /\ 0 <= n /\ last - first <= n <= Z.max 0 (last - first + 1)
    /\ ((forall d, first <= d <= last -> midnightKept host d) ->
        n = Z.max 0 (last - first + 1)).
Proof.
  intros first last. rewrite generateDates_eq_loop by done. fold first last.
  assert (last - Day (first * msPerDay) + 1 <= Z.of_nat (Z.to_nat (last - first + 1)))
    as Hfuel by (rewrite Day_midnight; lia).
  destruct (generateDates_loop_run host Hhost last _ 0%nat (first * msPerDay) [] Hfuel)
    as (_ & n & E & Hn0 & Hn & Hall).
  pose proof (Day_midnight first) as Ef. rewrite Ef in *.
  exists n. split; [exact E|]. split; [done|]. split; [done|].
  intros Hkept. by apply Hall.
Qed.

(** The days as [daysFrom] writes them, with the bounds that the claims
    use: the list ends no later than the day the end date names. *)
Lemma generateDates_daysFrom host (Hhost : RegularHost host) startDate endDate :
  exists first last,
    generateDates host startDate endDate = daysFrom first last
    /\ forall d, first <= d <= last -> startDate - 1 <= d <= endDate.
Proof.
  destruct (generateDates_run host Hhost startDate endDate) as (n & E & Hn0 & Hn & _).
  destruct (localDay_ofDateOnly host Hhost) as (shift & Hs & Hshift).
  rewrite !Hshift in *.
  exists (startDate + shift), (startDate + shift + n - 1).
  split; [by rewrite E, seqZ_daysFrom|]. lia.
Qed.

(** C3, at the inputs where it fails. In Cairo the range 2023-04-27 to
    2023-04-29 spans the night in which the clocks went from midnight to
    01:00: the cursor sits at 01:00 from then on, passes the midnight of the
    end day, and the end day is left out.  Five hours west of UTC the
    midnight in UTC that a date-only string names falls on the evening
    before, so the range 2023-10-01 to 2023-10-03 comes out as 2023-09-30 to
    2023-10-02.  In both cases the list is not the days from start to
    end. *)
Theorem generateDates_host_dependent :
  formatDate <$> generateDates cairo (mkDate 2023 4 27) (mkDate 2023 4 29)
  = [str "2023-04-27"; str "2023-04-28"]
  /\ formatDate <$> generateDates fiveHoursWest (mkDate 2023 10 1) (mkDate 2023 10 3)
     = [str "2023-09-30"; str "2023-10-01"; str "2023-10-02"]
  /\ formatDate <$> generateDates utcHost (mkDate 2023 10 1) (mkDate 2023 10 3)
     = [str "2023-10-01"; str "2023-10-02"; str "2023-10-03"].
Proof. vm_compute. done. Qed.

Lemma generateDates_kept host (Hhost : RegularHost host) startDate endDate shift :
  (forall day, Instant.localDay host (Instant.ofDateOnly day) = day + shift) ->
  (forall d, startDate + shift <= d <= endDate + shift -> midnightKept host d) ->
  generateDates host startDate endDate
  = daysFrom (startDate + shift) (endDate + shift).
Proof.
  intros Hshift Hkept.
  destruct (generateDates_run host Hhost startDate endDate) as (n & E & Hn0 & Hn & Hall).
  rewrite !Hshift in *. rewrite E, Hall by done. unfold daysFrom.
  destruct (Z.le_gt_cases (startDate + shift) (endDate + shift + 1)).
  - f_equal. lia.
  - rewrite !seqZ_nil by lia. done.
Qed.

(** X21. On a regular host that is never behind UTC and keeps every local
    midnight of the range, [generateDates] returns for start <= end the days
    from start to end, both included, each once: as many as the inclusive
    day count, strictly ascending, every entry the calendar day after the
    one before it (across month and year ends), the first being start and
    the last end; a range of one day yields that day alone. *)
Theorem generateDates_range (host : Host) (startDate endDate : Date) :
  RegularHost host -> eastOfUTC host ->
  (forall d, startDate <= d <= endDate -> midnightKept host d) ->
  startDate <= endDate ->
  let dates := generateDates host startDate endDate in
  length dates = Z.to_nat (endDate - startDate + 1)
  /\ (forall d, d ∈ dates <-> startDate <= d <= endDate)
  /\ NoDup dates
  /\ (forall (i j : nat) di dj, (i < j)%nat ->
        dates !! i = Some di -> dates !! j = Some dj -> di < dj)
  /\ (forall (i : nat) di dj,
        dates !! i = Some di -> dates !! S i = Some dj ->
        dj = di + 1 /\ civil dj = nextCivil (civil di))
  /\ head dates = Some startDate
  /\ last dates = Some endDate
  /\ (startDate = endDate -> dates = [startDate]).
Proof.
  intros Hhost Heast Hkept Hle dates. subst dates.
  rewrite (generateDates_kept host Hhost startDate endDate 0).
  2:{ intros day. rewrite localDay_ofDateOnly_east by done. lia. }
  2:{ intros d Hd. apply Hkept. lia. }
  rewrite !Z.add_0_r. split_and!.
  - unfold daysFrom. by rewrite length_seqZ.
  - apply elem_of_daysFrom.
  - apply NoDup_daysFrom.
  - intros i j di dj Hij [-> _]%daysFrom_lookup [-> _]%daysFrom_lookup. lia.
  - intros i di dj [-> _]%daysFrom_lookup [-> _]%daysFrom_lookup.
    split; [lia|]. rewrite <- civil_succ. f_equal. lia.
  - unfold daysFrom. rewrite (seqZ_cons startDate) by lia. done.
  - unfold daysFrom. rewrite last_lookup, length_seqZ. apply lookup_seqZ. lia.
  - intros <-. unfold daysFrom.
    replace (startDate - startDate + 1) with 1 by lia. done.
Qed.

Lemma generateDates_range_witness :
  length (generateDates utcHost (mkDate 2024 2 28) (mkDate 2024 3 1)) = 3%nat.
Proof.
  destruct (generateDates_range utcHost (mkDate 2024 2 28) (mkDate 2024 3 1))
    as [Hlen _]; [apply utcHost_regular| | |vm_compute; discriminate|exact Hlen].
  - intros t. cbn. unfold msPerDay. lia.
  - intros d _. apply fixedOffset_midnightKept.
Defined.

(** The leap day of 2024 is among the three days of 2024-02-28..2024-03-01. *)
Example generateDates_leap_day :
  formatDate <$> generateDates utcHost (mkDate 2024 2 28) (mkDate 2024 3 1)
  = [str "2024-02-28"; str "2024-02-29"; str "2024-03-01"].
Proof. vm_compute. reflexivity. Qed.

(** X22. On a regular host that is always behind UTC and keeps every local
    midnight concerned, [generateDates] returns the days from the day before
    start to the day before end: the day that the end date names is never
    in the list, and for start <= end the day before the start date is. *)
Theorem generateDates_west (host : Host) (startDate endDate : Date) :
  RegularHost host -> westOfUTC host ->
  (forall d, startDate - 1 <= d <= endDate - 1 -> midnightKept host d) ->
  generateDates host startDate endDate = daysFrom (startDate - 1) (endDate - 1)
  /\ (endDate ∉ generateDates host startDate endDate)
  /\ (startDate <= endDate -> startDate - 1 ∈ generateDates host startDate endDate).
Proof.
  intros Hhost Hwest Hkept.
  rewrite (generateDates_kept host Hhost startDate endDate (-1)).
  2:{ intros day. rewrite localDay_ofDateOnly_west by done. lia. }
  2:{ intros d Hd. apply Hkept. lia. }
  replace (startDate + -1) with (startDate - 1) by lia.
  replace (endDate + -1) with (endDate - 1) by lia.
  split; [done|]. rewrite !elem_of_daysFrom. lia.
Qed.

Lemma generateDates_west_witness :
  mkDate 2023 10 3 ∉ generateDates fiveHoursWest (mkDate 2023 10 1) (mkDate 2023 10 3).
Proof.
  destruct (generateDates_west fiveHoursWest (mkDate 2023 10 1) (mkDate 2023 10 3))
    as (_ & H & _); [apply fiveHoursWest_regular| | |exact H].
  - intros t. cbn. unfold msPerDay. lia.
  - intros d _. apply fixedOffset_midnightKept.
Defined.



(** ** A range whose start is after its end *)

Lemma generateDates_empty host (Hhost : RegularHost host) startDate endDate :
  endDate < startDate -> generateDates host startDate endDate = [].
Proof.
  intros Hlt.
  destruct (generateDates_run host Hhost startDate endDate) as (n & E & Hn0 & Hn & _).
  destruct (localDay_ofDateOnly host Hhost) as (shift & Hs & Hshift).
  rewrite !Hshift in *. rewrite E. apply seqZ_nil. lia.
Qed.




(** ** The manual override, [manualAssign] *)

Lemma cycleList_length riders dateStr :
  length (cycleList riders dateStr) = S (length (availableRiders riders dateStr)).
Proof. unfold cycleList, availableRiders. rewrite length_app, length_fmap. simpl. lia. Qed.

Lemma indexOf_from_lookup (l : list (option Z)) : forall (i : nat) y k,
  NoDup l -> l !! i = Some y -> indexOf_from l (Some y) k = k + Z.of_nat i.
Proof.
  induction l as [|x l IH]; intros i y k Hnd Hi; [done|].
  apply NoDup_cons in Hnd as [Hx Hnd]. simpl. destruct i as [|i]; simpl in Hi.
  - injection Hi as ->. rewrite decide_True by done. lia.
  - rewrite decide_False.
    + rewrite (IH i y (k + 1) Hnd Hi). lia.
    + intros [= ->]. apply Hx. by eapply list_elem_of_lookup_2.
Qed.

Lemma indexOf_from_notin (l : list (option Z)) x k :
  (forall y, x = Some y -> y ∉ l) -> indexOf_from l x k = -1.
Proof.
  revert k. induction l as [|z l IH]; intros k H; [done|]. simpl.
  rewrite decide_False.
  - apply IH. intros y Hy Hin. apply (H y Hy). by right.
  - intros ->. apply (H z eq_refl). by left.
Qed.

Lemma cycleList_NoDup riders dateStr :
  NoDup (id <$> availableRiders riders dateStr) -> NoDup (cycleList riders dateStr).
Proof.
  intros H. unfold cycleList. fold (availableRiders riders dateStr).
  apply NoDup_app. split_and!.
  - rewrite (list_fmap_compose id Some). apply (NoDup_fmap_2 _). done.
  - intros x Hx Hn. apply list_elem_of_fmap in Hx as (r & -> & _).
    apply list_elem_of_singleton in Hn. done.
  - apply NoDup_singleton.
Qed.

(** The entry that the click writes is an entry of the cycle list. *)
Lemma nextId_lookup schedule riders dateStr :
  exists j : nat,
    Z.of_nat j = (indexOf (cycleList riders dateStr) (schedule !! dateStr) + 1)
                 `mod` Z.of_nat (length (cycleList riders dateStr))
    /\ cycleList riders dateStr !! j = Some (nextId schedule riders dateStr).
Proof.
  unfold nextId. set (L := cycleList riders dateStr).
  set (c := indexOf L (schedule !! dateStr)).
  assert (0 < Z.of_nat (length L)) as Hlen by (unfold L; rewrite cycleList_length; lia).
  pose proof (Z.mod_pos_bound (c + 1) _ Hlen) as Hb.
  exists (Z.to_nat ((c + 1) `mod` Z.of_nat (length L))). split; [lia|].
  destruct (L !! Z.to_nat ((c + 1) `mod` Z.of_nat (length L))) eqn:E; [done|].
  apply lookup_ge_None in E. lia.
Qed.

Lemma manualAssign_other schedule riders dateStr k :
  k ≠ dateStr -> manualAssign schedule riders dateStr !! k = schedule !! k.
Proof. intros H. unfold manualAssign. by rewrite lookup_insert_ne. Qed.

Lemma manualAssign_target schedule riders dateStr :
  manualAssign schedule riders dateStr !! dateStr
  = Some (nextId schedule riders dateStr).
Proof. unfold manualAssign. by rewrite lookup_insert_eq. Qed.

(** From position [i] of the cycle list the click moves to position
    [(i + 1) mod length]. *)
Lemma nextId_step schedule riders dateStr (i : nat) y :
  NoDup (cycleList riders dateStr) ->
  cycleList riders dateStr !! i = Some y ->
  schedule !! dateStr = Some y ->
  cycleList riders dateStr
    !! Z.to_nat ((Z.of_nat i + 1) `mod` Z.of_nat (length (cycleList riders dateStr)))
  = Some (nextId schedule riders dateStr).
Proof.
  intros Hnd Hi Hs. destruct (nextId_lookup schedule riders dateStr) as (j & Hj & Hl).
  rewrite Hs in Hj. unfold indexOf in Hj. rewrite (indexOf_from_lookup _ i y 0 Hnd Hi) in Hj.
  replace (0 + Z.of_nat i + 1) with (Z.of_nat i + 1) in Hj by lia.
  rewrite <- Hj, Nat2Z.id. done.
Qed.

Lemma manualAssign_times_other n riders dateStr schedule k :
  k ≠ dateStr -> manualAssign_times n riders dateStr schedule !! k = schedule !! k.
Proof.
  intros H. induction n as [|n IH]; [done|].
  unfold manualAssign_times in *. simpl. by rewrite manualAssign_other.
Qed.

Lemma manualAssign_times_pos n riders dateStr schedule (i : nat) y :
  NoDup (cycleList riders dateStr) ->
  cycleList riders dateStr !! i = Some y ->
  schedule !! dateStr = Some y ->
  exists y',
    cycleList riders dateStr
      !! Z.to_nat ((Z.of_nat i + Z.of_nat n) `mod` Z.of_nat (length (cycleList riders dateStr)))
    = Some y'
    /\ manualAssign_times n riders dateStr schedule !! dateStr = Some y'.
Proof.
  intros Hnd Hi Hs. set (L := cycleList riders dateStr) in *.
  assert (i < length L)%nat as Hil by (by eapply lookup_lt_Some).
  induction n as [|n (y' & Hy' & IH)].
  - exists y. split; [|done]. rewrite Z.add_0_r, Z.mod_small, Nat2Z.id by lia. done.
  - exists (nextId (manualAssign_times n riders dateStr schedule) riders dateStr).
    split; [|apply manualAssign_target].
    pose proof (nextId_step _ riders dateStr _ y' Hnd Hy' IH) as Hstep. fold L in Hstep.
    rewrite <- Hstep. f_equal. f_equal.
    rewrite Z2Nat.id by (apply Z.mod_pos_bound; lia).
    rewrite Z.add_mod_idemp_l by lia. f_equal. lia.
Qed.

Lemma elem_of_cycleList_lookup riders dateStr y :
  y ∈ cycleList riders dateStr -> exists i : nat, cycleList riders dateStr !! i = Some y.
Proof. apply list_elem_of_lookup_1. Qed.

(** C7, as the code has it. When the rider ids are distinct and the day is
    currently unassigned or held by a rider who is still eligible for it,
    clicking the day (eligible riders + 1) times brings the schedule back to
    where it was. *)
Theorem manualAssign_cycle (schedule : Schedule) (riders : list Rider)
    (dateStr : JsString) (current : option Z) :
  NoDup (id <$> availableRiders riders dateStr) ->
  schedule !! dateStr = Some current ->
  current ∈ cycleList riders dateStr ->
  manualAssign_times (S (length (availableRiders riders dateStr)))
    riders dateStr schedule = schedule.
Proof.
  intros Hnd Hcur Hin. apply cycleList_NoDup in Hnd.
  destruct (elem_of_cycleList_lookup _ _ _ Hin) as [i Hi].
  apply map_eq. intros k. destruct (decide (k = dateStr)) as [->|Hk].
  - destruct (manualAssign_times_pos (S (length (availableRiders riders dateStr)))
                riders dateStr schedule i current Hnd Hi Hcur) as (y' & Hy' & ->).
    rewrite Hcur. f_equal. rewrite <- cycleList_length in Hy'.
    assert (i < length (cycleList riders dateStr))%nat as Hil by (by eapply lookup_lt_Some).
    rewrite <- (Z.mul_1_l (Z.of_nat (length (cycleList riders dateStr)))) in Hy' at 1.
    rewrite Z.mod_add, Z.mod_small, Nat2Z.id in Hy' by lia. congruence.
  - by apply manualAssign_times_other.
Qed.

Lemma manualAssign_cycle_witness :
  manualAssign_times 3 [elin; anne] (str "2023-10-01")
    {[ str "2023-10-01" := Some 2 ]}
  = {[ str "2023-10-01" := Some 2 ]}.
Proof.
  apply (manualAssign_cycle _ [elin; anne] (str "2023-10-01") (Some 2)).
  - apply (bool_decide_unpack _). vm_compute. exact I.
  - vm_compute. reflexivity.
  - apply (bool_decide_unpack _). vm_compute. exact I.
Defined.

(** When the day holds a rider who is no longer eligible, or has no entry,
    the first click moves to the head of the cycle list and the day is
    unassigned after (eligible riders + 1) clicks. *)
Lemma manualAssign_cycle_stale (schedule : Schedule) (riders : list Rider)
    (dateStr : JsString) :
  NoDup (id <$> availableRiders riders dateStr) ->
  (forall y, schedule !! dateStr = Some y -> y ∉ cycleList riders dateStr) ->
  manualAssign_times (S (length (availableRiders riders dateStr)))
    riders dateStr schedule !! dateStr = Some None.
Proof.
  intros Hnd Hstale. apply cycleList_NoDup in Hnd.
  set (n := length (availableRiders riders dateStr)).
  assert (length (cycleList riders dateStr) = S n) as Hlen by apply cycleList_length.
  assert (cycleList riders dateStr !! n = Some None) as Hlast.
  { unfold cycleList. fold (availableRiders riders dateStr).
    rewrite lookup_app_r; rewrite length_fmap; [|done]. fold n. by rewrite Nat.sub_diag. }
  assert (cycleList riders dateStr !! 0%nat
          = Some (nextId schedule riders dateStr)) as H0.
  { destruct (nextId_lookup schedule riders dateStr) as (j & Hj & Hl).
    unfold indexOf in Hj. rewrite indexOf_from_notin in Hj by done.
    replace (-1 + 1) with 0 in Hj by lia.
    rewrite Z.mod_0_l in Hj by lia.
    by replace j with 0%nat in Hl by lia. }
  unfold manualAssign_times. rewrite Nat.iter_succ_r.
  destruct (manualAssign_times_pos n riders dateStr
              (manualAssign schedule riders dateStr) 0 _ Hnd H0
              (manualAssign_target _ _ _)) as (y' & Hy' & Hres).
  unfold manualAssign_times in Hres. rewrite Hres. f_equal.
  rewrite Hlen in Hy'.
  replace (Z.to_nat ((Z.of_nat 0 + Z.of_nat n) `mod` Z.of_nat (S n))) with n in Hy'
    by (rewrite Z.mod_small; lia).
  congruence.
Qed.

(** C7 as stated fails: Elin holds 2023-10-01 and has since blocked it, Anne
    is the one eligible rider; two clicks leave the day unassigned, not with
    Elin. *)
Lemma manualAssign_cycle_not_closed :
  length (availableRiders [elin_away; anne] (str "2023-10-01")) = 1%nat /\
  manualAssign_times 2 [elin_away; anne] (str "2023-10-01")
    {[ str "2023-10-01" := Some 1 ]} !! str "2023-10-01" = Some None /\
  ({[ str "2023-10-01" := Some 1 ]} : Schedule) !! str "2023-10-01" = Some (Some 1).
Proof. vm_compute. done. Qed.

(** C8, as the code has it. The schedule that the click hands over differs
    from the one it read in no entry but the target day's, which holds the
    next entry of the cycle list; that entry differs from the current one
    whenever some rider is eligible for the day (rider ids being distinct),
    and when no rider is eligible and the day is unassigned the schedule is
    unchanged. *)
Theorem manualAssign_frame (schedule : Schedule) (riders : list Rider)
    (dateStr : JsString) :
  (forall k, k ≠ dateStr ->
     manualAssign schedule riders dateStr !! k = schedule !! k)
  /\ manualAssign schedule riders dateStr !! dateStr
     = Some (nextId schedule riders dateStr)
  /\ nextId schedule riders dateStr ∈ cycleList riders dateStr
  /\ (NoDup (id <$> availableRiders riders dateStr) ->
      availableRiders riders dateStr ≠ [] ->
      manualAssign schedule riders dateStr !! dateStr ≠ schedule !! dateStr)
  /\ (availableRiders riders dateStr = [] -> schedule !! dateStr = Some None ->
      manualAssign schedule riders dateStr = schedule).
Proof.
  destruct (nextId_lookup schedule riders dateStr) as (j & Hj & Hl).
  split_and!.
  - intros k Hk. by apply manualAssign_other.
  - apply manualAssign_target.
  - by eapply list_elem_of_lookup_2.
  - intros Hnd Hne. apply cycleList_NoDup in Hnd. rewrite manualAssign_target.
    intros Heq. symmetry in Heq.
    assert (2 <= Z.of_nat (length (cycleList riders dateStr))) as Hlen.
    { rewrite cycleList_length. destruct (availableRiders riders dateStr); [done|]. simpl. lia. }
    pose proof (indexOf_from_lookup _ j _ 0 Hnd Hl) as Hidx.
    rewrite Heq in Hj. unfold indexOf in Hj. rewrite Hidx in Hj.
    assert (j < length (cycleList riders dateStr))%nat as Hjl by (by eapply lookup_lt_Some).
    destruct (decide (Z.of_nat j + 1 < Z.of_nat (length (cycleList riders dateStr)))).
    + rewrite Z.mod_small in Hj by lia. lia.
    + replace (0 + Z.of_nat j + 1) with (Z.of_nat (length (cycleList riders dateStr))) in Hj by lia.
      rewrite Z.mod_same in Hj by lia. lia.
  - intros Hnil Hcur. unfold manualAssign. apply insert_id. rewrite Hcur. f_equal.
    unfold nextId, cycleList. fold (availableRiders riders dateStr).
    rewrite Hnil, Hcur. done.
Qed.

(** C8 as stated fails: nobody is eligible for 2023-10-01 and the day is
    unassigned; the click leaves every entry as it was. *)
Lemma manualAssign_changes_nothing :
  manualAssign {[ str "2023-10-01" := None ]} [elin_away] (str "2023-10-01")
  = {[ str "2023-10-01" := None ]}.
Proof.
  unfold manualAssign. apply insert_id. vm_compute. reflexivity.
Qed.

(** ** The calendar export *)

(** *** Splitting at CR LF *)

Lemma splitCRLF_go_cons2 u v rest acc :
  splitCRLF_go (u :: v :: rest) acc
  = if decide (u = CR ∧ v = LF) then reverse acc :: splitCRLF_go rest []
    else splitCRLF_go (v :: rest) (u :: acc).
Proof. reflexivity. Qed.

Lemma splitCRLF_go_app_aux (n : nat) : forall x acc y,
  (length x <= n)%nat ->
  splitCRLF_go (x ++ CR :: LF :: y) acc = splitCRLF_go x acc ++ splitCRLF_go y [].
Proof.
  induction n as [|n IH]; intros x acc y Hn.
  - destruct x; [|simpl in Hn; lia]. cbn [splitCRLF_go app].
    rewrite decide_True by done. done.
  - destruct x as [|u [|v x]].
    + cbn [splitCRLF_go app]. rewrite decide_True by done. done.
    + cbn [splitCRLF_go app]. rewrite decide_False by (intros [_ [=]]).
      rewrite decide_True by done. done.
    + change ((u :: v :: x) ++ CR :: LF :: y) with (u :: v :: (x ++ CR :: LF :: y)).
      rewrite !(splitCRLF_go_cons2 u v). case_decide.
      * rewrite IH by (simpl in *; lia). done.
      * rewrite <- (IH (v :: x)) by (simpl in *; lia). done.
Qed.

Lemma splitCRLF_app x y :
  splitCRLF (x ++ CRLF ++ y) = splitCRLF x ++ splitCRLF y.
Proof. unfold splitCRLF. apply (splitCRLF_go_app_aux (length x)). done. Qed.

Lemma splitCRLF_go_length (n : nat) : forall s acc,
  (length s <= n)%nat ->
  Forall (λ p, length p <= length acc + length s)%nat (splitCRLF_go s acc).
Proof.
  induction n as [|n IH]; intros s acc Hn.
  - destruct s; [|simpl in Hn; lia]. simpl. constructor; [|done].
    rewrite length_reverse. lia.
  - destruct s as [|u [|v s]].
    + simpl. constructor; [|done]. rewrite length_reverse. lia.
    + simpl. constructor; [|done]. rewrite length_reverse. simpl. lia.
    + rewrite splitCRLF_go_cons2. case_decide.
      * constructor; [rewrite length_reverse; simpl; lia|].
        eapply Forall_impl; [apply (IH s []); simpl in *; lia|].
        simpl. intros p Hp. lia.
      * eapply Forall_impl; [apply (IH (v :: s) (u :: acc)); simpl in *; lia|].
        simpl. intros p Hp. lia.
Qed.

Lemma splitCRLF_length s :
  Forall (λ p, length p <= length s)%nat (splitCRLF s).
Proof. apply (splitCRLF_go_length (length s) s []). done. Qed.

Lemma splitCRLF_join (P : JsString -> Prop) (segs : list JsString) :
  segs ≠ [] ->
  Forall (λ seg, Forall P (splitCRLF seg)) segs ->
  Forall P (splitCRLF (join CRLF segs)).
Proof.
  intros Hne H. induction H as [|seg segs Hseg Hsegs IH]; [done|].
  destruct segs as [|seg' segs]; [done|].
  change (join CRLF (seg :: seg' :: segs)) with (seg ++ CRLF ++ join CRLF (seg' :: segs)).
  rewrite splitCRLF_app. apply Forall_app. split; [done|]. by apply IH.
Qed.

Lemma join_cons_bind (seg : JsString) (segs : list JsString) :
  join CRLF (seg :: segs) = seg ++ (segs ≫= (λ s, CRLF ++ s)).
Proof.
  revert seg. induction segs as [|seg' segs IH]; intros seg.
  - simpl. by rewrite app_nil_r.
  - change (join CRLF (seg :: seg' :: segs)) with (seg ++ CRLF ++ join CRLF (seg' :: segs)).
    rewrite IH, bind_cons, <- app_assoc. done.
Qed.

(** *** Folding *)

Lemma foldLine_loop_eq fuel : forall result remaining,
  foldLine_loop fuel result remaining
  = result ++ (chunks fuel 74 remaining ≫= (λ c, CRLF ++ SPACE :: c)).
Proof.
  induction fuel as [|fuel IH]; intros result remaining; simpl.
  - by rewrite app_nil_r.
  - case_decide; [|by rewrite app_nil_r].
    rewrite IH, bind_cons, <- !app_assoc. done.
Qed.

Lemma chunks_concat fuel : forall s, (length s <= fuel)%nat ->
  concat (chunks fuel 74 s) = s.
Proof.
  induction fuel as [|fuel IH]; intros s Hs.
  - destruct s; [done|simpl in Hs; lia].
  - simpl. case_decide.
    + simpl. rewrite IH; [apply take_drop|]. rewrite length_drop. lia.
    + destruct s; [done|simpl in *; lia].
Qed.

Lemma chunks_length fuel : forall s c, c ∈ chunks fuel 74 s ->
  (0 < length c <= 74)%nat.
Proof.
  induction fuel as [|fuel IH]; intros s c Hc; simpl in Hc.
  - by apply elem_of_nil in Hc.
  - case_decide; [|by apply elem_of_nil in Hc].
    apply elem_of_cons in Hc as [->|Hc]; [|by eapply IH].
    rewrite length_take. lia.
Qed.

Lemma foldLine_long line : (75 < length line)%nat ->
  foldLine line = join CRLF (foldedSegments line).
Proof.
  intros H. unfold foldLine. rewrite decide_False by lia.
  rewrite foldLine_loop_eq. unfold foldedSegments. rewrite join_cons_bind.
  f_equal. generalize (chunks (length line) 74 (drop 75 line)).
  induction l as [|c l IH]; [done|]. rewrite fmap_cons, !bind_cons, IH. done.
Qed.

Lemma foldedSegments_length line seg :
  seg ∈ foldedSegments line -> (length seg <= 75)%nat.
Proof.
  unfold foldedSegments. intros [->|H]%elem_of_cons.
  - rewrite length_take. lia.
  - apply list_elem_of_fmap in H as (c & -> & Hc).
    apply chunks_length in Hc. simpl. lia.
Qed.

Lemma foldLine_pieces line :
  Forall (λ p, length p <= 75)%nat (splitCRLF (foldLine line)).
Proof.
  destruct (decide (length line <= 75)%nat) as [Hle|Hgt].
  - unfold foldLine. rewrite decide_True by done.
    eapply Forall_impl; [apply splitCRLF_length|]. simpl. lia.
  - rewrite foldLine_long by lia. apply splitCRLF_join; [done|].
    apply Forall_forall. intros seg Hseg. apply foldedSegments_length in Hseg.
    eapply Forall_impl; [apply splitCRLF_length|]. simpl. lia.
Qed.

(** *** The document *)

Lemma eventLines_cons host ts event :
  exists l ls, eventLines host ts event = l :: ls.
Proof. unfold eventLines. eauto. Qed.

Lemma foldl_eventLines host ts events : forall content,
  foldl (λ content event,
    content ++ CRLF ++ join CRLF (foldLine <$> eventLines host ts event))
    content events
  = content
    ++ ((events ≫= (λ event, foldLine <$> eventLines host ts event))
          ≫= (λ s, CRLF ++ s)).
Proof.
  induction events as [|event events IH]; intros content.
  - simpl. by rewrite app_nil_r.
  - cbn [foldl]. rewrite IH, bind_cons, bind_app, <- !app_assoc.
    apply (f_equal (app content)). rewrite !app_assoc.
    apply (f_equal (λ x, x ++ _)).
    generalize (eventLines_cons host ts event). intros (l & ls & ->).
    rewrite fmap_cons, join_cons_bind, bind_cons, app_assoc. done.
Qed.

Lemma generateICalContent_lines host nowISO events :
  generateICalContent host nowISO events
  = join CRLF (documentLines host nowISO events).
Proof.
  unfold generateICalContent, documentLines. fold (timestampOf nowISO).
  rewrite foldl_eventLines.
  change calendarHeader with (str "BEGIN:VCALENDAR" :: tail calendarHeader).
  change (join CRLF [str "BEGIN:VCALENDAR"; str "VERSION:2.0";
     str "PRODID:-//Stable Scheduler//EN"; str "CALSCALE:GREGORIAN";
     str "METHOD:PUBLISH"])
    with (join CRLF (str "BEGIN:VCALENDAR" :: tail calendarHeader)).
  rewrite <- app_comm_cons, !join_cons_bind, !bind_app, bind_singleton.
  rewrite <- !app_assoc. done.
Qed.

Lemma documentLines_pieces host nowISO events line :
  line ∈ documentLines host nowISO events ->
  Forall (λ p, length p <= 75)%nat (splitCRLF line).
Proof.
  unfold documentLines. rewrite !elem_of_app. intros [H|[H|H]].
  - assert (length line <= 75)%nat as Hl.
    { revert H. unfold calendarHeader. rewrite !elem_of_cons.
      intros [->|[->|[->|[->|[->|H]]]]]; [vm_compute; lia..|by apply elem_of_nil in H]. }
    eapply Forall_impl; [apply splitCRLF_length|]. simpl. lia.
  - apply list_elem_of_bind in H as (event & H & _).
    apply list_elem_of_fmap in H as (l & -> & _). apply foldLine_pieces.
  - apply list_elem_of_singleton in H as ->.
    eapply Forall_impl; [apply splitCRLF_length|]. simpl. intros p Hp.
    etrans; [exact Hp|]. vm_compute. lia.
Qed.

(** X24. The document is its content lines joined by CR LF, every line of
    every event folded on its own; folding counts UTF-16 code units, not
    octets: a line of at most 75 code units is left as it is, a longer one
    becomes its first 75 code units followed, piece by piece of at most 74
    code units until the line is used up, by CR LF, one space and the
    piece; so no line of the output is longer than 75 code units. *)
Theorem generateICalContent_folding (host : Host) (nowISO : JsString)
    (events : list CalendarEvent) :
  generateICalContent host nowISO events
  = join CRLF (documentLines host nowISO events)
  /\ (forall line,
        ((length line <= 75)%nat -> foldLine line = line)
        /\ ((75 < length line)%nat ->
            foldLine line = join CRLF (foldedSegments line)
            /\ concat (chunks (length line) 74 (drop 75 line)) = drop 75 line
            /\ (forall c, c ∈ chunks (length line) 74 (drop 75 line) ->
                  (0 < length c <= 74)%nat)))
  /\ Forall (λ piece, length piece <= 75)%nat
       (splitCRLF (generateICalContent host nowISO events)).
Proof.
  split_and!.
  - apply generateICalContent_lines.
  - intros line. split.
    + intros H. unfold foldLine. by rewrite decide_True.
    + intros H. split_and!.
      * by apply foldLine_long.
      * apply chunks_concat. rewrite length_drop. lia.
      * intros c. apply chunks_length.
  - rewrite generateICalContent_lines. apply splitCRLF_join.
    + unfold documentLines, calendarHeader. done.
    + apply Forall_forall. intros line. apply documentLines_pieces.
Qed.

(** The description of 100 letters is folded once; no line of the document
    is longer than 75 code units, and here, the text being ASCII, than 75
    octets. *)
Example generateICalContent_long_description :
  Forall (λ piece, utf8Length piece <= 75)%nat
    (splitCRLF (generateICalContent utcHost sample_now [shift_long])).
Proof. apply (bool_decide_unpack _). vm_compute. exact I. Qed.

(** C10, at the input where it fails. [foldLine] is to fold lines at 75
    octets and measures [line.length], the count of UTF-16 code units: the
    DESCRIPTION line of [shift_aring], 63 letters a-with-ring after the
    property name, has 75 code units and 138 octets; it is left unfolded
    and stands in the document as a line of 138 octets. *)
Theorem generateICalContent_line_over_75_octets :
  let line := str "DESCRIPTION:" ++ replicate 63 229%N in
  length line = 75%nat /\ utf8Length line = 138%nat
  /\ foldLine line = line
  /\ line ∈ splitCRLF (generateICalContent utcHost sample_now [shift_aring]).
Proof.
  split_and!; [vm_compute; reflexivity..|].
  apply (bool_decide_unpack _). vm_compute. exact I.
Qed.

(** On ASCII text code units and octets are the same count. *)
Lemma utf8Length_ascii (s : JsString) :
  Forall (λ u, u < 128)%N s -> utf8Length s = length s.
Proof.
  induction 1 as [|u s Hu Hs IH]; [done|]. simpl.
  destruct (N.ltb_spec u 128); [|lia]. by rewrite IH.
Qed.

(** *** DTSTART and DTEND *)

(** The DTEND line of an event whose year has four digits: the day after
    the local day on which the midnight in UTC of the event's day falls. *)
Lemma eventLines_DTEND host (Hhost : RegularHost host) ts event :
  1000 <= getFullYear (date event) <= 9999 ->
  eventLines host ts event !! 2%nat
  = Some (str "DTEND;VALUE=DATE:"
          ++ compactDate
               (Instant.localDay host (Instant.ofDateOnly (date event)) + 1)).
Proof.
  intros Hy. unfold eventLines, newDate_key, compactDate.
  rewrite decide_True by done. cbn [lookup list_lookup].
  set (t := Instant.ofDateOnly (date event)).
  pose proof (localDay_setDate host Hhost t 1) as E.
  set (d := Instant.setDate host t (Instant.getDate host t + 1)) in *.
  change (Instant.getFullYear host d) with (getFullYear (Instant.localDay host d)).
  change (Instant.getMonth host d) with (getMonth (Instant.localDay host d)).
  change (Instant.getDate host d) with (getDate (Instant.localDay host d)).
  by rewrite E.
Qed.

(** The serializer of utils/icalGenerator.js ends the event of 2023-10-01
    on the next day. *)
Example generateICalContent_2023_10_01 :
  splitCRLF (generateICalContent utcHost sample_now [shift_2023_10_01])
  = [str "BEGIN:VCALENDAR"; str "VERSION:2.0";
     str "PRODID:-//Stable Scheduler//EN"; str "CALSCALE:GREGORIAN";
     str "METHOD:PUBLISH"; str "BEGIN:VEVENT";
     str "DTSTART;VALUE=DATE:20231001"; str "DTEND;VALUE=DATE:20231002";
     str "DTSTAMP:20231102T101112Z"; str "UID:2023-10-01-1@stablescheduler";
     str "SUMMARY:Stallvakt"; str "DESCRIPTION:Stallvakt for Elin.";
     str "STATUS:CONFIRMED"; str "END:VEVENT"; str "END:VCALENDAR"].
Proof. vm_compute. reflexivity. Qed.

(** C9 at the export that the component offers: for Elin's shift on
    2023-10-01, [downloadICal] writes the DTEND line with the day of the
    event itself, 20231001, not with the day after. *)
Theorem downloadICal_DTEND_is_event_day :
  downloadICal [elin] [(str "2023-10-01", Some 1)]
    (str "Stallvakt") (str "Du er satt opp.") 1
  = Some (templateLines
      [str "BEGIN:VCALENDAR"; str "VERSION:2.0";
       str "PRODID:-//Stable Scheduler//EN"; str "CALSCALE:GREGORIAN";
       str "METHOD:PUBLISH"; str "BEGIN:VEVENT";
       str "DTSTART;VALUE=DATE:20231001"; str "DTEND;VALUE=DATE:20231001";
       str "SUMMARY:Stallvakt"; str "DESCRIPTION:Du er satt opp.";
       str "STATUS:CONFIRMED"; str "END:VEVENT"]
      ++ str "END:VCALENDAR").
Proof. vm_compute. reflexivity. Qed.

(** ** The weekend constraint of pass 2 *)

Lemma backToSunday_eq (fuel : nat) : forall check,
  getDay check < Z.of_nat fuel -> backToSunday fuel check = check - getDay check.
Proof.
  induction fuel as [|fuel IH]; intros check Hf.
  - pose proof (getDay_range check). lia.
  - simpl. case_decide as Hd.
    + rewrite setDate_getDate_sub, IH.
      * unfold getDay in *. Z.div_mod_to_equations. lia.
      * pose proof (getDay_range check). unfold getDay in *. Z.div_mod_to_equations. lia.
    + lia.
Qed.

(** The walk ends on a Sunday, the nearest at or before the day it starts
    from. *)
Lemma lastSunday_nearest date :
  backToSunday 7 date = lastSunday date
  /\ getDay (lastSunday date) = 0
  /\ lastSunday date <= date
  /\ (forall d, lastSunday date < d <= date -> getDay d ≠ 0).
Proof.
  pose proof (getDay_range date) as Hr. split_and!.
  - apply backToSunday_eq. lia.
  - unfold lastSunday, getDay. Z.div_mod_to_equations. lia.
  - unfold lastSunday. lia.
  - intros d. unfold lastSunday, getDay. Z.div_mod_to_equations. lia.
Qed.

Lemma workedLastWeekend_spec (newSchedule : Schedule) date i :
  workedLastWeekend newSchedule date i = true <->
  exists d, d ∈ lastWeekendDays date /\ newSchedule !! formatDate d = Some (Some i).
Proof.
  unfold workedLastWeekend, lastWeekendDays.
  destruct (lastSunday_nearest date) as (-> & _). rewrite !setDate_getDate_sub.
  set (S := lastSunday date).
  rewrite existsb_exists. split.
  - intros (d & Hd & Hb). exists d.
    destruct (Z.geb_spec d date); [done|].
    apply bool_decide_eq_true in Hb. split; [|done].
    apply list_elem_of_filter. split; [lia|]. by apply list_elem_of_In.
  - intros (d & Hd & Hs). apply list_elem_of_filter in Hd as [Hlt Hd].
    exists d. split; [by apply list_elem_of_In|].
    destruct (Z.geb_spec d date); [lia|]. by apply bool_decide_eq_true.
Qed.

Lemma lastWeekendDays_friday date : getDay date = 5 ->
  lastWeekendDays date = [date - 7; date - 6; date - 5].
Proof.
  intros H. unfold lastWeekendDays, lastSunday. rewrite H.
  rewrite !filter_cons, filter_nil. rewrite !decide_True by lia.
  f_equal; [lia|]. f_equal. lia.
Qed.

Lemma lastWeekendDays_sunday date : getDay date = 0 ->
  lastWeekendDays date = [date - 2; date - 1].
Proof.
  intros H. unfold lastWeekendDays, lastSunday. rewrite H.
  rewrite !filter_cons, filter_nil. rewrite !decide_True by lia.
  rewrite decide_False by lia. f_equal; [lia|]. f_equal. lia.
Qed.

Lemma weekendFilter_weekday (newSchedule : Schedule) date candidates :
  isFriSatSun date = false -> weekendFilter newSchedule date candidates = candidates.
Proof. intros H. unfold weekendFilter. by rewrite H. Qed.

(** X27. On a Friday, Saturday or Sunday the weekend step of pass 2 walks
    back from the current day, itself included, to the nearest Sunday (on a
    Sunday that is the current day), takes the Friday, Saturday and Sunday
    ending there that are before the current day, and removes exactly the
    candidates assigned on one of them, unless that leaves nobody, in which
    case it removes none; it never empties a pool that was not empty. *)
Theorem weekendFilter_spec (newSchedule : Schedule) (date : Date)
    (candidates : list Rider) :
  isFriSatSun date = true ->
  let sunday := lastSunday date in
  let worked (r : Rider) := exists d,
    d ∈ [sunday - 2; sunday - 1; sunday] /\ d < date
    /\ newSchedule !! formatDate d = Some (Some (id r)) in
  (backToSunday 7 date = sunday /\ getDay sunday = 0 /\ sunday <= date
     /\ forall d, sunday < d <= date -> getDay d ≠ 0)
  /\ (forall r, workedLastWeekend newSchedule date (id r) = true <-> worked r)
  /\ (forall r, r ∈ weekendFilter newSchedule date candidates ->
        r ∈ candidates)
  /\ ((exists r, r ∈ candidates /\ ~ worked r) ->
      weekendFilter newSchedule date candidates
      = filter (λ r, workedLastWeekend newSchedule date (id r) = false) candidates
      /\ forall r, r ∈ weekendFilter newSchedule date candidates <->
           r ∈ candidates /\ ~ worked r)
  /\ ((forall r, r ∈ candidates -> worked r) ->
      weekendFilter newSchedule date candidates = candidates)
  /\ (candidates ≠ [] -> weekendFilter newSchedule date candidates ≠ []).
Proof.
  intros Hday sunday worked.
  assert (Hw : forall r, workedLastWeekend newSchedule date (id r) = true <-> worked r).
  { intros r. rewrite workedLastWeekend_spec. unfold worked, lastWeekendDays.
    fold sunday. split.
    - intros (d & [Hlt Hd]%list_elem_of_filter & Hs). eauto.
    - intros (d & Hd & Hlt & Hs). exists d. split; [|done].
      apply list_elem_of_filter. done. }
  assert (Hf : forall r,
    r ∈ filter (λ r, workedLastWeekend newSchedule date (id r) = false) candidates
    <-> r ∈ candidates /\ ~ worked r).
  { intros r. rewrite list_elem_of_filter, <- Hw. split.
    - intros [Hb Hin]. split; [done|]. rewrite Hb. discriminate.
    - intros [Hin Hn]. split; [|done].
      destruct (workedLastWeekend newSchedule date (id r)); [by destruct Hn|done]. }
  unfold weekendFilter. rewrite Hday.
  set (fresh := filter (λ r, workedLastWeekend newSchedule date (id r) = false) candidates) in *.
  split; [apply lastSunday_nearest|]. split_and!.
  - exact Hw.
  - intros r. case_decide; [|done]. intros Hr. by apply Hf in Hr as [].
  - intros (r & Hr & Hnw). assert (r ∈ fresh) as Hin by (by apply Hf).
    rewrite decide_True; [done|]. destruct fresh; [by apply elem_of_nil in Hin|simpl; lia].
  - intros Hall. rewrite decide_False; [done|].
    destruct fresh as [|r fresh'] eqn:E; [simpl; lia|].
    assert (r ∈ r :: fresh') as Hin by left. apply Hf in Hin as [Hin Hnw].
    destruct Hnw. by apply Hall.
  - intros Hne. case_decide as Hlen; [|done]. intros E. rewrite E in Hlen. simpl in Hlen. lia.
Qed.

Lemma weekendFilter_spec_witness :
  exists r, r ∈ weekendFilter {[ str "2023-10-06" := Some 1 ]}
                (mkDate 2023 10 8) [elin; anne].
Proof.
  assert (isFriSatSun (mkDate 2023 10 8) = true) as H by (vm_compute; reflexivity).
  destruct (weekendFilter_spec {[ str "2023-10-06" := Some 1 ]} (mkDate 2023 10 8)
              [elin; anne] H) as (_ & _ & _ & _ & _ & Hne).
  destruct (weekendFilter {[ str "2023-10-06" := Some 1 ]} (mkDate 2023 10 8) [elin; anne])
    as [|r l] eqn:E.
  - exfalso. by apply Hne.
  - exists r. left.
Defined.

(** C6, at an input where it fails. Range 2023-09-30 to 2023-10-08, four
    riders without blocked dates, the shuffles leaving the candidates in
    roster order.  For Sunday 2023-10-08 the most recently fully elapsed
    weekend is 2023-09-29 to 2023-10-01, on which Elin (Saturday) and
    Silvia (Sunday) were on duty and Hedda was not.  When the fill pass
    reaches that Sunday, the consecutive-day step leaves Elin, Silvia and
    Hedda; the weekend step looks at the Friday and Saturday just before,
    removes Hedda for her Friday 2023-10-06, keeps Elin and Silvia, and the
    Sunday goes to Elin. *)
Theorem weekendFilter_sunday_current_weekend :
  let schedule :=
    (generateSchedule utcHost (mkDate 2023 9 30) (mkDate 2023 10 8)
       [elin; anne; silvia; hedda] []).1 in
  let before := delete (str "2023-10-08") schedule in
  isFriSatSun (mkDate 2023 10 8) = true
  /\ isSaturday (mkDate 2023 10 8) = false
  /\ elapsedWeekend (mkDate 2023 10 8)
     = [mkDate 2023 9 29; mkDate 2023 9 30; mkDate 2023 10 1]
  /\ schedule !! str "2023-09-29" = None
  /\ schedule !! str "2023-09-30" = Some (Some (id elin))
  /\ schedule !! str "2023-10-01" = Some (Some (id silvia))
  /\ schedule !! str "2023-10-06" = Some (Some (id hedda))
  /\ schedule !! str "2023-10-07" = Some (Some (id anne))
  /\ consecutiveFilter before (mkDate 2023 10 8) [elin; anne; silvia; hedda]
     = [elin; silvia; hedda]
  /\ workedLastWeekend before (mkDate 2023 10 8) (id elin) = false
  /\ workedLastWeekend before (mkDate 2023 10 8) (id hedda) = true
  /\ weekendFilter before (mkDate 2023 10 8) [elin; silvia; hedda] = [elin; silvia]
  /\ fillCandidates [elin; anne; silvia; hedda] before (mkDate 2023 10 8)
     = [elin; silvia]
  /\ schedule !! str "2023-10-08" = Some (Some (id elin)).
Proof. vm_compute. done. Qed.

(** ** Shuffling and sorting *)

Lemma insertAt_perm {A} (n : nat) (x : A) (l : list A) : insertAt n x l ≡ₚ x :: l.
Proof.
  unfold insertAt. rewrite <- Permutation_middle. by rewrite take_drop.
Qed.

Lemma shuffle_perm {A} (array : list A) : forall rng, (shuffle array rng).1 ≡ₚ array.
Proof.
  induction array as [|x rest IH]; intros rng; [done|].
  simpl. specialize (IH rng). destruct (shuffle rest rng) as [s rng'].
  simpl in *. by rewrite insertAt_perm, IH.
Qed.

Lemma sort_insert_perm {A} (compare : A → A → Z) x (l : list A) :
  sort_insert compare x l ≡ₚ x :: l.
Proof.
  induction l as [|y l IH]; [done|]. simpl. case_match; [|done].
  rewrite IH. apply Permutation_swap.
Qed.

Lemma sort_perm {A} (compare : A → A → Z) (array : list A) :
  sort compare array ≡ₚ array.
Proof.
  induction array as [|x l IH]; [done|]. simpl.
  by rewrite sort_insert_perm, IH.
Qed.

(** Nothing goes before the head of the sorted array. *)
Lemma sort_head_min {A} (compare : A → A → Z) (array : list A) c rest :
  ConsistentComparator compare ->
  sort compare array = c :: rest ->
  forall x, x ∈ array -> ~ compare x c < 0.
Proof.
  intros [Hasym Hnt]. revert c rest.
  induction array as [|a l IH]; intros c rest Hs x Hx; [by apply elem_of_nil in Hx|].
  simpl in Hs. destruct (sort compare l) as [|h t] eqn:E.
  - assert (l = []) as -> by (apply Permutation_nil_r; by rewrite <- E, sort_perm).
    simpl in Hs. injection Hs as <- <-. apply list_elem_of_singleton in Hx as ->.
    intros H. by apply (Hasym a a).
  - simpl in Hs. destruct (Z.ltb_spec (compare h a) 0) as [Hlt|Hge].
    + injection Hs as <- <-. apply elem_of_cons in Hx as [->|Hx].
      * by apply Hasym.
      * by apply (IH h t).
    + injection Hs as <- <-. apply elem_of_cons in Hx as [->|Hx].
      * intros H. by apply (Hasym a a).
      * apply (Hnt x h a); [by apply (IH h t)|lia].
Qed.

(** The rider that a pass takes from a pool that is not empty: the head of
    the shuffled and sorted pool is one of the pool, and none of the pool
    goes before it. *)
Lemma chosen_spec (compare : Rider → Rider → Z) (candidates : list Rider) rng :
  candidates ≠ [] ->
  exists chosen rest,
    sort compare (shuffle candidates rng).1 = chosen :: rest
    /\ chosen ∈ candidates
    /\ (ConsistentComparator compare ->
        forall x, x ∈ candidates -> ~ compare x chosen < 0).
Proof.
  intros Hne.
  assert (sort compare (shuffle candidates rng).1 ≡ₚ candidates) as Hp
    by (by rewrite sort_perm, shuffle_perm).
  destruct (sort compare (shuffle candidates rng).1) as [|chosen rest] eqn:E.
  - symmetry in Hp. by apply Permutation_nil_r in Hp.
  - exists chosen, rest. split_and!; [done| |].
    + rewrite <- Hp. by left.
    + intros Hc x Hx. apply (sort_head_min compare _ _ _ Hc E).
      by rewrite shuffle_perm.
Qed.

Lemma compareAnchor_consistent stats : ConsistentComparator (compareAnchor stats).
Proof.
  split; unfold compareAnchor.
  - intros a b. repeat case_decide; lia.
  - intros a b c. repeat case_decide; lia.
Qed.

Lemma compareFill_consistent stats : ConsistentComparator (compareFill stats).
Proof. split; unfold compareFill; intros; lia. Qed.

(** ** One day of a pass *)

Lemma length_zero_iff_nil {A} (l : list A) : length l = 0%nat <-> l = [].
Proof. destruct l; simpl; split; intros; (done || lia). Qed.

Lemma pass1_day_spec (riders : list Rider) (newSchedule : Schedule) (stats : Stats)
    (rng : Rng) (date : Date) :
  let candidates := anchorCandidates riders newSchedule date in
  (candidates = []
   /\ pass1_day riders (newSchedule, stats, rng) date
      = (<[formatDate date := None]> newSchedule, stats, rng))
  \/ (exists chosen rng',
        chosen ∈ candidates
        /\ (forall x, x ∈ candidates -> ~ compareAnchor stats x chosen < 0)
        /\ pass1_day riders (newSchedule, stats, rng) date
           = (<[formatDate date := Some (id chosen)]> newSchedule,
              alter incrAnchor (id chosen) stats, rng')).
Proof.
  intros candidates. unfold pass1_day. fold candidates.
  destruct (decide (length candidates = 0%nat)) as [Hz|Hnz].
  - left. by apply length_zero_iff_nil in Hz.
  - right. assert (candidates ≠ []) as Hne by (by rewrite <- length_zero_iff_nil).
    destruct (chosen_spec (compareAnchor stats) candidates rng Hne)
      as (chosen & rest & Hs & Hin & Hmin).
    destruct (shuffle candidates rng) as [shuffled rng'] eqn:E. simpl in Hs.
    rewrite Hs. exists chosen, rng'. split_and!; [done| |done].
    apply Hmin, compareAnchor_consistent.
Qed.

Lemma pass2_day_spec (riders : list Rider) (newSchedule : Schedule) (stats : Stats)
    (rng : Rng) (date : Date) :
  let candidates := fillCandidates riders newSchedule date in
  (candidates = []
   /\ pass2_day riders (newSchedule, stats, rng) date
      = (<[formatDate date := None]> newSchedule, stats, rng))
  \/ (exists chosen rng',
        chosen ∈ candidates
        /\ (forall x, x ∈ candidates -> ~ compareFill stats x chosen < 0)
        /\ pass2_day riders (newSchedule, stats, rng) date
           = (<[formatDate date := Some (id chosen)]> newSchedule,
              alter incrTotal (id chosen) stats, rng')).
Proof.
  intros candidates. unfold pass2_day. fold candidates.
  destruct (decide (length candidates = 0%nat)) as [Hz|Hnz].
  - left. by apply length_zero_iff_nil in Hz.
  - right. assert (candidates ≠ []) as Hne by (by rewrite <- length_zero_iff_nil).
    destruct (chosen_spec (compareFill stats) candidates rng Hne)
      as (chosen & rest & Hs & Hin & Hmin).
    destruct (shuffle candidates rng) as [shuffled rng'] eqn:E. simpl in Hs.
    rewrite Hs. exists chosen, rng'. split_and!; [done| |done].
    apply Hmin, compareFill_consistent.
Qed.

(** ** The two passes *)

Section PassFold.
Variable step : GenState → Date → GenState.
Hypothesis step_writes : forall st d, exists v,
  scheduleOf (step st d) = <[formatDate d := v]> (scheduleOf st).

(** A pass leaves the entries of the days it does not visit. *)
Lemma fold_lookup_other (ds : list Date) : forall st (k : Date),
  k ∉ ds ->
  scheduleOf (foldl step st ds) !! formatDate k = scheduleOf st !! formatDate k.
Proof using step_writes.
  induction ds as [|d ds IH]; intros st k Hk; [done|].
  apply not_elem_of_cons in Hk as [Hkd Hk]. simpl. rewrite IH by done.
  destruct (step_writes st d) as [v ->]. apply lookup_insert_ne.
  intros E. by apply formatDate_inj in E.
Qed.

(** The entry of a visited day is the one written when it was visited. *)
Lemma fold_lookup_at (pre post : list Date) (d : Date) st :
  d ∉ post ->
  scheduleOf (foldl step st (pre ++ d :: post)) !! formatDate d
  = scheduleOf (step (foldl step st pre) d) !! formatDate d.
Proof using step_writes.
  intros Hd. rewrite foldl_app. simpl. by apply fold_lookup_other.
Qed.

(** Every visited day has an entry. *)
Lemma fold_lookup_visited (ds : list Date) st (d : Date) :
  d ∈ ds -> is_Some (scheduleOf (foldl step st ds) !! formatDate d).
Proof using step_writes.
  revert st. induction ds as [|x ds IH]; intros st Hd; [by apply elem_of_nil in Hd|].
  simpl. destruct (decide (d ∈ ds)) as [Hin|Hnin]; [by apply IH|].
  apply elem_of_cons in Hd as [->|Hd]; [|done].
  rewrite fold_lookup_other by done.
  destruct (step_writes st x) as [v ->]. rewrite lookup_insert_eq. eauto.
Qed.
End PassFold.

Lemma pass1_day_writes riders st d : exists v,
  scheduleOf (pass1_day riders st d) = <[formatDate d := v]> (scheduleOf st).
Proof.
  destruct st as [[sch stats] rng].
  destruct (pass1_day_spec riders sch stats rng d) as [[_ ->]|(c & rng' & _ & _ & ->)];
    eauto.
Qed.

Lemma pass2_day_writes riders st d : exists v,
  scheduleOf (pass2_day riders st d) = <[formatDate d := v]> (scheduleOf st).
Proof.
  destruct st as [[sch stats] rng].
  destruct (pass2_day_spec riders sch stats rng d) as [[_ ->]|(c & rng' & _ & _ & ->)];
    eauto.
Qed.

Lemma StronglySorted_seqZ m n : StronglySorted Z.lt (seqZ m n).
Proof.
  remember (Z.to_nat n) as k eqn:Hk. revert m n Hk.
  induction k as [|k IH]; intros m n Hk.
  - rewrite seqZ_nil by lia. constructor.
  - rewrite seqZ_cons by lia. constructor; [apply IH; lia|].
    apply Forall_forall. intros x Hx. apply elem_of_seqZ in Hx. lia.
Qed.

Lemma StronglySorted_filter {A} (R : relation A) (P : A → Prop)
    `{!forall x, Decision (P x)} (l : list A) :
  StronglySorted R l -> StronglySorted R (filter P l).
Proof.
  induction 1 as [|x l Hl IH Hx]; [constructor|].
  rewrite filter_cons. case_decide; [|done]. constructor; [done|].
  apply Forall_forall. intros y [_ Hy]%list_elem_of_filter.
  by eapply Forall_forall in Hx.
Qed.

Lemma elem_of_saturdaysOf start end_ d :
  d ∈ saturdaysOf (daysFrom start end_) <->
  start <= d <= end_ /\ isSaturday d = true.
Proof. unfold saturdaysOf. rewrite list_elem_of_filter, elem_of_daysFrom. tauto. Qed.

Lemma elem_of_fillDaysOf start end_ d :
  d ∈ fillDaysOf (daysFrom start end_) <->
  start <= d <= end_ /\ isSaturday d = false.
Proof.
  unfold fillDaysOf. rewrite list_elem_of_filter, elem_of_daysFrom.
  destruct (isSaturday d); split; intros [H1 H2]; split; done.
Qed.

Lemma fillDaysOf_sorted start end_ :
  StronglySorted Z.lt (fillDaysOf (daysFrom start end_)).
Proof.
  unfold fillDaysOf. apply StronglySorted_filter.
  unfold daysFrom. apply StronglySorted_seqZ.
Qed.

Lemma saturdaysOf_sorted start end_ :
  StronglySorted Z.lt (saturdaysOf (daysFrom start end_)).
Proof.
  unfold saturdaysOf. apply StronglySorted_filter.
  unfold daysFrom. apply StronglySorted_seqZ.
Qed.

(** The days of a sorted list split around one of them. *)
Lemma sorted_split (l : list Date) d :
  StronglySorted Z.lt l -> d ∈ l ->
  exists pre post, l = pre ++ d :: post
    /\ (forall x, x ∈ pre -> x < d) /\ (forall x, x ∈ post -> d < x).
Proof.
  intros Hs Hd. apply list_elem_of_split in Hd as (pre & post & ->).
  exists pre, post. split_and!; [done| |].
  - intros x Hx. eapply (StronglySorted_app_1_elem_of _ pre (d :: post)); [done..|left].
  - intros x Hx. apply StronglySorted_app_1_r, StronglySorted_cons in Hs as [Hs _].
    by eapply Forall_forall in Hs.
Qed.

(** *** The consecutive-day step *)

Lemma consecutiveFilter_elem (newSchedule : Schedule) date candidates r :
  r ∈ consecutiveFilter newSchedule date candidates ->
  r ∈ candidates
  /\ Some (Some (id r)) ≠ newSchedule !! formatDate (date + 1)
  /\ (Some (Some (id r)) = newSchedule !! formatDate (date - 1) ->
      forall x, x ∈ candidates ->
        Some (Some (id x)) = newSchedule !! formatDate (date - 1)
        \/ Some (Some (id x)) = newSchedule !! formatDate (date + 1)).
Proof.
  unfold consecutiveFilter. rewrite setDate_getDate, setDate_getDate_sub.
  set (y := newSchedule !! formatDate (date - 1)).
  set (t := newSchedule !! formatDate (date + 1)).
  case_decide as Hlen.
  - intros [[Hy Ht] Hr]%list_elem_of_filter. split_and!; [done..|]. by intros E.
  - intros [Ht Hr]%list_elem_of_filter. split_and!; [done..|].
    intros _ x Hx.
    destruct (decide (Some (Some (id x)) = y)) as [|Hny]; [by left|].
    destruct (decide (Some (Some (id x)) = t)) as [|Hnt]; [by right|].
    exfalso. apply Hlen.
    assert (x ∈ filter (λ r, Some (Some (id r)) ≠ y ∧ Some (Some (id r)) ≠ t) candidates)
      as Hin by (by apply list_elem_of_filter).
    destruct (filter _ candidates); [by apply elem_of_nil in Hin|simpl; lia].
Qed.

Lemma weekendFilter_subset (newSchedule : Schedule) date candidates r :
  r ∈ weekendFilter newSchedule date candidates -> r ∈ candidates.
Proof.
  unfold weekendFilter. destruct (isFriSatSun date); [|done].
  case_decide; [|done]. by intros [_ ?]%list_elem_of_filter.
Qed.

Lemma fillCandidates_elem (riders : list Rider) (newSchedule : Schedule)
    (date : Date) (r : Rider) :
  r ∈ fillCandidates riders newSchedule date ->
  r ∈ riders /\ (formatDate date ∉ blockedDates r)
  /\ Some (Some (id r)) ≠ newSchedule !! formatDate (date + 1)
  /\ (Some (Some (id r)) = newSchedule !! formatDate (date - 1) ->
      forall x, x ∈ riders -> formatDate date ∉ blockedDates x ->
        Some (Some (id x)) = newSchedule !! formatDate (date - 1)
        \/ Some (Some (id x)) = newSchedule !! formatDate (date + 1)).
Proof.
  unfold fillCandidates. intros H%weekendFilter_subset.
  apply consecutiveFilter_elem in H as ([Hb Hr]%list_elem_of_filter & Ht & Hrel).
  split_and!; [done..|]. intros E x Hx Hxb. apply (Hrel E).
  by apply list_elem_of_filter.
Qed.

(** *** The schedule that the passes build *)

Lemma generateSchedule_over host startDate endDate riders rng :
  generateSchedule host startDate endDate riders rng
  = scheduleOver (generateDates host startDate endDate) riders rng.
Proof. reflexivity. Qed.

Lemma scheduleOver_eq (dates : list Date) riders rng :
  let st1 := foldl (pass1_day riders) (∅, initStats riders, rng) (saturdaysOf dates) in
  let st2 := foldl (pass2_day riders) st1 (fillDaysOf dates) in
  scheduleOver dates riders rng = (scheduleOf st2, statsOf st2).
Proof.
  intros st1 st2. unfold scheduleOver, pass1, pass2.
  fold (saturdaysOf dates). fold st1. fold (fillDaysOf dates). fold st2.
  by destruct st2 as [[sch stats] rng'].
Qed.

(** Pass 1 writes the Saturdays of the range and nothing else. *)
Lemma pass1_lookup_other startDate endDate riders st (d : Date) :
  ~ (startDate <= d <= endDate /\ isSaturday d = true) ->
  scheduleOf (foldl (pass1_day riders) st
                (saturdaysOf (daysFrom startDate endDate))) !! formatDate d
  = scheduleOf st !! formatDate d.
Proof.
  intros H. apply fold_lookup_other; [apply pass1_day_writes|].
  by rewrite elem_of_saturdaysOf.
Qed.

(** Pass 2 writes the other days of the range and nothing else. *)
Lemma pass2_lookup_other startDate endDate riders st (d : Date) :
  ~ (startDate <= d <= endDate /\ isSaturday d = false) ->
  scheduleOf (foldl (pass2_day riders) st
                (fillDaysOf (daysFrom startDate endDate))) !! formatDate d
  = scheduleOf st !! formatDate d.
Proof.
  intros H. apply fold_lookup_other; [apply pass2_day_writes|].
  by rewrite elem_of_fillDaysOf.
Qed.

(** The moment a fill day is visited: the days before it in the range are
    done, the later fill days are not, and the entry written then is final. *)
Lemma pass2_moment startDate endDate riders st1 (d : Date) :
  startDate <= d <= endDate -> isSaturday d = false ->
  let final := scheduleOf (foldl (pass2_day riders) st1
                 (fillDaysOf (daysFrom startDate endDate))) in
  exists st,
    final !! formatDate d = scheduleOf (pass2_day riders st d) !! formatDate d
    /\ (forall x, x < d -> scheduleOf st !! formatDate x = final !! formatDate x)
    /\ (forall x, d < x -> scheduleOf st !! formatDate x = scheduleOf st1 !! formatDate x)
    /\ (forall x, isSaturday x = true ->
          scheduleOf st !! formatDate x = scheduleOf st1 !! formatDate x
          /\ final !! formatDate x = scheduleOf st1 !! formatDate x).
Proof.
  intros Hd Hsat final.
  assert (d ∈ fillDaysOf (daysFrom startDate endDate)) as Hin
    by (by apply elem_of_fillDaysOf).
  destruct (sorted_split _ d (fillDaysOf_sorted startDate endDate) Hin)
    as (pre & post & Hl & Hpre & Hpost).
  assert (forall x, x ∈ pre ++ d :: post -> isSaturday x = false) as Hfill.
  { intros x Hx. rewrite <- Hl in Hx. by apply elem_of_fillDaysOf in Hx as [_ ?]. }
  exists (foldl (pass2_day riders) st1 pre). subst final. rewrite Hl. split_and!.
  - apply fold_lookup_at; [apply pass2_day_writes|].
    intros Hd'. apply Hpost in Hd'. lia.
  - intros x Hx. rewrite foldl_app. symmetry.
    apply fold_lookup_other; [apply pass2_day_writes|].
    intros [->|Hx']%elem_of_cons; [lia|]. apply Hpost in Hx'. lia.
  - intros x Hx. apply fold_lookup_other; [apply pass2_day_writes|].
    intros Hx'. apply Hpre in Hx'. lia.
  - intros x Hx. split; (apply fold_lookup_other; [apply pass2_day_writes|]).
    + intros Hx'. assert (isSaturday x = false); [|congruence].
      apply Hfill, elem_of_app. by left.
    + intros Hx'. assert (isSaturday x = false); [|congruence]. by apply Hfill.
Qed.

(** What pass 2 writes for a day: nobody, or one of the pool of that day. *)
Lemma pass2_day_lookup riders st (d : Date) v :
  scheduleOf (pass2_day riders st d) !! formatDate d = Some (Some v) ->
  exists chosen, id chosen = v /\ chosen ∈ fillCandidates riders (scheduleOf st) d.
Proof.
  destruct st as [[sch stats] rng].
  destruct (pass2_day_spec riders sch stats rng d)
    as [[_ E]|(c & rng' & Hc & _ & E)]; rewrite E; unfold scheduleOf; cbn [fst];
    rewrite lookup_insert_eq; intros [=]. eauto.
Qed.

Lemma isSaturday_succ d : isSaturday (d + 1) = true -> isSaturday d = false.
Proof.
  unfold isSaturday. rewrite getDay_succ. pose proof (getDay_range d) as Hr.
  intros H%Z.eqb_eq. apply Z.eqb_neq. intros E. rewrite E in H. done.
Qed.

(** The passes over the days from a first to a last day. When a generated
    schedule gives two consecutive days of the range to the same rider, the
    later day is a day of the fill pass, visited after the earlier one, and
    its pool was empty once the riders of the day before and of the day
    after were taken out: every rider free on that day is the one of the day
    before or the one already placed on the following Saturday. In every
    other case the two riders differ. *)
Lemma hard_adjacency_days (startDate endDate : Date) (riders : list Rider)
    (rng : Rng) (day : Date) (a : Z) :
  let schedule := (scheduleOver (daysFrom startDate endDate) riders rng).1 in
  startDate <= day -> day + 1 <= endDate ->
  schedule !! formatDate day = Some (Some a) ->
  schedule !! formatDate (day + 1) = Some (Some a) ->
  isSaturday (day + 1) = false
  /\ forall r, r ∈ riders -> formatDate (day + 1) ∉ blockedDates r ->
       id r = a
       \/ (isSaturday (day + 2) = true /\ day + 2 <= endDate
           /\ id r ≠ a
           /\ schedule !! formatDate (day + 2) = Some (Some (id r))).
Proof.
  intros schedule Hlo Hhi Hd Hd1. subst schedule.
  rewrite scheduleOver_eq in *. cbn [fst] in *.
  set (st1 := foldl (pass1_day riders) (∅, initStats riders, rng)
                (saturdaysOf (daysFrom startDate endDate))) in *.
  assert (Hst1 : forall x, ~ (startDate <= x <= endDate /\ isSaturday x = true) ->
            scheduleOf st1 !! formatDate x = None).
  { intros x Hx. unfold st1. rewrite pass1_lookup_other by done. done. }
  destruct (isSaturday (day + 1)) eqn:Hsat1.
  - (* the later day is a Saturday: the Friday before it was visited after it *)
    exfalso. pose proof (isSaturday_succ _ Hsat1) as Hsat.
    destruct (pass2_moment startDate endDate riders st1 day ltac:(lia) Hsat)
      as (st & Hw & _ & _ & Hsats).
    rewrite Hw in Hd. apply pass2_day_lookup in Hd as (chosen & <- & Hc).
    apply fillCandidates_elem in Hc as (_ & _ & Ht & _).
    destruct (Hsats (day + 1) Hsat1) as [E1 E2]. rewrite E2 in Hd1.
    rewrite E1, Hd1 in Ht. done.
  - split; [done|].
    destruct (pass2_moment startDate endDate riders st1 (day + 1) ltac:(lia) Hsat1)
      as (st & Hw & Hbefore & Hafter & Hsats).
    rewrite Hw in Hd1. apply pass2_day_lookup in Hd1 as (chosen & Hid & Hc).
    apply fillCandidates_elem in Hc as (_ & _ & Ht & Hrel).
    replace (day + 1 - 1) with day in Hrel by lia.
    replace (day + 1 + 1) with (day + 2) in * by lia.
    rewrite (Hbefore day ltac:(lia)), Hd, Hid in Hrel.
    intros r Hr Hrb. destruct (Hrel eq_refl r Hr Hrb) as [[= E]|E]; [by left|].
    right. rewrite Hid in Ht.
    destruct (decide (startDate <= day + 2 <= endDate /\ isSaturday (day + 2) = true))
      as [[Hrange Hsat2]|Hn].
    + destruct (Hsats (day + 2) Hsat2) as [E1 E2].
      split_and!; [done|lia| |by rewrite E2, <- E1].
      intros Hra. rewrite Hra in E. by rewrite <- E in Ht.
    + rewrite (Hafter (day + 2) ltac:(lia)), (Hst1 _ Hn) in E. done.
Qed.

(** ** The counters *)

Lemma initStats_lookup riders i :
  initStats riders !! i
  = if decide (i ∈ id <$> riders) then Some {| total := 0; saturdays := 0 |} else None.
Proof.
  unfold initStats.
  assert (forall acc : Stats,
    foldl (λ acc r, <[id r := {| total := 0; saturdays := 0 |}]> acc) acc riders !! i
    = if decide (i ∈ id <$> riders) then Some {| total := 0; saturdays := 0 |}
      else acc !! i) as H.
  { induction riders as [|r riders IH]; intros acc.
    - rewrite decide_False; [done|]. rewrite fmap_nil. apply not_elem_of_nil.
    - cbn [foldl]. rewrite IH. rewrite fmap_cons.
      destruct (decide (i ∈ id <$> riders)) as [Hin|Hnin].
      + rewrite decide_True; [done|]. by right.
      + destruct (decide (i = id r)) as [->|Hne].
        * rewrite decide_True by left. by rewrite lookup_insert_eq.
        * rewrite decide_False by (by intros [?|?]%elem_of_cons).
          by rewrite lookup_insert_ne. }
  rewrite H. by case_decide.
Qed.

Lemma initStats_covered riders : covered riders (initStats riders).
Proof.
  intros r Hr. rewrite initStats_lookup, decide_True; [eauto|].
  apply list_elem_of_fmap. eauto.
Qed.

Lemma initStats_statOf riders i :
  statOf (initStats riders) i = {| total := 0; saturdays := 0 |}.
Proof. unfold statOf. rewrite initStats_lookup. by case_decide. Qed.

Lemma statOf_alter_eq f i (stats : Stats) :
  is_Some (stats !! i) -> statOf (alter f i stats) i = f (statOf stats i).
Proof. intros [s Hs]. unfold statOf. rewrite lookup_alter_eq, Hs. done. Qed.

Lemma statOf_alter_ne f i j (stats : Stats) :
  i ≠ j -> statOf (alter f i stats) j = statOf stats j.
Proof. intros H. unfold statOf. by rewrite lookup_alter_ne. Qed.

Lemma covered_alter riders f i (stats : Stats) :
  covered riders stats -> covered riders (alter f i stats).
Proof.
  intros H r Hr. destruct (decide (i = id r)) as [->|Hne].
  - rewrite lookup_alter_eq. destruct (H r Hr) as [s ->]. eauto.
  - rewrite lookup_alter_ne by done. by apply H.
Qed.

Lemma saturdays_alter_incrTotal i j (stats : Stats) :
  saturdays (statOf (alter incrTotal i stats) j) = saturdays (statOf stats j).
Proof.
  destruct (decide (i = j)) as [->|Hne]; [|by rewrite statOf_alter_ne].
  unfold statOf. rewrite lookup_alter_eq. by destruct (stats !! j).
Qed.

(** ** The Saturdays of a range *)

Lemma saturdaysOf_cons d l :
  saturdaysOf (d :: l) = if isSaturday d then d :: saturdaysOf l else saturdaysOf l.
Proof.
  unfold saturdaysOf. rewrite filter_cons.
  destruct (isSaturday d); by case_decide.
Qed.

Lemma saturdays_weekly_aux (k : nat) : forall s,
  weekly (saturdaysOf (seqZ s (Z.of_nat k)))
  /\ forall f, head (saturdaysOf (seqZ s (Z.of_nat k))) = Some f -> s <= f < s + 7.
Proof.
  induction k as [|k IH]; intros s.
  - rewrite seqZ_nil by lia. done.
  - rewrite seqZ_cons by lia. replace (Z.pred (Z.of_nat (S k))) with (Z.of_nat k) by lia.
    destruct (IH (Z.succ s)) as [Hw Hh]. rewrite saturdaysOf_cons.
    assert (Hmem : forall f, f ∈ saturdaysOf (seqZ (Z.succ s) (Z.of_nat k)) ->
      isSaturday f = true) by (by intros f [? _]%list_elem_of_filter).
    revert Hw Hh Hmem. generalize (saturdaysOf (seqZ (Z.succ s) (Z.of_nat k))).
    intros l1 Hw Hh Hmem.
    assert (Hsat1 : forall f, head l1 = Some f -> isSaturday f = true).
    { intros f Hf. apply Hmem. destruct l1; [done|]. injection Hf as ->. left. }
    destruct (isSaturday s) eqn:Hs.
    + split; [|simpl; intros f [= <-]; lia].
      destruct l1 as [|f l1']; [exact I|]. split; [|done].
      specialize (Hh f eq_refl). specialize (Hsat1 f eq_refl).
      unfold isSaturday, getDay in *. apply Z.eqb_eq in Hs, Hsat1.
      revert Hs Hsat1. Z.div_mod_to_equations. lia.
    + split; [done|]. intros f Hf. specialize (Hh f Hf). specialize (Hsat1 f Hf).
      assert (f ≠ s + 7); [|lia]. intros ->.
      unfold isSaturday, getDay in *. apply Z.eqb_eq in Hsat1. apply Z.eqb_neq in Hs.
      revert Hs Hsat1. Z.div_mod_to_equations. lia.
Qed.

Lemma saturdaysOf_weekly start end_ :
  weekly (saturdaysOf (daysFrom start end_))
  /\ forall f, head (saturdaysOf (daysFrom start end_)) = Some f -> f - 7 < start.
Proof.
  unfold daysFrom.
  destruct (decide (0 <= end_ - start + 1)) as [Hn|Hn].
  - rewrite <- (Z2Nat.id (end_ - start + 1)) by done.
    destruct (saturdays_weekly_aux (Z.to_nat (end_ - start + 1)) start) as [Hw Hh].
    split; [done|]. intros f Hf. specialize (Hh f Hf). lia.
  - rewrite seqZ_nil by lia. done.
Qed.

(** ** Pass 1 keeps the Saturday counters balanced *)

Lemma filter_all {A} (P : A → Prop) `{!forall x, Decision (P x)} (l : list A) :
  (forall x, x ∈ l -> P x) -> filter P l = l.
Proof.
  induction l as [|x l IH]; intros HP; [done|].
  rewrite filter_cons, decide_True by (apply HP; left).
  rewrite IH; [done|]. intros y Hy. apply HP. by right.
Qed.

Lemma anchorCandidates_elem (riders : list Rider) (newSchedule : Schedule)
    (date : Date) (r : Rider) :
  r ∈ anchorCandidates riders newSchedule date -> r ∈ riders.
Proof.
  unfold anchorCandidates. case_decide.
  - by intros [_ [_ ?]%list_elem_of_filter]%list_elem_of_filter.
  - by intros [_ ?]%list_elem_of_filter.
Qed.

(** With nobody away, the pool of a Saturday holds every rider but, when
    somebody else is there, the rider of the Saturday before. *)
Lemma anchorCandidates_unblocked (riders : list Rider) (newSchedule : Schedule)
    (date : Date) (r : Rider) :
  (forall x, x ∈ riders -> formatDate date ∉ blockedDates x) ->
  r ∈ riders ->
  r ∈ anchorCandidates riders newSchedule date
  \/ newSchedule !! formatDate (date - 7) = Some (Some (id r)).
Proof.
  intros Hfree Hr. unfold anchorCandidates.
  rewrite setDate_getDate_sub, (filter_all _ riders Hfree).
  destruct (decide (Some (Some (id r)) = newSchedule !! formatDate (date - 7)))
    as [E|Hne]; [by right|].
  left. assert (r ∈ filter (λ r, Some (Some (id r)) ≠ newSchedule !! formatDate (date - 7))
                  riders) as Hin by (by apply list_elem_of_filter).
  rewrite decide_True; [done|].
  destruct (filter _ riders); [by apply elem_of_nil in Hin|simpl; lia].
Qed.

Lemma compareAnchor_min stats x chosen :
  ~ compareAnchor stats x chosen < 0 ->
  saturdays (statOf stats (id chosen)) <= saturdays (statOf stats (id x)).
Proof. unfold compareAnchor. case_decide; lia. Qed.

Lemma pass1_day_balanced (riders : list Rider) (st : GenState) (d : Date) :
  (forall r, r ∈ riders -> formatDate d ∉ blockedDates r) ->
  covered riders (statsOf st) -> balanced riders (statsOf st) ->
  prevSatMax riders st d ->
  covered riders (statsOf (pass1_day riders st d))
  /\ balanced riders (statsOf (pass1_day riders st d))
  /\ prevSatMax riders (pass1_day riders st d) (d + 7).
Proof.
  intros Hfree Hcov [m Hbal] Hmax. destruct st as [[sch stats] rng].
  unfold prevSatMax, scheduleOf, statsOf in *. cbn [fst snd] in *.
  replace (d + 7 - 7) with d by lia.
  destruct (pass1_day_spec riders sch stats rng d)
    as [[_ ->]|(chosen & rng' & Hc & Hmin & ->)]; cbn [fst snd].
  - split_and!; [done|by exists m|]. intros a. rewrite lookup_insert_eq. done.
  - assert (Hcr : chosen ∈ riders) by (by eapply anchorCandidates_elem).
    assert (Hglob : forall r, r ∈ riders ->
      saturdays (statOf stats (id chosen)) <= saturdays (statOf stats (id r))).
    { intros r Hr.
      destruct (anchorCandidates_unblocked riders sch d r Hfree Hr) as [Hin|Hprev].
      - by apply compareAnchor_min, Hmin.
      - by apply (Hmax _ Hprev). }
    assert (Hnew : forall r, r ∈ riders ->
      saturdays (statOf (alter incrAnchor (id chosen) stats) (id r))
      = if decide (id chosen = id r) then saturdays (statOf stats (id chosen)) + 1
        else saturdays (statOf stats (id r))).
    { intros r Hr. case_decide as E.
      - rewrite <- E, statOf_alter_eq by (by apply Hcov). done.
      - by rewrite statOf_alter_ne. }
    split_and!.
    + by apply covered_alter.
    + exists (saturdays (statOf stats (id chosen))). intros r Hr.
      rewrite (Hnew r Hr). pose proof (Hglob r Hr). pose proof (Hbal r Hr).
      pose proof (Hbal chosen Hcr). case_decide; lia.
    + intros a. rewrite lookup_insert_eq. intros [= <-] r Hr.
      rewrite (Hnew r Hr), (Hnew chosen Hcr).
      pose proof (Hglob r Hr). pose proof (Hbal r Hr). pose proof (Hbal chosen Hcr).
      repeat case_decide; (done || lia).
Qed.

Lemma pass1_balanced (riders : list Rider) (ds : list Date) : forall st,
  weekly ds ->
  (forall d r, d ∈ ds -> r ∈ riders -> formatDate d ∉ blockedDates r) ->
  covered riders (statsOf st) -> balanced riders (statsOf st) ->
  (forall d, head ds = Some d -> prevSatMax riders st d) ->
  covered riders (statsOf (foldl (pass1_day riders) st ds))
  /\ balanced riders (statsOf (foldl (pass1_day riders) st ds)).
Proof.
  induction ds as [|d ds IH]; intros st Hw Hfree Hcov Hbal Hmax; [done|].
  cbn [foldl].
  destruct (pass1_day_balanced riders st d) as (Hcov' & Hbal' & Hmax');
    [intros r Hr; apply Hfree; [left|done] | done | done | by apply Hmax |].
  apply IH; [by destruct ds as [|d' ds]; [|destruct Hw]| |done|done|].
  - intros d' r Hd' Hr. apply Hfree; [by right|done].
  - intros d' Hd'. destruct ds as [|d'' ds]; [done|]. injection Hd' as ->.
    destruct Hw as [-> _]. done.
Qed.

Lemma pass2_day_saturdays (riders : list Rider) (st : GenState) (d : Date) j :
  saturdays (statOf (statsOf (pass2_day riders st d)) j)
  = saturdays (statOf (statsOf st) j).
Proof.
  destruct st as [[sch stats] rng].
  destruct (pass2_day_spec riders sch stats rng d)
    as [[_ ->]|(chosen & rng' & _ & _ & ->)]; unfold statsOf; cbn [fst snd]; [done|].
  apply saturdays_alter_incrTotal.
Qed.

Lemma pass2_saturdays (riders : list Rider) (ds : list Date) : forall st j,
  saturdays (statOf (statsOf (foldl (pass2_day riders) st ds)) j)
  = saturdays (statOf (statsOf st) j).
Proof.
  induction ds as [|d ds IH]; intros st j; [done|].
  cbn [foldl]. by rewrite IH, pass2_day_saturdays.
Qed.

(** The passes over the days from a first to a last day. When no rider has
    blocked a Saturday of the range, the Saturday counters that a generation
    run leaves differ by at most one between any two riders, however many
    Saturdays and riders there are. *)
Lemma anchor_fairness_days (startDate endDate : Date) (riders : list Rider)
    (rng : Rng) :
  (forall r d, r ∈ riders -> startDate <= d <= endDate -> isSaturday d = true ->
     formatDate d ∉ blockedDates r) ->
  let stats := (scheduleOver (daysFrom startDate endDate) riders rng).2 in
  forall r1 r2, r1 ∈ riders -> r2 ∈ riders ->
    saturdays (statOf stats (id r1)) - saturdays (statOf stats (id r2)) <= 1.
Proof.
  intros Hfree stats r1 r2 Hr1 Hr2. subst stats.
  rewrite scheduleOver_eq. cbn [snd].
  rewrite !pass2_saturdays.
  destruct (saturdaysOf_weekly startDate endDate) as [Hw Hfirst].
  destruct (pass1_balanced riders (saturdaysOf (daysFrom startDate endDate))
              (∅, initStats riders, rng) Hw) as [_ [m Hbal]].
  - intros d r [Hd Hs]%elem_of_saturdaysOf Hr. by apply Hfree.
  - apply initStats_covered.
  - exists 0. intros r Hr. unfold statsOf. cbn [fst snd]. rewrite initStats_statOf.
    simpl. lia.
  - intros d Hd a. unfold scheduleOf. cbn [fst]. by rewrite lookup_empty.
  - pose proof (Hbal r1 Hr1). pose proof (Hbal r2 Hr2). lia.
Qed.

(** ** The tie-break source *)

Lemma tapesAgree_le n m t1 t2 : (m <= n)%nat -> tapesAgree n t1 t2 -> tapesAgree m t1 t2.
Proof. intros Hle H i Hi. apply H. lia. Qed.

Lemma nth_tl (t : Rng) i : nth i (tl t) 0%nat = nth (S i) t 0%nat.
Proof. destruct t; [by destruct i|done]. Qed.

Lemma hd_nth (t : Rng) : hd 0%nat t = nth 0 t 0%nat.
Proof. by destruct t. Qed.

(** A shuffle reads one outcome per element. *)
Lemma shuffle_agree {A} (array : list A) : forall n t1 t2,
  tapesAgree n t1 t2 -> (length array <= n)%nat ->
  (shuffle array t1).1 = (shuffle array t2).1
  /\ tapesAgree (n - length array) (shuffle array t1).2 (shuffle array t2).2.
Proof.
  induction array as [|x rest IH]; intros n t1 t2 Hag Hlen.
  - simpl. split; [done|]. by rewrite Nat.sub_0_r.
  - simpl in *. destruct (IH n t1 t2 Hag ltac:(lia)) as [Hs Ht].
    destruct (shuffle rest t1) as [s1 r1], (shuffle rest t2) as [s2 r2].
    simpl in *. subst s2. split.
    + rewrite !hd_nth, (Ht 0%nat) by lia. done.
    + intros i Hi. rewrite !nth_tl. apply Ht. lia.
Qed.

Lemma anchorCandidates_length (riders : list Rider) (newSchedule : Schedule)
    (date : Date) :
  (length (anchorCandidates riders newSchedule date) <= length riders)%nat.
Proof.
  unfold anchorCandidates. case_decide.
  - etrans; [apply length_filter|]. apply length_filter.
  - apply length_filter.
Qed.

Lemma fillCandidates_length (riders : list Rider) (newSchedule : Schedule)
    (date : Date) :
  (length (fillCandidates riders newSchedule date) <= length riders)%nat.
Proof.
  unfold fillCandidates, weekendFilter, consecutiveFilter.
  repeat case_match; repeat (etrans; [apply length_filter|]); try apply length_filter; done.
Qed.

Lemma pass1_day_agree (riders : list Rider) (sch : Schedule) (stats : Stats)
    (t1 t2 : Rng) (d : Date) (n : nat) :
  tapesAgree n t1 t2 -> (length riders <= n)%nat ->
  exists sch' stats' t1' t2',
    pass1_day riders (sch, stats, t1) d = (sch', stats', t1')
    /\ pass1_day riders (sch, stats, t2) d = (sch', stats', t2')
    /\ tapesAgree (n - length riders) t1' t2'.
Proof.
  intros Hag Hn. unfold pass1_day.
  pose proof (anchorCandidates_length riders sch d) as Hlen.
  set (candidates := anchorCandidates riders sch d) in *.
  case_decide.
  - do 4 eexists. split_and!; [done..|]. eapply tapesAgree_le; [|done]. lia.
  - destruct (shuffle_agree candidates n t1 t2 Hag ltac:(lia)) as [Hs Ht].
    destruct (shuffle candidates t1) as [s1 r1], (shuffle candidates t2) as [s2 r2].
    simpl in *. subst s2.
    destruct (sort (compareAnchor stats) s1).
    + do 4 eexists. split_and!; [done..|]. eapply tapesAgree_le; [|done]. lia.
    + do 4 eexists. split_and!; [done..|]. eapply tapesAgree_le; [|done]. lia.
Qed.

Lemma pass2_day_agree (riders : list Rider) (sch : Schedule) (stats : Stats)
    (t1 t2 : Rng) (d : Date) (n : nat) :
  tapesAgree n t1 t2 -> (length riders <= n)%nat ->
  exists sch' stats' t1' t2',
    pass2_day riders (sch, stats, t1) d = (sch', stats', t1')
    /\ pass2_day riders (sch, stats, t2) d = (sch', stats', t2')
    /\ tapesAgree (n - length riders) t1' t2'.
Proof.
  intros Hag Hn. unfold pass2_day.
  pose proof (fillCandidates_length riders sch d) as Hlen.
  set (candidates := fillCandidates riders sch d) in *.
  case_decide.
  - do 4 eexists. split_and!; [done..|]. eapply tapesAgree_le; [|done]. lia.
  - destruct (shuffle_agree candidates n t1 t2 Hag ltac:(lia)) as [Hs Ht].
    destruct (shuffle candidates t1) as [s1 r1], (shuffle candidates t2) as [s2 r2].
    simpl in *. subst s2.
    destruct (sort (compareFill stats) s1).
    + do 4 eexists. split_and!; [done..|]. eapply tapesAgree_le; [|done]. lia.
    + do 4 eexists. split_and!; [done..|]. eapply tapesAgree_le; [|done]. lia.
Qed.

Section FoldAgree.
Variable riders : list Rider.
Variable step : GenState → Date → GenState.
Hypothesis step_agree : forall (sch : Schedule) (stats : Stats) (t1 t2 : Rng)
    (d : Date) (n : nat),
  tapesAgree n t1 t2 -> (length riders <= n)%nat ->
  exists sch' stats' t1' t2',
    step (sch, stats, t1) d = (sch', stats', t1')
    /\ step (sch, stats, t2) d = (sch', stats', t2')
    /\ tapesAgree (n - length riders) t1' t2'.

Lemma fold_agree (ds : list Date) : forall (sch : Schedule) (stats : Stats)
    (t1 t2 : Rng) (n : nat),
  tapesAgree n t1 t2 -> (length ds * length riders <= n)%nat ->
  exists sch' stats' t1' t2',
    foldl step (sch, stats, t1) ds = (sch', stats', t1')
    /\ foldl step (sch, stats, t2) ds = (sch', stats', t2')
    /\ tapesAgree (n - length ds * length riders) t1' t2'.
Proof using step_agree.
  induction ds as [|d ds IH]; intros sch stats t1 t2 n Hag Hn.
  - do 4 eexists. split_and!; [done..|]. simpl. by rewrite Nat.sub_0_r.
  - cbn [foldl]. simpl in Hn.
    destruct (step_agree sch stats t1 t2 d n Hag ltac:(lia))
      as (sch' & stats' & t1' & t2' & -> & -> & Hag').
    destruct (IH sch' stats' t1' t2' _ Hag' ltac:(lia))
      as (sch'' & stats'' & t1'' & t2'' & -> & -> & Hag'').
    do 4 eexists. split_and!; [done..|].
    eapply tapesAgree_le; [|done]. simpl. lia.
Qed.
End FoldAgree.

Lemma length_saturdays_fill (dates : list Date) :
  (length (saturdaysOf dates) + length (fillDaysOf dates) = length dates)%nat.
Proof.
  unfold saturdaysOf, fillDaysOf.
  induction dates as [|d dates IH]; [done|]. rewrite !filter_cons.
  destruct (isSaturday d); repeat case_decide; try done; simpl; lia.
Qed.

(** C5, as the code has it. The tie-break source is the ambient
    [Math.random]; on the same host, for the same range and riders, two
    runs in which it yields the same outcomes (one per rider and day is all
    that the shuffles read) produce the same schedule and the same
    counters. *)
Theorem generateSchedule_same_outcomes (host : Host) (startDate endDate : Date)
    (riders : list Rider) (rng1 rng2 : Rng) :
  tapesAgree (length (generateDates host startDate endDate) * length riders)
    rng1 rng2 ->
  generateSchedule host startDate endDate riders rng1
  = generateSchedule host startDate endDate riders rng2.
Proof.
  intros Hag. unfold generateSchedule, pass1, pass2.
  set (dates := generateDates host startDate endDate) in *.
  fold (saturdaysOf dates). fold (fillDaysOf dates).
  pose proof (length_saturdays_fill dates) as Hsplit.
  assert (length (saturdaysOf dates) * length riders
          <= length dates * length riders)%nat as H1 by nia.
  destruct (fold_agree riders (pass1_day riders) (pass1_day_agree riders)
              (saturdaysOf dates) ∅ (initStats riders) rng1 rng2 _ Hag H1)
    as (sch & stats & t1 & t2 & -> & -> & Hag1).
  assert (length (fillDaysOf dates) * length riders
          <= length dates * length riders
             - length (saturdaysOf dates) * length riders)%nat as H2 by nia.
  destruct (fold_agree riders (pass2_day riders) (pass2_day_agree riders)
              (fillDaysOf dates) sch stats t1 t2 _ Hag1 H2)
    as (sch' & stats' & t1' & t2' & -> & -> & _).
  done.
Qed.

Lemma generateSchedule_same_outcomes_witness :
  generateSchedule utcHost (mkDate 2023 10 2) (mkDate 2023 10 2) [elin; anne]
    [0; 1]%nat
  = generateSchedule utcHost (mkDate 2023 10 2) (mkDate 2023 10 2) [elin; anne]
      [0; 1; 7]%nat.
Proof.
  apply generateSchedule_same_outcomes.
  intros i Hi. vm_compute in Hi.
  destruct i as [|[|i]]; [reflexivity|reflexivity|lia].
Defined.

(** C5 as stated fails: the call takes no seed, and on one Monday with two
    riders it hands Elin the day under one sequence of outcomes and Anne
    under another. *)
Lemma generateSchedule_not_reproducible :
  exists out1 out2,
    possibleRun utcHost (mkDate 2023 10 2) (mkDate 2023 10 2) [elin; anne] out1
    /\ possibleRun utcHost (mkDate 2023 10 2) (mkDate 2023 10 2) [elin; anne] out2
    /\ out1.1 !! str "2023-10-02" = Some (Some 1)
    /\ out2.1 !! str "2023-10-02" = Some (Some 2).
Proof.
  eexists _, _. split_and!.
  - exists [0; 0]%nat. reflexivity.
  - exists [0; 1]%nat. reflexivity.
  - vm_compute. reflexivity.
  - vm_compute. reflexivity.
Qed.

(** * Further properties of the scheduler *)

(** ** The keys of a generated schedule *)

Section PassKeys.
Variable step : GenState → Date → GenState.
Hypothesis step_writes : forall st d, exists v,
  scheduleOf (step st d) = <[formatDate d := v]> (scheduleOf st).

(** A pass writes no key but those of the days it visits. *)
Lemma fold_lookup_key (ds : list Date) : forall st (k : JsString),
  (forall d, d ∈ ds -> formatDate d ≠ k) ->
  scheduleOf (foldl step st ds) !! k = scheduleOf st !! k.
Proof using step_writes.
  induction ds as [|d ds IH]; intros st k Hk; [done|].
  cbn [foldl]. rewrite IH by (intros x Hx; apply Hk; by right).
  destruct (step_writes st d) as [v ->]. apply lookup_insert_ne. apply Hk. left.
Qed.
End PassKeys.

Lemma pass1_moment startDate endDate riders st0 (d : Date) :
  startDate <= d <= endDate -> isSaturday d = true ->
  let final := scheduleOf (foldl (pass1_day riders) st0
                 (saturdaysOf (daysFrom startDate endDate))) in
  exists st,
    final !! formatDate d = scheduleOf (pass1_day riders st d) !! formatDate d
    /\ (forall x, x < d -> scheduleOf st !! formatDate x = final !! formatDate x)
    /\ (forall x, d <= x -> scheduleOf st !! formatDate x = scheduleOf st0 !! formatDate x).
Proof.
  intros Hd Hsat final.
  assert (d ∈ saturdaysOf (daysFrom startDate endDate)) as Hin
    by (by apply elem_of_saturdaysOf).
  destruct (sorted_split _ d (saturdaysOf_sorted startDate endDate) Hin)
    as (pre & post & Hl & Hpre & Hpost).
  exists (foldl (pass1_day riders) st0 pre). subst final. rewrite Hl. split_and!.
  - apply fold_lookup_at; [apply pass1_day_writes|].
    intros Hd'. apply Hpost in Hd'. lia.
  - intros x Hx. rewrite foldl_app. symmetry.
    apply fold_lookup_other; [apply pass1_day_writes|].
    intros [->|Hx']%elem_of_cons; [lia|]. apply Hpost in Hx'. lia.
  - intros x Hx. apply fold_lookup_other; [apply pass1_day_writes|].
    intros Hx'. apply Hpre in Hx'. lia.
Qed.

Lemma pass1_day_lookup riders st (d : Date) v :
  scheduleOf (pass1_day riders st d) !! formatDate d = Some (Some v) ->
  exists chosen, id chosen = v /\ chosen ∈ anchorCandidates riders (scheduleOf st) d.
Proof.
  destruct st as [[sch stats] rng].
  destruct (pass1_day_spec riders sch stats rng d)
    as [[_ E]|(c & rng' & Hc & _ & E)]; rewrite E; unfold scheduleOf; cbn [fst];
    rewrite lookup_insert_eq; intros [=]. eauto.
Qed.

Lemma pass1_day_lookup_null riders st (d : Date) :
  scheduleOf (pass1_day riders st d) !! formatDate d = Some None <->
  anchorCandidates riders (scheduleOf st) d = [].
Proof.
  destruct st as [[sch stats] rng].
  destruct (pass1_day_spec riders sch stats rng d)
    as [[Hnil E]|(c & rng' & Hc & _ & E)]; rewrite E; unfold scheduleOf; cbn [fst];
    rewrite lookup_insert_eq.
  - done.
  - split; [done|]. intros Hnil. rewrite Hnil in Hc. by apply elem_of_nil in Hc.
Qed.

Lemma pass2_day_lookup_null riders st (d : Date) :
  scheduleOf (pass2_day riders st d) !! formatDate d = Some None <->
  fillCandidates riders (scheduleOf st) d = [].
Proof.
  destruct st as [[sch stats] rng].
  destruct (pass2_day_spec riders sch stats rng d)
    as [[Hnil E]|(c & rng' & Hc & _ & E)]; rewrite E; unfold scheduleOf; cbn [fst];
    rewrite lookup_insert_eq.
  - done.
  - split; [done|]. intros Hnil. rewrite Hnil in Hc. by apply elem_of_nil in Hc.
Qed.

Lemma anchorCandidates_available (riders : list Rider) (newSchedule : Schedule)
    (date : Date) (r : Rider) :
  r ∈ anchorCandidates riders newSchedule date ->
  r ∈ riders /\ formatDate date ∉ blockedDates r.
Proof.
  unfold anchorCandidates. case_decide.
  - by intros [_ [? ?]%list_elem_of_filter]%list_elem_of_filter.
  - by intros [? ?]%list_elem_of_filter.
Qed.

(** The final entry of a Saturday is the one pass 1 wrote. *)
Lemma final_saturday startDate endDate riders rng (d : Date) :
  isSaturday d = true ->
  (scheduleOver (daysFrom startDate endDate) riders rng).1 !! formatDate d
  = scheduleOf (foldl (pass1_day riders) (∅, initStats riders, rng)
                  (saturdaysOf (daysFrom startDate endDate))) !! formatDate d.
Proof.
  intros Hsat. rewrite scheduleOver_eq. cbn [fst].
  apply pass2_lookup_other. intros [_ ?]. congruence.
Qed.

(** The keys of the schedule that the passes build over any list of days
    are the keys of those days. *)
Lemma scheduleOver_dom (dates : list Date) (riders : list Rider)
    (rng : Rng) (k : JsString) :
  is_Some ((scheduleOver dates riders rng).1 !! k) <->
  k ∈ formatDate <$> dates.
Proof.
  rewrite scheduleOver_eq. cbn [fst]. split.
  - intros Hsome.
    destruct (decide (k ∈ formatDate <$> dates)) as [Hin|Hnin]; [done|].
    exfalso. rewrite !fold_lookup_key in Hsome.
    + unfold scheduleOf in Hsome. cbn [fst] in Hsome.
      rewrite lookup_empty in Hsome. by destruct Hsome.
    + apply pass1_day_writes.
    + intros d [_ Hd]%list_elem_of_filter <-. apply Hnin.
      apply list_elem_of_fmap. by exists d.
    + apply pass2_day_writes.
    + intros d [_ Hd]%list_elem_of_filter <-. apply Hnin.
      apply list_elem_of_fmap. by exists d.
  - intros (d & -> & Hd)%list_elem_of_fmap. destruct (isSaturday d) eqn:Hsat.
    + rewrite fold_lookup_other.
      * apply fold_lookup_visited; [apply pass1_day_writes|].
        apply list_elem_of_filter. by split.
      * apply pass2_day_writes.
      * intros [Hn _]%list_elem_of_filter. congruence.
    + apply fold_lookup_visited; [apply pass2_day_writes|].
      apply list_elem_of_filter. split; [congruence|done].
Qed.

Lemma generateSchedule_dom (startDate endDate : Date) (riders : list Rider)
    (rng : Rng) (k : JsString) :
  is_Some ((scheduleOver (daysFrom startDate endDate) riders rng).1 !! k) <->
  exists d, startDate <= d <= endDate /\ k = formatDate d.
Proof.
  rewrite scheduleOver_dom, list_elem_of_fmap. split.
  - intros (d & -> & Hd%elem_of_daysFrom). eauto.
  - intros (d & Hd & ->). exists d. by rewrite elem_of_daysFrom.
Qed.

(** The passes over the days from a first to a last day. Whoever a generated
    schedule puts on a day is a rider of the roster who has not blocked that
    day. *)
Lemma generateSchedule_assigns_available_days (startDate endDate : Date)
    (riders : list Rider) (rng : Rng) (k : JsString) (a : Z) :
  (scheduleOver (daysFrom startDate endDate) riders rng).1 !! k = Some (Some a) ->
  exists d r, startDate <= d <= endDate /\ k = formatDate d
    /\ r ∈ riders /\ id r = a /\ k ∉ blockedDates r.
Proof.
  intros Hk.
  assert (is_Some ((scheduleOver (daysFrom startDate endDate) riders rng).1 !! k)) as Hs
    by (rewrite Hk; eauto).
  apply generateSchedule_dom in Hs as (d & Hd & ->). exists d.
  destruct (isSaturday d) eqn:Hsat.
  - rewrite final_saturday in Hk by done.
    destruct (pass1_moment startDate endDate riders (∅, initStats riders, rng) d Hd Hsat)
      as (st & Hw & _). rewrite Hw in Hk.
    apply pass1_day_lookup in Hk as (chosen & Hid & Hc).
    apply anchorCandidates_available in Hc as [Hr Hb]. eauto 10.
  - rewrite scheduleOver_eq in Hk. cbn [fst] in Hk.
    destruct (pass2_moment startDate endDate riders
                (foldl (pass1_day riders) (∅, initStats riders, rng)
                   (saturdaysOf (daysFrom startDate endDate))) d Hd Hsat)
      as (st & Hw & _). rewrite Hw in Hk.
    apply pass2_day_lookup in Hk as (chosen & Hid & Hc).
    apply fillCandidates_elem in Hc as (Hr & Hb & _). eauto 10.
Qed.

(** ** Days left unassigned *)

Lemma filter_nil_iff {A} (P : A → Prop) `{!forall x, Decision (P x)} (l : list A) :
  filter P l = [] <-> forall x, x ∈ l -> ~ P x.
Proof.
  split.
  - intros E x Hx HP. assert (x ∈ filter P l) as Hin by (by apply list_elem_of_filter).
    rewrite E in Hin. by apply elem_of_nil in Hin.
  - intros Hn. destruct (filter P l) as [|x l'] eqn:E; [done|].
    assert (x ∈ filter P l) as Hin by (rewrite E; left).
    apply list_elem_of_filter in Hin as [HP Hx]. by destruct (Hn x Hx).
Qed.

Lemma anchorCandidates_nil (riders : list Rider) (newSchedule : Schedule) (date : Date) :
  anchorCandidates riders newSchedule date = [] <->
  forall r, r ∈ riders -> formatDate date ∈ blockedDates r.
Proof.
  unfold anchorCandidates. case_decide as Hlen.
  - split.
    + intros E. rewrite E in Hlen. simpl in Hlen. lia.
    + intros Hall. exfalso.
      assert (filter (λ r, formatDate date ∉ blockedDates r) riders = []) as E.
      { apply filter_nil_iff. intros r Hr Hb. by apply Hb, Hall. }
      rewrite E in Hlen. simpl in Hlen. lia.
  - rewrite filter_nil_iff. split.
    + intros Hn r Hr. specialize (Hn r Hr). by apply dec_stable.
    + intros Hall r Hr Hb. by apply Hb, Hall.
Qed.

Lemma weekendFilter_nil (newSchedule : Schedule) date candidates :
  weekendFilter newSchedule date candidates = [] <-> candidates = [].
Proof.
  unfold weekendFilter. destruct (isFriSatSun date); [|done].
  case_decide as Hlen; [|done]. split.
  - intros E. rewrite E in Hlen. simpl in Hlen. lia.
  - intros ->. done.
Qed.

Lemma consecutiveFilter_nil (newSchedule : Schedule) date candidates :
  consecutiveFilter newSchedule date candidates = [] <->
  forall r, r ∈ candidates ->
    Some (Some (id r)) = newSchedule !! formatDate (date + 1).
Proof.
  unfold consecutiveFilter. rewrite setDate_getDate, setDate_getDate_sub.
  set (y := newSchedule !! formatDate (date - 1)).
  set (t := newSchedule !! formatDate (date + 1)).
  case_decide as Hlen.
  - split.
    + intros E. rewrite E in Hlen. simpl in Hlen. lia.
    + intros Hall. exfalso.
      assert (filter (λ r, Some (Some (id r)) ≠ y ∧ Some (Some (id r)) ≠ t) candidates = [])
        as E.
      { apply filter_nil_iff. intros r Hr [_ Hne]. by apply Hne, Hall. }
      rewrite E in Hlen. simpl in Hlen. lia.
  - rewrite filter_nil_iff. split.
    + intros Hn r Hr. specialize (Hn r Hr). by apply dec_stable.
    + intros Hall r Hr Hne. by apply Hne, Hall.
Qed.

Lemma fillCandidates_nil (riders : list Rider) (newSchedule : Schedule) (date : Date) :
  fillCandidates riders newSchedule date = [] <->
  forall r, r ∈ riders -> formatDate date ∉ blockedDates r ->
    Some (Some (id r)) = newSchedule !! formatDate (date + 1).
Proof.
  unfold fillCandidates. rewrite weekendFilter_nil, consecutiveFilter_nil. split.
  - intros H r Hr Hb. apply H. by apply list_elem_of_filter.
  - intros H r [Hb Hr]%list_elem_of_filter. by apply H.
Qed.

(** The passes over the days from a first to a last day. A Saturday of the
    range is left unassigned exactly when every rider has blocked it. *)
Lemma saturday_unassigned_iff_days (startDate endDate : Date) (riders : list Rider)
    (rng : Rng) (d : Date) :
  startDate <= d <= endDate -> isSaturday d = true ->
  (scheduleOver (daysFrom startDate endDate) riders rng).1 !! formatDate d = Some None
  <-> forall r, r ∈ riders -> formatDate d ∈ blockedDates r.
Proof.
  intros Hd Hsat. rewrite final_saturday by done.
  destruct (pass1_moment startDate endDate riders (∅, initStats riders, rng) d Hd Hsat)
    as (st & Hw & _). rewrite Hw, pass1_day_lookup_null.
  apply anchorCandidates_nil.
Qed.

(** The passes over the days from a first to a last day. A day of the fill
    pass is left unassigned exactly when every rider who has not blocked it
    is the rider that pass 1 put on the following day, a Saturday of the
    range; in particular when nobody is free. *)
Lemma fill_day_unassigned_iff_days (startDate endDate : Date) (riders : list Rider)
    (rng : Rng) (d : Date) :
  startDate <= d <= endDate -> isSaturday d = false ->
  let schedule := (scheduleOver (daysFrom startDate endDate) riders rng).1 in
  schedule !! formatDate d = Some None
  <-> forall r, r ∈ riders -> formatDate d ∉ blockedDates r ->
        isSaturday (d + 1) = true /\ d + 1 <= endDate
        /\ schedule !! formatDate (d + 1) = Some (Some (id r)).
Proof.
  intros Hd Hsat schedule. subst schedule. rewrite scheduleOver_eq. cbn [fst].
  set (st1 := foldl (pass1_day riders) (∅, initStats riders, rng)
                (saturdaysOf (daysFrom startDate endDate))).
  destruct (pass2_moment startDate endDate riders st1 d Hd Hsat)
    as (st & Hw & _ & Hafter & Hsats).
  rewrite Hw, pass2_day_lookup_null, fillCandidates_nil.
  assert (Hst1 : forall x, ~ (startDate <= x <= endDate /\ isSaturday x = true) ->
            scheduleOf st1 !! formatDate x = None).
  { intros x Hx. unfold st1. rewrite pass1_lookup_other by done. done. }
  split.
  - intros H r Hr Hb. specialize (H r Hr Hb).
    destruct (decide (startDate <= d + 1 <= endDate /\ isSaturday (d + 1) = true))
      as [[Hrange Hsat1]|Hn].
    + destruct (Hsats (d + 1) Hsat1) as [E1 E2]. split_and!; [done|lia|].
      by rewrite E2, <- E1.
    + rewrite (Hafter (d + 1) ltac:(lia)), (Hst1 _ Hn) in H. done.
  - intros H r Hr Hb. destruct (H r Hr Hb) as (Hsat1 & _ & E).
    destruct (Hsats (d + 1) Hsat1) as [E1 E2]. by rewrite E1, <- E2.
Qed.

(** ** The soft constraint on consecutive Saturdays *)

Lemma anchorCandidates_repeat (riders : list Rider) (newSchedule : Schedule)
    (date : Date) (r : Rider) :
  r ∈ anchorCandidates riders newSchedule date ->
  Some (Some (id r)) = newSchedule !! formatDate (date - 7) ->
  forall x, x ∈ riders -> formatDate date ∉ blockedDates x -> id x = id r.
Proof.
  unfold anchorCandidates. rewrite setDate_getDate_sub. case_decide as Hlen.
  - intros [Hne _]%list_elem_of_filter E. done.
  - intros _ E x Hx Hb.
    destruct (decide (Some (Some (id x)) = newSchedule !! formatDate (date - 7)))
      as [Ex|Hne]; [congruence|].
    exfalso. apply Hlen.
    assert (x ∈ filter (λ r, Some (Some (id r)) ≠ newSchedule !! formatDate (date - 7))
                  (filter (λ r, formatDate date ∉ blockedDates r) riders)) as Hin.
    { apply list_elem_of_filter. split; [done|]. by apply list_elem_of_filter. }
    destruct (filter _ (filter _ riders)); [by apply elem_of_nil in Hin|simpl; lia].
Qed.

(** The passes over the days from a first to a last day. The same rider
    holds two Saturdays in a row only when every rider free on the second
    one is that rider. *)
Lemma consecutive_saturdays_days (startDate endDate : Date) (riders : list Rider)
    (rng : Rng) (d : Date) (a : Z) :
  let schedule := (scheduleOver (daysFrom startDate endDate) riders rng).1 in
  startDate <= d -> d + 7 <= endDate -> isSaturday d = true ->
  schedule !! formatDate d = Some (Some a) ->
  schedule !! formatDate (d + 7) = Some (Some a) ->
  forall r, r ∈ riders -> formatDate (d + 7) ∉ blockedDates r -> id r = a.
Proof.
  intros schedule Hlo Hhi Hsat Hd Hd7. subst schedule.
  assert (isSaturday (d + 7) = true) as Hsat7.
  { unfold isSaturday, getDay in *. apply Z.eqb_eq in Hsat. apply Z.eqb_eq.
    revert Hsat. Z.div_mod_to_equations. lia. }
  rewrite final_saturday in Hd, Hd7 by done.
  destruct (pass1_moment startDate endDate riders (∅, initStats riders, rng) (d + 7)
              ltac:(lia) Hsat7) as (st & Hw & Hbefore & _).
  rewrite Hw in Hd7. apply pass1_day_lookup in Hd7 as (chosen & Hid & Hc).
  intros r Hr Hb. rewrite <- Hid.
  apply (anchorCandidates_repeat riders (scheduleOf st) (d + 7) chosen Hc); [|done..].
  replace (d + 7 - 7) with d by lia. rewrite (Hbefore d ltac:(lia)), Hd, Hid. done.
Qed.

(** ** The counters count the assignments *)

Lemma assignedOn_cons (schedule : Schedule) i d ds :
  assignedOn schedule i (d :: ds)
  = (if decide (schedule !! formatDate d = Some (Some i)) then 1 else 0)
    + assignedOn schedule i ds.
Proof.
  unfold assignedOn. rewrite filter_cons. case_decide; simpl length; lia.
Qed.

Lemma assignedOn_ext (s1 s2 : Schedule) i ds :
  (forall d, d ∈ ds -> s1 !! formatDate d = s2 !! formatDate d) ->
  assignedOn s1 i ds = assignedOn s2 i ds.
Proof.
  induction ds as [|d ds IH]; intros H; [done|].
  rewrite !assignedOn_cons, IH by (intros x Hx; apply H; by right).
  rewrite (H d) by left. done.
Qed.

Lemma assignedOn_split (schedule : Schedule) i (dates : list Date) :
  assignedOn schedule i dates
  = assignedOn schedule i (saturdaysOf dates) + assignedOn schedule i (fillDaysOf dates).
Proof.
  induction dates as [|d dates IH]; [done|].
  unfold saturdaysOf, fillDaysOf in *. rewrite !filter_cons.
  destruct (isSaturday d); repeat case_decide; try done;
    rewrite !assignedOn_cons, IH; lia.
Qed.

Lemma statOf_alter_total f i j (stats : Stats) :
  is_Some (stats !! i) ->
  statOf (alter f i stats) j = if decide (i = j) then f (statOf stats i) else statOf stats j.
Proof.
  intros Hi. case_decide as E.
  - subst j. by apply statOf_alter_eq.
  - by apply statOf_alter_ne.
Qed.

Lemma pass1_counts (riders : list Rider) (ds : list Date) : forall st i,
  NoDup ds -> covered riders (statsOf st) ->
  let final := foldl (pass1_day riders) st ds in
  covered riders (statsOf final)
  /\ total (statOf (statsOf final) i)
     = total (statOf (statsOf st) i) + assignedOn (scheduleOf final) i ds
  /\ saturdays (statOf (statsOf final) i)
     = saturdays (statOf (statsOf st) i) + assignedOn (scheduleOf final) i ds.
Proof.
  induction ds as [|d ds IH]; intros st i Hnd Hcov final; subst final.
  - cbn [foldl]. unfold assignedOn. simpl. split_and!; [done|lia..].
  - apply NoDup_cons in Hnd as [Hd Hnd]. cbn [foldl]. rewrite assignedOn_cons.
    rewrite (fold_lookup_other _ (pass1_day_writes riders) ds _ d Hd).
    destruct st as [[sch stats] rng].
    specialize (IH (pass1_day riders (sch, stats, rng) d) i Hnd).
    destruct (pass1_day_spec riders sch stats rng d)
      as [[_ E]|(chosen & rng' & Hc & _ & E)]; rewrite E in *.
    + destruct (IH Hcov) as (Hcov' & Ht & Hs).
      split; [done|]. rewrite Ht, Hs. unfold scheduleOf, statsOf. cbn [fst snd].
      rewrite lookup_insert_eq, decide_False by done. lia.
    + apply anchorCandidates_elem in Hc. unfold statsOf in Hcov. cbn [fst snd] in Hcov.
      destruct (IH (covered_alter _ _ _ _ Hcov)) as (Hcov' & Ht & Hs).
      split; [done|]. rewrite Ht, Hs. unfold scheduleOf, statsOf. cbn [fst snd].
      rewrite lookup_insert_eq, (statOf_alter_total _ _ _ _ (Hcov chosen Hc)).
      destruct (decide (id chosen = i)) as [->|Hne].
      * rewrite decide_True by done. simpl. lia.
      * rewrite decide_False by congruence. lia.
Qed.

Lemma pass2_counts (riders : list Rider) (ds : list Date) : forall st i,
  NoDup ds -> covered riders (statsOf st) ->
  let final := foldl (pass2_day riders) st ds in
  total (statOf (statsOf final) i)
  = total (statOf (statsOf st) i) + assignedOn (scheduleOf final) i ds.
Proof.
  induction ds as [|d ds IH]; intros st i Hnd Hcov final; subst final.
  - cbn [foldl]. unfold assignedOn. simpl. lia.
  - apply NoDup_cons in Hnd as [Hd Hnd]. cbn [foldl]. rewrite assignedOn_cons.
    rewrite (fold_lookup_other _ (pass2_day_writes riders) ds _ d Hd).
    destruct st as [[sch stats] rng].
    specialize (IH (pass2_day riders (sch, stats, rng) d) i Hnd).
    destruct (pass2_day_spec riders sch stats rng d)
      as [[_ E]|(chosen & rng' & Hc & _ & E)]; rewrite E in *.
    + rewrite (IH Hcov).
      unfold scheduleOf, statsOf. cbn [fst snd].
      rewrite lookup_insert_eq, decide_False by done. lia.
    + apply fillCandidates_elem in Hc as [Hc _]. unfold statsOf in Hcov. cbn [fst snd] in Hcov.
      rewrite (IH (covered_alter _ _ _ _ Hcov)).
      unfold scheduleOf, statsOf. cbn [fst snd].
      rewrite lookup_insert_eq, (statOf_alter_total _ _ _ _ (Hcov chosen Hc)).
      destruct (decide (id chosen = i)) as [->|Hne].
      * rewrite decide_True by done. simpl. lia.
      * rewrite decide_False by congruence. lia.
Qed.

(** The passes over the days from a first to a last day. When a generation
    run ends, the counters of every id tell the schedule: [total] is the
    number of days of the range given to that rider and [saturdays] the
    number of Saturdays among them. *)
Lemma counters_count_assignments_days (startDate endDate : Date)
    (riders : list Rider) (rng : Rng) (i : Z) :
  let schedule := (scheduleOver (daysFrom startDate endDate) riders rng).1 in
  let stats := (scheduleOver (daysFrom startDate endDate) riders rng).2 in
  let dates := daysFrom startDate endDate in
  total (statOf stats i) = assignedOn schedule i dates
  /\ saturdays (statOf stats i) = assignedOn schedule i (saturdaysOf dates).
Proof.
  intros schedule stats dates. subst schedule stats.
  rewrite scheduleOver_eq. cbn [fst snd]. fold dates.
  set (st1 := foldl (pass1_day riders) (∅, initStats riders, rng) (saturdaysOf dates)).
  assert (NoDup (saturdaysOf dates)) as Hnd1
    by apply NoDup_filter, NoDup_daysFrom.
  assert (NoDup (fillDaysOf dates)) as Hnd2
    by apply NoDup_filter, NoDup_daysFrom.
  destruct (pass1_counts riders (saturdaysOf dates) (∅, initStats riders, rng) i Hnd1
              (initStats_covered riders)) as (Hcov & Ht & Hs). fold st1 in Hcov, Ht, Hs.
  pose proof (pass2_counts riders (fillDaysOf dates) st1 i Hnd2 Hcov) as Ht2.
  cbn zeta in Ht2.
  set (st2 := foldl (pass2_day riders) st1 (fillDaysOf dates)) in *.
  assert (assignedOn (scheduleOf st2) i (saturdaysOf dates)
          = assignedOn (scheduleOf st1) i (saturdaysOf dates)) as Esat.
  { apply assignedOn_ext. intros d [_ Hsat]%elem_of_saturdaysOf.
    apply pass2_lookup_other. intros [_ ?]. congruence. }
  unfold statsOf at 2 in Ht. unfold statsOf at 2 in Hs. cbn [fst snd] in Ht, Hs.
  rewrite initStats_statOf in Ht, Hs. simpl in Ht, Hs.
  split.
  - rewrite Ht2, Ht, (assignedOn_split _ _ dates), Esat. lia.
  - rewrite <- Esat in Hs. unfold st2 at 1. rewrite pass2_saturdays, Hs. done.
Qed.

(** * The schedule on a host

    On a regular host the days that [generateDates] hands to the passes are
    consecutive ([generateDates_daysFrom]); what holds of the passes over a
    run of days holds of every generated schedule. *)

(** A day with an entry is a day that the run has visited. *)
Lemma generateSchedule_visited host startDate endDate riders rng (d : Date) v :
  (generateSchedule host startDate endDate riders rng).1 !! formatDate d = Some v ->
  d ∈ generateDates host startDate endDate.
Proof.
  intros H. rewrite generateSchedule_over in H.
  assert (is_Some ((scheduleOver (generateDates host startDate endDate) riders rng).1
                     !! formatDate d)) as Hs by (rewrite H; eauto).
  apply scheduleOver_dom, list_elem_of_fmap in Hs as (d' & E & Hd').
  by apply formatDate_inj in E as ->.
Qed.

(** C1. When a generated schedule gives two consecutive days to the same
    rider, the later day is a day of the fill pass, visited after the
    earlier one, and its pool was empty once the riders of the day before
    and of the day after were taken out: every rider free on that day is
    the one of the day before or the one already placed on the following
    Saturday.  In every other case the two riders differ. *)
Theorem hard_adjacency (host : Host) (startDate endDate : Date)
    (riders : list Rider) (rng : Rng) (day : Date) (a : Z) :
  RegularHost host ->
  let schedule := (generateSchedule host startDate endDate riders rng).1 in
  schedule !! formatDate day = Some (Some a) ->
  schedule !! formatDate (day + 1) = Some (Some a) ->
  isSaturday (day + 1) = false
  /\ forall r, r ∈ riders -> formatDate (day + 1) ∉ blockedDates r ->
       id r = a
       \/ (isSaturday (day + 2) = true /\ day + 2 <= endDate
           /\ id r ≠ a
           /\ schedule !! formatDate (day + 2) = Some (Some (id r))).
Proof.
  intros Hhost schedule Hd Hd1. subst schedule.
  pose proof (generateSchedule_visited _ _ _ _ _ _ _ Hd) as Hv.
  pose proof (generateSchedule_visited _ _ _ _ _ _ _ Hd1) as Hv1.
  rewrite generateSchedule_over in *.
  destruct (generateDates_daysFrom host Hhost startDate endDate)
    as (first & last & E & Hb).
  rewrite E in *. apply elem_of_daysFrom in Hv, Hv1.
  destruct (hard_adjacency_days first last riders rng day a
              ltac:(lia) ltac:(lia) Hd Hd1) as [Hsat Hr].
  split; [exact Hsat|]. intros r Hr1 Hr2.
  destruct (Hr r Hr1 Hr2) as [Ha|(H1 & H2 & H3 & H4)]; [by left|right].
  split_and!; [done| |done|done]. apply (Hb (day + 2)). lia.
Qed.

(** With Elin alone on the roster she holds Monday and Tuesday: the pool of
    Tuesday was empty without her. *)
Lemma hard_adjacency_witness :
  (generateSchedule utcHost (mkDate 2023 10 2) (mkDate 2023 10 3) [elin] []).1
    !! formatDate (mkDate 2023 10 2) = Some (Some 1)
  /\ (generateSchedule utcHost (mkDate 2023 10 2) (mkDate 2023 10 3) [elin] []).1
       !! formatDate (mkDate 2023 10 2 + 1) = Some (Some 1)
  /\ isSaturday (mkDate 2023 10 2 + 1) = false.
Proof.
  assert ((generateSchedule utcHost (mkDate 2023 10 2) (mkDate 2023 10 3) [elin] []).1
            !! formatDate (mkDate 2023 10 2) = Some (Some 1)) as H1
    by (vm_compute; reflexivity).
  assert ((generateSchedule utcHost (mkDate 2023 10 2) (mkDate 2023 10 3) [elin] []).1
            !! formatDate (mkDate 2023 10 2 + 1) = Some (Some 1)) as H2
    by (vm_compute; reflexivity).
  split; [exact H1|]. split; [exact H2|].
  destruct (hard_adjacency utcHost (mkDate 2023 10 2) (mkDate 2023 10 3) [elin] []
              (mkDate 2023 10 2) 1) as [Hsat _];
    [apply utcHost_regular | exact H1 | exact H2 |].
  exact Hsat.
Defined.

(** C2. When no rider has blocked a Saturday that the run visits, the
    Saturday counters that a generation run leaves differ by at most one
    between any two riders, however many Saturdays and riders there are. *)
Theorem anchor_fairness (host : Host) (startDate endDate : Date)
    (riders : list Rider) (rng : Rng) :
  RegularHost host ->
  (forall r d, r ∈ riders -> d ∈ generateDates host startDate endDate ->
     isSaturday d = true -> formatDate d ∉ blockedDates r) ->
  let stats := (generateSchedule host startDate endDate riders rng).2 in
  forall r1 r2, r1 ∈ riders -> r2 ∈ riders ->
    saturdays (statOf stats (id r1)) - saturdays (statOf stats (id r2)) <= 1.
Proof.
  intros Hhost Hfree stats. subst stats.
  rewrite generateSchedule_over.
  destruct (generateDates_daysFrom host Hhost startDate endDate)
    as (first & last & E & _).
  rewrite E in *. apply anchor_fairness_days.
  intros r d Hr Hd. apply Hfree; [done|]. by apply elem_of_daysFrom.
Qed.

Lemma anchor_fairness_witness :
  saturdays (statOf (generateSchedule utcHost (mkDate 2023 10 1) (mkDate 2023 10 31)
                       [elin; anne] [3; 1; 4; 1; 5]%nat).2 (id elin))
  - saturdays (statOf (generateSchedule utcHost (mkDate 2023 10 1) (mkDate 2023 10 31)
                       [elin; anne] [3; 1; 4; 1; 5]%nat).2 (id anne)) <= 1.
Proof.
  apply (anchor_fairness utcHost (mkDate 2023 10 1) (mkDate 2023 10 31) [elin; anne]).
  - apply utcHost_regular.
  - intros r d Hr _ _. apply elem_of_cons in Hr as [->|Hr]; [apply not_elem_of_nil|].
    apply list_elem_of_singleton in Hr as ->. apply not_elem_of_nil.
  - left.
  - right. left.
Defined.

(** X1. On every host, a generated schedule has an entry, a rider or the
    explicit null, for the key of every day that [generateDates] returns
    and for nothing else. *)
Theorem generateSchedule_keys (host : Host) (startDate endDate : Date)
    (riders : list Rider) (rng : Rng) (k : JsString) :
  is_Some ((generateSchedule host startDate endDate riders rng).1 !! k) <->
  exists d, d ∈ generateDates host startDate endDate /\ k = formatDate d.
Proof.
  rewrite generateSchedule_over, scheduleOver_dom, list_elem_of_fmap.
  split; intros (d & H1 & H2); eauto.
Qed.

(** X2. On a regular host, whoever a generated schedule puts on a day is a
    rider of the roster who has not blocked that day, and the day is one
    that [generateDates] returns. *)
Theorem generateSchedule_assigns_available (host : Host)
    (startDate endDate : Date) (riders : list Rider) (rng : Rng)
    (k : JsString) (a : Z) :
  RegularHost host ->
  (generateSchedule host startDate endDate riders rng).1 !! k = Some (Some a) ->
  exists d r, d ∈ generateDates host startDate endDate /\ k = formatDate d
    /\ r ∈ riders /\ id r = a /\ k ∉ blockedDates r.
Proof.
  intros Hhost Hk. rewrite generateSchedule_over in Hk.
  destruct (generateDates_daysFrom host Hhost startDate endDate)
    as (first & last & E & _).
  rewrite E in *.
  destruct (generateSchedule_assigns_available_days _ _ _ _ _ _ Hk)
    as (d & r & Hd & Hkd & Hr).
  exists d, r. split; [by apply elem_of_daysFrom|done].
Qed.

Lemma generateSchedule_assigns_available_witness :
  exists d r,
    d ∈ generateDates utcHost (mkDate 2023 10 2) (mkDate 2023 10 3)
    /\ str "2023-10-03" = formatDate d
    /\ r ∈ [elin] /\ id r = 1 /\ str "2023-10-03" ∉ blockedDates r.
Proof.
  apply (generateSchedule_assigns_available utcHost _ _ _ []).
  - apply utcHost_regular.
  - vm_compute. reflexivity.
Defined.

(** X3. On a regular host, a Saturday that the run visits is left
    unassigned exactly when every rider has blocked it. *)
Theorem saturday_unassigned_iff (host : Host) (startDate endDate : Date)
    (riders : list Rider) (rng : Rng) (d : Date) :
  RegularHost host ->
  d ∈ generateDates host startDate endDate -> isSaturday d = true ->
  (generateSchedule host startDate endDate riders rng).1 !! formatDate d
  = Some None
  <-> forall r, r ∈ riders -> formatDate d ∈ blockedDates r.
Proof.
  intros Hhost Hd Hsat. rewrite generateSchedule_over.
  destruct (generateDates_daysFrom host Hhost startDate endDate)
    as (first & last & E & _).
  rewrite E in *. apply elem_of_daysFrom in Hd.
  by apply saturday_unassigned_iff_days.
Qed.

Lemma saturday_unassigned_iff_witness :
  (generateSchedule utcHost (mkDate 2023 10 7) (mkDate 2023 10 7)
     [{| id := 1; name := []; color := []; blockedDates := [str "2023-10-07"] |}] []).1
    !! formatDate (mkDate 2023 10 7) = Some None
  <-> forall r,
        r ∈ [{| id := 1; name := []; color := []; blockedDates := [str "2023-10-07"] |}] ->
        formatDate (mkDate 2023 10 7) ∈ blockedDates r.
Proof.
  apply saturday_unassigned_iff.
  - apply utcHost_regular.
  - apply (bool_decide_unpack _). vm_compute. exact I.
  - vm_compute. reflexivity.
Defined.

(** X4. On a regular host, a day of the fill pass that the run visits is
    left unassigned exactly when every rider who has not blocked it is the
    rider that pass 1 put on the following day, a Saturday of the run; in
    particular when nobody is free. *)
Theorem fill_day_unassigned_iff (host : Host) (startDate endDate : Date)
    (riders : list Rider) (rng : Rng) (d : Date) :
  RegularHost host ->
  d ∈ generateDates host startDate endDate -> isSaturday d = false ->
  let schedule := (generateSchedule host startDate endDate riders rng).1 in
  schedule !! formatDate d = Some None
  <-> forall r, r ∈ riders -> formatDate d ∉ blockedDates r ->
        isSaturday (d + 1) = true /\ d + 1 <= endDate
        /\ schedule !! formatDate (d + 1) = Some (Some (id r)).
Proof.
  intros Hhost Hd Hsat schedule. subst schedule.
  assert (forall r,
    (generateSchedule host startDate endDate riders rng).1 !! formatDate (d + 1)
    = Some (Some (id r)) -> d + 1 ∈ generateDates host startDate endDate) as Hvis
    by (intros r; apply generateSchedule_visited).
  rewrite generateSchedule_over in *.
  destruct (generateDates_daysFrom host Hhost startDate endDate)
    as (first & last & E & Hb).
  rewrite E in *. apply elem_of_daysFrom in Hd.
  rewrite (fill_day_unassigned_iff_days first last riders rng d Hd Hsat).
  split; intros H r Hr Hfree; destruct (H r Hr Hfree) as (H1 & H2 & H3).
  - split_and!; [done| |done]. apply (Hb (d + 1)). lia.
  - split_and!; [done| |done]. apply Hvis, elem_of_daysFrom in H3. lia.
Qed.

Lemma fill_day_unassigned_iff_witness :
  (generateSchedule utcHost (mkDate 2023 10 6) (mkDate 2023 10 7) [elin] []).1
    !! formatDate (mkDate 2023 10 6) = Some None.
Proof.
  apply (fill_day_unassigned_iff utcHost (mkDate 2023 10 6) (mkDate 2023 10 7)
           [elin] []).
  - apply utcHost_regular.
  - apply (bool_decide_unpack _). vm_compute. exact I.
  - vm_compute. reflexivity.
  - intros r Hr _. apply list_elem_of_singleton in Hr as ->. vm_compute. done.
Defined.

(** X5. On a regular host, the same rider holds two Saturdays in a row only
    when every rider free on the second one is that rider. *)
Theorem consecutive_saturdays (host : Host) (startDate endDate : Date)
    (riders : list Rider) (rng : Rng) (d : Date) (a : Z) :
  RegularHost host ->
  let schedule := (generateSchedule host startDate endDate riders rng).1 in
  isSaturday d = true ->
  schedule !! formatDate d = Some (Some a) ->
  schedule !! formatDate (d + 7) = Some (Some a) ->
  forall r, r ∈ riders -> formatDate (d + 7) ∉ blockedDates r -> id r = a.
Proof.
  intros Hhost schedule Hsat Hd Hd7. subst schedule.
  pose proof (generateSchedule_visited _ _ _ _ _ _ _ Hd) as Hv.
  pose proof (generateSchedule_visited _ _ _ _ _ _ _ Hd7) as Hv7.
  rewrite generateSchedule_over in *.
  destruct (generateDates_daysFrom host Hhost startDate endDate)
    as (first & last & E & _).
  rewrite E in *. apply elem_of_daysFrom in Hv, Hv7.
  apply (consecutive_saturdays_days first last riders rng d a); (lia || done).
Qed.

Lemma consecutive_saturdays_witness :
  (generateSchedule utcHost (mkDate 2023 10 7) (mkDate 2023 10 14) [elin] []).1
    !! formatDate (mkDate 2023 10 7 + 7) = Some (Some 1)
  /\ id elin = 1.
Proof.
  split; [vm_compute; reflexivity|].
  apply (consecutive_saturdays utcHost (mkDate 2023 10 7) (mkDate 2023 10 14)
           [elin] [] (mkDate 2023 10 7) 1).
  - apply utcHost_regular.
  - vm_compute; reflexivity.
  - vm_compute; reflexivity.
  - vm_compute; reflexivity.
  - apply list_elem_of_here.
  - apply not_elem_of_nil.
Defined.

(** X6. On a regular host, when a generation run ends the counters of every
    id tell the schedule: [total] is the number of days of the run given to
    that rider and [saturdays] the number of Saturdays among them. *)
Theorem counters_count_assignments (host : Host) (startDate endDate : Date)
    (riders : list Rider) (rng : Rng) (i : Z) :
  RegularHost host ->
  let schedule := (generateSchedule host startDate endDate riders rng).1 in
  let stats := (generateSchedule host startDate endDate riders rng).2 in
  let dates := generateDates host startDate endDate in
  total (statOf stats i) = assignedOn schedule i dates
  /\ saturdays (statOf stats i) = assignedOn schedule i (saturdaysOf dates).
Proof.
  intros Hhost schedule stats dates. subst schedule stats dates.
  rewrite generateSchedule_over.
  destruct (generateDates_daysFrom host Hhost startDate endDate)
    as (first & last & E & _).
  rewrite E. apply counters_count_assignments_days.
Qed.

Lemma counters_count_assignments_witness :
  total (statOf (generateSchedule utcHost (mkDate 2023 10 2) (mkDate 2023 10 8)
                   [elin; anne] [0; 1]%nat).2 1)
  = assignedOn (generateSchedule utcHost (mkDate 2023 10 2) (mkDate 2023 10 8)
                  [elin; anne] [0; 1]%nat).1 1
      (generateDates utcHost (mkDate 2023 10 2) (mkDate 2023 10 8)).
Proof.
  destruct (counters_count_assignments utcHost (mkDate 2023 10 2) (mkDate 2023 10 8)
              [elin; anne] [0; 1]%nat 1 utcHost_regular) as [H _].
  exact H.
Defined.

(** * Date objects and their local days *)

Lemma DateObject_formatDate host t :
  DateObject.formatDate host t = formatDate (Instant.localDay host t).
Proof. reflexivity. Qed.

Lemma backToSunday_le fuel : forall check, backToSunday fuel check <= check.
Proof.
  induction fuel as [|fuel IH]; intros check; [simpl; lia|].
  simpl. case_decide; [|lia].
  rewrite setDate_getDate_sub. specialize (IH (check - 1)). lia.
Qed.

Lemma setDate_UTC_sub host (Hhost : RegularHost host) local k :
  exists local', Instant.setDate host (UTC host local)
                   (Instant.getDate host (UTC host local) - k) = UTC host local'
    /\ Day local' = Day local - k.
Proof.
  destruct (setDate_UTC host Hhost local (- k)) as (local' & E & Hd & _).
  exists local'. split; [|lia].
  rewrite <- E. reflexivity.
Qed.

(** The walk back on the time value ends on the wall-clock time of the day
    that the walk back on the day ends on, and has not moved when that day
    is the day it started from. *)
Lemma DateObject_backToSunday host (Hhost : RegularHost host) fuel :
  forall local, exists local',
    DateObject.backToSunday host fuel (UTC host local) = UTC host local'
    /\ Day local' = backToSunday fuel (Day local)
    /\ (Day local' = Day local -> local' = local).
Proof.
  induction fuel as [|fuel IH]; intros local; [by exists local|].
  cbn [DateObject.backToSunday backToSunday].
  unfold DateObject.getDay. rewrite localDay_UTC by done.
  destruct (decide (getDay (Day local) ≠ 0)) as [Hne|He]; [|by exists local].
  destruct (setDate_UTC_sub host Hhost local 1) as (local1 & -> & Hd1).
  destruct (IH local1) as (local' & E & Hd & _).
  exists local'. rewrite setDate_getDate_sub, <- Hd1. split; [done|]. split; [done|].
  intros Hc. pose proof (backToSunday_le fuel (Day local1)). lia.
Qed.

(** X26. On a regular host, for a Date object that [setHours] or [setDate]
    has set (the time value of a wall-clock time), what the passes compute
    on the object is what the model computes on its local calendar day: the
    key, the weekday, the key of the day [k] days on that
    [setDate(getDate() + k)] leads to, and [workedLastWeekend], whose
    comparison [d >= currentDate] is on time values. *)
Theorem dateObjects_agree (host : Host) (local : Z) (newSchedule : Schedule)
    (candidateId k : Z) :
  RegularHost host ->
  let date := UTC host local in
  let day := Day local in
  DateObject.formatDate host date = formatDate day
  /\ DateObject.getDay host date = getDay day
  /\ DateObject.formatDate host
       (Instant.setDate host date (Instant.getDate host date + k))
     = formatDate (setDate day (getDate day + k))
  /\ DateObject.workedLastWeekend host newSchedule date candidateId
     = workedLastWeekend newSchedule day candidateId.
Proof.
  intros Hhost date day. subst date day. split_and!.
  - by rewrite DateObject_formatDate, localDay_UTC.
  - unfold DateObject.getDay. by rewrite localDay_UTC.
  - by rewrite DateObject_formatDate, localDay_setDate, localDay_UTC, setDate_getDate.
  - unfold DateObject.workedLastWeekend, workedLastWeekend.
    destruct (DateObject_backToSunday host Hhost 7 local) as (sun & -> & Hsun & Hsame).
    destruct (setDate_UTC_sub host Hhost sun 1) as (sat & -> & Hsat).
    destruct (setDate_UTC_sub host Hhost sun 2) as (fri & -> & Hfri).
    rewrite !setDate_getDate_sub, <- Hsun.
    pose proof (backToSunday_le 7 (Day local)) as Hle. rewrite <- Hsun in Hle.
    assert (forall x, Day x < Day local ->
              (UTC host x >=? UTC host local) = false
              /\ (Day x >=? Day local) = false) as Hbefore.
    { intros x Hx. pose proof (day_increasing host Hhost x local Hx).
      split; rewrite Z.geb_leb; apply Z.leb_gt; lia. }
    cbn [existsb]. rewrite !DateObject_formatDate, !localDay_UTC by done.
    rewrite <- Hfri, <- Hsat.
    destruct (Hbefore fri ltac:(lia)) as [-> ->].
    destruct (Hbefore sat ltac:(lia)) as [-> ->].
    destruct (Z.eq_dec (Day sun) (Day local)) as [E|Hne].
    + rewrite (Hsame E). by rewrite !Z.geb_leb, !Z.leb_refl.
    + destruct (Hbefore sun ltac:(lia)) as [-> ->]. done.
Qed.

Lemma dateObjects_agree_witness :
  DateObject.workedLastWeekend utcHost {[ str "2023-10-06" := Some 1 ]}
    (UTC utcHost (mkDate 2023 10 8 * msPerDay)) 1
  = workedLastWeekend {[ str "2023-10-06" := Some 1 ]}
      (Day (mkDate 2023 10 8 * msPerDay)) 1.
Proof.
  destruct (dateObjects_agree utcHost (mkDate 2023 10 8 * msPerDay)
              {[ str "2023-10-06" := Some 1 ]} 1 0 utcHost_regular)
    as (_ & _ & _ & E).
  exact E.
Defined.

(** * Further properties of the manual override *)

(** X7. When the day has no entry, or holds a rider who is not eligible for
    it any more, one click gives it to the first eligible rider of the
    roster, or leaves it unassigned when nobody is eligible. *)
Theorem manualAssign_stale_first (schedule : Schedule) (riders : list Rider)
    (dateStr : JsString) :
  (forall y, schedule !! dateStr = Some y -> y ∉ cycleList riders dateStr) ->
  manualAssign schedule riders dateStr !! dateStr
  = Some (match availableRiders riders dateStr with
          | r :: _ => Some (id r)
          | [] => None
          end).
Proof.
  intros Hstale. rewrite manualAssign_target. f_equal.
  destruct (nextId_lookup schedule riders dateStr) as (j & Hj & Hl).
  unfold indexOf in Hj. rewrite indexOf_from_notin in Hj by done.
  replace (-1 + 1) with 0 in Hj by lia.
  rewrite Z.mod_0_l in Hj by (rewrite cycleList_length; lia).
  replace j with 0%nat in Hl by lia.
  unfold cycleList in Hl. fold (availableRiders riders dateStr) in Hl.
  destruct (availableRiders riders dateStr); simpl in Hl; congruence.
Qed.

Lemma manualAssign_stale_first_witness :
  manualAssign {[ str "2023-10-01" := Some 1 ]} [elin_away; anne] (str "2023-10-01")
    !! str "2023-10-01"
  = Some (match availableRiders [elin_away; anne] (str "2023-10-01") with
          | r :: _ => Some (id r)
          | [] => None
          end).
Proof.
  apply manualAssign_stale_first.
  intros y Hy. apply (bool_decide_unpack _). revert Hy. vm_compute.
  intros [= <-]. exact I.
Defined.

Lemma manualAssign_times_succ_r n riders dateStr schedule :
  manualAssign_times (S n) riders dateStr schedule
  = manualAssign_times n riders dateStr (manualAssign schedule riders dateStr).
Proof. unfold manualAssign_times. by rewrite Nat.iter_succ_r. Qed.

(** X8. With distinct rider ids, every eligible rider, and the unassigned
    state, can be reached by clicking the day at most (eligible riders + 1)
    times, whatever the day holds. *)
Theorem manualAssign_reaches (schedule : Schedule) (riders : list Rider)
    (dateStr : JsString) (target : option Z) :
  NoDup (id <$> availableRiders riders dateStr) ->
  target ∈ cycleList riders dateStr ->
  exists n, (n <= S (length (availableRiders riders dateStr)))%nat
    /\ manualAssign_times n riders dateStr schedule !! dateStr = Some target.
Proof.
  intros Hnd Ht. apply cycleList_NoDup in Hnd.
  pose proof (cycleList_length riders dateStr) as Hlen.
  set (L := cycleList riders dateStr) in *.
  apply list_elem_of_lookup_1 in Ht as [j Hj].
  assert (j < length L)%nat as Hjl by (by eapply lookup_lt_Some).
  assert (Hfrom : forall s (i : nat) y, L !! i = Some y -> s !! dateStr = Some y ->
    exists n, (n < length L)%nat
      /\ manualAssign_times n riders dateStr s !! dateStr = Some target).
  { intros s i y Hi Hs.
    assert (i < length L)%nat as Hil by (by eapply lookup_lt_Some).
    exists (Z.to_nat ((Z.of_nat j - Z.of_nat i) `mod` Z.of_nat (length L))).
    pose proof (Z.mod_pos_bound (Z.of_nat j - Z.of_nat i) (Z.of_nat (length L))
                  ltac:(lia)) as Hb.
    split; [lia|].
    destruct (manualAssign_times_pos
                (Z.to_nat ((Z.of_nat j - Z.of_nat i) `mod` Z.of_nat (length L)))
                riders dateStr s i y Hnd Hi Hs) as (y' & Hy' & ->).
    f_equal. fold L in Hy'. rewrite Z2Nat.id in Hy' by lia.
    rewrite Z.add_mod_idemp_r in Hy' by lia.
    replace (Z.of_nat i + (Z.of_nat j - Z.of_nat i)) with (Z.of_nat j) in Hy' by lia.
    rewrite Z.mod_small, Nat2Z.id in Hy' by lia. congruence. }
  destruct (schedule !! dateStr) as [y|] eqn:Hcur.
  - destruct (decide (y ∈ L)) as [Hin|Hnin].
    + apply list_elem_of_lookup_1 in Hin as [i Hi].
      destruct (Hfrom schedule i y Hi Hcur) as (n & Hn & Hres).
      exists n. split; [lia|done].
    + destruct (nextId_lookup schedule riders dateStr) as (i & _ & Hi). fold L in Hi.
      destruct (Hfrom (manualAssign schedule riders dateStr) i _ Hi
                  (manualAssign_target _ _ _)) as (n & Hn & Hres).
      exists (S n). split; [lia|]. by rewrite manualAssign_times_succ_r.
  - destruct (nextId_lookup schedule riders dateStr) as (i & _ & Hi). fold L in Hi.
    destruct (Hfrom (manualAssign schedule riders dateStr) i _ Hi
                (manualAssign_target _ _ _)) as (n & Hn & Hres).
    exists (S n). split; [lia|]. by rewrite manualAssign_times_succ_r.
Qed.

Lemma manualAssign_reaches_witness :
  exists n, (n <= S (length (availableRiders [elin; anne] (str "2023-10-01"))))%nat
    /\ manualAssign_times n [elin; anne] (str "2023-10-01") ∅ !! str "2023-10-01"
       = Some (Some 2).
Proof.
  apply manualAssign_reaches.
  - apply (bool_decide_unpack _). vm_compute. exact I.
  - apply (bool_decide_unpack _). vm_compute. exact I.
Defined.

(** * The roster handlers *)

Lemma getRiderById_Some riders i r :
  getRiderById riders i = Some r -> r ∈ riders /\ id r = i.
Proof.
  unfold getRiderById. intros H. apply find_some in H as [Hin Hb].
  split; [by apply list_elem_of_In|]. by apply bool_decide_eq_true in Hb.
Qed.

Lemma getRiderById_None riders i :
  getRiderById riders i = None <-> forall r, r ∈ riders -> id r ≠ i.
Proof.
  unfold getRiderById. split.
  - intros H r Hr E. apply list_elem_of_In in Hr.
    pose proof (find_none _ _ H r Hr) as Hb. simpl in Hb.
    apply bool_decide_eq_false in Hb. done.
  - intros H. destruct (find _ riders) as [r|] eqn:E; [|done].
    apply find_some in E as [Hin Hb]. apply bool_decide_eq_true in Hb.
    apply list_elem_of_In in Hin. by destruct (H r Hin).
Qed.

Lemma getRiderById_unique riders i r r' :
  NoDup (id <$> riders) -> getRiderById riders i = Some r ->
  r' ∈ riders -> id r' = i -> r' = r.
Proof.
  intros Hnd H Hr' Hid. apply getRiderById_Some in H as [Hr Hi].
  apply list_elem_of_lookup_1 in Hr as [a Ha]. apply list_elem_of_lookup_1 in Hr' as [b Hb].
  assert (a = b) as ->; [|congruence].
  apply (NoDup_lookup (id <$> riders) a b i); [done|..];
    rewrite list_lookup_fmap; [rewrite Ha|rewrite Hb]; simpl; congruence.
Qed.

(** X9. With distinct rider ids, toggling a date for a rider of the roster
    flips whether that rider has the date blocked and changes nothing else:
    the rider's other dates, the other riders, the ids and their order stay;
    for an id that no rider has, the roster is returned as it is. *)
Theorem toggleBlockedDate_flips (riders : list Rider) (riderId : Z)
    (dateStr : JsString) :
  NoDup (id <$> riders) ->
  id <$> toggleBlockedDate riders riderId dateStr = id <$> riders
  /\ (forall r', r' ∈ toggleBlockedDate riders riderId dateStr -> id r' ≠ riderId ->
        r' ∈ riders)
  /\ (forall r, r ∈ riders -> id r ≠ riderId ->
        r ∈ toggleBlockedDate riders riderId dateStr)
  /\ (forall r, r ∈ riders -> id r = riderId ->
        exists r', r' ∈ toggleBlockedDate riders riderId dateStr /\ id r' = riderId
          /\ name r' = name r
          /\ (dateStr ∈ blockedDates r' <-> dateStr ∉ blockedDates r)
          /\ forall d, d ≠ dateStr -> (d ∈ blockedDates r' <-> d ∈ blockedDates r))
  /\ ((forall r, r ∈ riders -> id r ≠ riderId) ->
        toggleBlockedDate riders riderId dateStr = riders).
Proof.
  intros Hnd. unfold toggleBlockedDate.
  destruct (getRiderById riders riderId) as [rider|] eqn:Hfind.
  - set (newBlocked := if bool_decide (dateStr ∈ blockedDates rider)
                       then filter (λ d, d ≠ dateStr) (blockedDates rider)
                       else blockedDates rider ++ [dateStr]).
    unfold updateRider_blockedDates. split_and!.
    + rewrite <- list_fmap_compose. apply list_fmap_ext. intros k r _. simpl.
      by case_decide.
    + intros r' (r & -> & Hr)%list_elem_of_fmap Hid. case_decide; [done|done].
    + intros r Hr Hid. apply list_elem_of_fmap. exists r. by rewrite decide_False.
    + intros r Hr Hid.
      assert (r = rider) as -> by (by eapply getRiderById_unique).
      eexists. split; [apply list_elem_of_fmap; exists rider; split; [|done];
                       by rewrite decide_True|].
      simpl. split_and!; [done|done| |].
      * unfold newBlocked. case_bool_decide as Hb.
        -- rewrite list_elem_of_filter. split; [by intros [? _]|done].
        -- rewrite elem_of_app, list_elem_of_singleton. split; [done|by right].
      * intros d Hd. unfold newBlocked. case_bool_decide as Hb.
        -- rewrite list_elem_of_filter. split; [by intros [_ ?]|done].
        -- rewrite elem_of_app, list_elem_of_singleton. split; [by intros [?|?]|by left].
    + intros Hno. apply getRiderById_Some in Hfind as [Hr Hid]. by destruct (Hno rider Hr).
  - pose proof (proj1 (getRiderById_None _ _) Hfind) as Hno. split_and!; try done.
    intros r Hr Hid. by destruct (Hno r Hr).
Qed.

Lemma toggleBlockedDate_flips_witness :
  id <$> toggleBlockedDate [elin; anne] 1 (str "2023-10-01") = id <$> [elin; anne].
Proof.
  assert (NoDup (id <$> [elin; anne])) as Hnd
    by (apply (bool_decide_unpack _); vm_compute; exact I).
  destruct (toggleBlockedDate_flips [elin; anne] 1 (str "2023-10-01") Hnd) as [Hids _].
  exact Hids.
Defined.

(** * Further properties of the calendar export *)

(** ** Digits *)

Lemma str_String c s : str (String c s) = N_of_ascii c :: str s.
Proof. done. Qed.

Lemma pretty_N_char_digit x : (x < 10)%N -> isDigit (N_of_ascii (pretty_N_char x)).
Proof.
  intros Hx.
  assert (x = 0 \/ x = 1 \/ x = 2 \/ x = 3 \/ x = 4 \/ x = 5 \/ x = 6 \/ x = 7
          \/ x = 8 \/ x = 9)%N as Hc by lia.
  repeat destruct Hc as [->|Hc]; try subst x; vm_compute; split; discriminate.
Qed.

Lemma pretty_N_go_digits (x : N) : forall s,
  Forall isDigit (str s) -> Forall isDigit (str (pretty_N_go x s)).
Proof.
  induction (N.lt_wf_0 x) as [x _ IH]; intros s Hs.
  destruct (decide (x = 0)%N) as [->|Hx].
  - by rewrite pretty_N_go_0.
  - rewrite pretty_N_go_step by lia. apply IH.
    + apply N.div_lt; lia.
    + rewrite str_String. constructor; [|done].
      apply pretty_N_char_digit. by apply N.mod_lt.
Qed.

Lemma String_of_Z_digits n : 0 <= n -> Forall isDigit (String_of_Z n).
Proof.
  intros Hn. unfold String_of_Z. destruct n as [|p|p]; [|..|lia].
  - vm_compute. repeat constructor; discriminate.
  - change (pretty (Z.pos p)) with (pretty (N.pos p)).
    unfold pretty, pretty_N. rewrite decide_False by done.
    apply pretty_N_go_digits. constructor.
Qed.

Lemma padStart_digits s n : Forall isDigit s -> Forall isDigit (padStart s n ZERO).
Proof.
  intros H. unfold padStart. apply Forall_app. split; [|done].
  apply Forall_replicate. vm_compute. split; discriminate.
Qed.

Lemma compactDate_digits d : 0 <= getFullYear d -> Forall isDigit (compactDate d).
Proof.
  intros Hy. pose proof (getMonth_range d). pose proof (getDate_range d).
  unfold compactDate. rewrite !Forall_app. split_and!.
  - by apply String_of_Z_digits.
  - apply padStart_digits, String_of_Z_digits. lia.
  - apply padStart_digits, String_of_Z_digits. lia.
Qed.

Lemma replaceAll_app c by_ s1 s2 :
  replaceAll c by_ (s1 ++ s2) = replaceAll c by_ s1 ++ replaceAll c by_ s2.
Proof. unfold replaceAll. apply bind_app. Qed.

Lemma replaceAll_absent c by_ s : Forall (λ u, u ≠ c) s -> replaceAll c by_ s = s.
Proof.
  induction 1 as [|u s Hu Hs IH]; [done|].
  unfold replaceAll in *. rewrite bind_cons, IH, decide_False by done. done.
Qed.

Lemma digits_no_dash s : Forall isDigit s -> Forall (λ u, u ≠ DASH) s.
Proof.
  intros H. eapply Forall_impl; [exact H|].
  intros u [H1 H2] ->. vm_compute in H1. by apply H1.
Qed.

Lemma formatICalDate_compactDate (d : Date) :
  0 <= getFullYear d -> formatICalDate (formatDate d) = compactDate d.
Proof.
  intros Hy. pose proof (getMonth_range d) as Hm. pose proof (getDate_range d) as Hd.
  unfold formatICalDate, formatDate, compactDate.
  rewrite !replaceAll_app.
  rewrite !(replaceAll_absent DASH [] (String_of_Z _))
    by (apply digits_no_dash, String_of_Z_digits; lia).
  rewrite !(replaceAll_absent DASH [] (padStart _ _ _))
    by (apply digits_no_dash, padStart_digits, String_of_Z_digits; lia).
  unfold replaceAll. rewrite bind_singleton, decide_True by done. done.
Qed.

(** X10. For a day of a year from 0 on, [formatICalDate] turns the key
    year-MM-DD into digits only: the year, then the month and the day of
    the month on two digits each, and nothing else. *)
Theorem formatICalDate_formatDate (d : Date) :
  0 <= getFullYear d ->
  formatICalDate (formatDate d) = compactDate d
  /\ Forall isDigit (formatICalDate (formatDate d))
  /\ length (formatICalDate (formatDate d))
     = (length (String_of_Z (getFullYear d)) + 4)%nat.
Proof.
  intros Hy. pose proof (getMonth_range d) as Hm. pose proof (getDate_range d) as Hd.
  rewrite (formatICalDate_compactDate d Hy).
  split_and!; [done|by apply compactDate_digits|].
  unfold compactDate. rewrite !length_app.
  destruct (pad2_twoDigits (getMonth d + 1) ltac:(lia)) as [-> _].
  destruct (pad2_twoDigits (getDate d) ltac:(lia)) as [-> _]. lia.
Qed.

Lemma formatICalDate_formatDate_witness :
  formatICalDate (formatDate (mkDate 2023 10 1)) = compactDate (mkDate 2023 10 1).
Proof.
  destruct (formatICalDate_formatDate (mkDate 2023 10 1)) as [E _];
    [vm_compute; discriminate|exact E].
Defined.

(** X11. Two different days never have the same schedule key. *)
Theorem formatDate_distinct_keys (d1 d2 : Date) :
  d1 ≠ d2 -> formatDate d1 ≠ formatDate d2.
Proof. intros Hne E. by apply Hne, formatDate_inj. Qed.

Lemma formatDate_distinct_keys_witness :
  formatDate (mkDate 2024 2 29) ≠ formatDate (mkDate 2024 3 1).
Proof. apply formatDate_distinct_keys. vm_compute. discriminate. Defined.

(** ** Escaping *)

Lemma escapeText_flat text : escapeText text = text ≫= escapeUnit.
Proof.
  unfold escapeText. induction text as [|u text IH]; [done|].
  change (u :: text) with ([u] ++ text). rewrite !replaceAll_app, IH, bind_app.
  f_equal. unfold replaceAll, escapeUnit. rewrite !bind_singleton.
  destruct (decide (u = BACKSLASH)) as [->|H1]; [vm_compute; reflexivity|].
  rewrite bind_singleton.
  destruct (decide (u = 59%N)) as [->|H2]; [vm_compute; reflexivity|].
  rewrite bind_singleton.
  destruct (decide (u = 44%N)) as [->|H3]; [vm_compute; reflexivity|].
  rewrite bind_singleton.
  destruct (decide (u = LF)) as [->|H4]; [vm_compute; reflexivity|done].
Qed.

(** X12. Escaping loses nothing: reading the escapes back (a backslash
    announces one escaped code unit, n standing for the line feed) gives the
    text again, so two different texts are never escaped to the same one. *)
Theorem escapeText_lossless (text : JsString) :
  unescapeText (escapeText text) = text
  /\ forall text', escapeText text' = escapeText text -> text' = text.
Proof.
  assert (forall v rest, unescapeText (BACKSLASH :: v :: rest)
            = (if decide (v = 110%N) then LF else v) :: unescapeText rest) as Hesc
    by reflexivity.
  assert (forall u rest, u ≠ BACKSLASH ->
            unescapeText (u :: rest) = u :: unescapeText rest) as Hplain.
  { intros u rest Hu. cbn [unescapeText]. by rewrite decide_False. }
  assert (forall t, unescapeText (escapeText t) = t) as H.
  { intros t. rewrite escapeText_flat. induction t as [|u t IH]; [done|].
    rewrite bind_cons. unfold escapeUnit at 1.
    destruct (decide (u = BACKSLASH)) as [->|H1].
    { cbn [app]. rewrite Hesc, IH. done. }
    destruct (decide (u = 59%N)) as [->|H2].
    { cbn [app]. rewrite Hesc, IH. done. }
    destruct (decide (u = 44%N)) as [->|H3].
    { cbn [app]. rewrite Hesc, IH. done. }
    destruct (decide (u = LF)) as [->|H4].
    { cbn [app]. rewrite Hesc, IH. done. }
    cbn [app]. rewrite Hplain, IH by done. done. }
  split; [apply H|]. intros text' E. by rewrite <- (H text'), E, H.
Qed.

(** X13. An escaped text holds no line feed, and every semicolon and comma
    in it comes right after a backslash. *)
Theorem escapeText_no_line_feed (text : JsString) :
  Forall (λ u, u ≠ LF) (escapeText text)
  /\ forall (i : nat) u, escapeText text !! i = Some u -> u = 59%N \/ u = 44%N ->
       exists j : nat, i = S j /\ escapeText text !! j = Some BACKSLASH.
Proof.
  rewrite escapeText_flat. split.
  - induction text as [|u text IH]; [done|]. rewrite bind_cons.
    apply Forall_app. split; [|done]. unfold escapeUnit.
    repeat case_decide; repeat constructor; done.
  - induction text as [|v text IH]; intros i u Hi Hu; [done|].
    rewrite bind_cons in Hi |- *.
    assert (Hcase : (exists w, escapeUnit v = [BACKSLASH; w])
                    \/ (escapeUnit v = [v] /\ v ≠ 59%N /\ v ≠ 44%N)).
    { unfold escapeUnit. repeat case_decide; eauto. }
    destruct Hcase as [[w E]|(E & H1 & H2)]; rewrite E in Hi |- *.
    + destruct i as [|[|i]]; simpl in Hi.
      * injection Hi as <-. destruct Hu; discriminate.
      * exists 0%nat. done.
      * destruct (IH i u Hi Hu) as (j & -> & Hj). exists (S (S j)). done.
    + destruct i as [|i]; simpl in Hi.
      * injection Hi as <-. by destruct Hu.
      * destruct (IH i u Hi Hu) as (j & -> & Hj). exists (S j). done.
Qed.

(** ** Unfolding *)

Lemma unfoldLine_CR_keep rest :
  (forall v rest', rest = v :: rest' -> v ≠ LF) ->
  unfoldLine (CR :: rest) = CR :: unfoldLine rest.
Proof.
  intros H. cbn [unfoldLine]. rewrite decide_True by done.
  destruct rest as [|v [|w rest']]; [done..|].
  rewrite decide_False; [done|]. intros [-> _]. by apply (H LF (w :: rest')).
Qed.

Lemma unfoldLine_other u rest : u ≠ CR -> unfoldLine (u :: rest) = u :: unfoldLine rest.
Proof. intros H. cbn [unfoldLine]. by rewrite decide_False. Qed.

Lemma unfoldLine_fold rest : unfoldLine (CR :: LF :: SPACE :: rest) = unfoldLine rest.
Proof. cbn [unfoldLine]. rewrite decide_True by done. by rewrite decide_True. Qed.

Lemma unfoldLine_plain a : Forall (λ u, u ≠ LF) a -> unfoldLine a = a.
Proof.
  induction 1 as [|u a Hu Ha IH]; [done|].
  destruct (decide (u = CR)) as [->|Hne].
  - rewrite unfoldLine_CR_keep, IH; [done|]. intros v rest' ->.
    by apply Forall_cons in Ha as [? _].
  - by rewrite unfoldLine_other, IH.
Qed.

Lemma unfoldLine_app a b : Forall (λ u, u ≠ LF) a ->
  unfoldLine (a ++ CR :: LF :: SPACE :: b) = a ++ unfoldLine b.
Proof.
  induction 1 as [|u a Hu Ha IH].
  - apply unfoldLine_fold.
  - cbn [app]. destruct (decide (u = CR)) as [->|Hne].
    + rewrite unfoldLine_CR_keep, IH; [done|]. intros v rest' E.
      destruct a as [|v' a']; simpl in E; injection E as <- _; [done|].
      by apply Forall_cons in Ha as [? _].
    + by rewrite unfoldLine_other, IH.
Qed.

Lemma unfoldLine_segments (segs : list JsString) : forall a,
  Forall (λ u, u ≠ LF) a -> Forall (Forall (λ u, u ≠ LF)) segs ->
  unfoldLine (a ++ (segs ≫= (λ c, CRLF ++ SPACE :: c))) = a ++ concat segs.
Proof.
  induction segs as [|c segs IH]; intros a Ha Hsegs.
  - simpl. rewrite !app_nil_r. by apply unfoldLine_plain.
  - apply Forall_cons in Hsegs as [Hc Hsegs]. rewrite bind_cons.
    change ((CRLF ++ SPACE :: c) ++ (segs ≫= λ c, CRLF ++ SPACE :: c))
      with (CR :: LF :: SPACE :: (c ++ (segs ≫= λ c, CRLF ++ SPACE :: c))).
    rewrite unfoldLine_app, IH by done. done.
Qed.

Lemma chunks_Forall (P : N → Prop) fuel n : forall s,
  Forall P s -> Forall (Forall P) (chunks fuel n s).
Proof.
  induction fuel as [|fuel IH]; intros s Hs; simpl; [done|].
  case_decide; [|done]. constructor.
  - by apply Forall_take.
  - by apply IH, Forall_drop.
Qed.

(** X14. Folding loses nothing on a line without line feed, as every
    escaped content line is: taking out each CR LF and the space after it
    gives the line again. *)
Theorem foldLine_unfold (line : JsString) :
  Forall (λ u, u ≠ LF) line -> unfoldLine (foldLine line) = line.
Proof.
  intros Hline. unfold foldLine. case_decide as Hlen.
  - by apply unfoldLine_plain.
  - rewrite foldLine_loop_eq, unfoldLine_segments.
    + rewrite chunks_concat by (rewrite length_drop; lia). apply take_drop.
    + by apply Forall_take.
    + by apply chunks_Forall, Forall_drop.
Qed.

Lemma foldLine_unfold_witness :
  unfoldLine (foldLine (str "DESCRIPTION:" ++ replicate 100 65%N))
  = str "DESCRIPTION:" ++ replicate 100 65%N.
Proof.
  apply foldLine_unfold. apply (bool_decide_unpack _). vm_compute. exact I.
Defined.

(** ** The lines of an event *)

Lemma dash_prefix_inj (a b r1 r2 : JsString) :
  Forall (λ u, u ≠ DASH) a -> Forall (λ u, u ≠ DASH) b ->
  a ++ DASH :: r1 = b ++ DASH :: r2 -> a = b /\ r1 = r2.
Proof.
  intros Ha. revert b. induction Ha as [|u a Hu Ha IH]; intros b Hb E.
  - destruct Hb as [|v b Hv Hb]; simpl in E; [by injection E|].
    injection E as <- _. done.
  - destruct Hb as [|v b Hv Hb]; simpl in E.
    + injection E as -> _. done.
    + injection E as -> E. destruct (IH b Hb E) as [-> ->]. done.
Qed.

(** X15. For events of years from 0 on, the UID line tells the event: two
    events with the same UID line have the same day and the same rider. *)
Theorem eventLines_UID_inj (host1 host2 : Host) (ts1 ts2 : JsString)
    (e1 e2 : CalendarEvent) :
  0 <= getFullYear (date e1) -> 0 <= getFullYear (date e2) ->
  eventLines host1 ts1 e1 !! 4%nat = eventLines host2 ts2 e2 !! 4%nat ->
  date e1 = date e2 /\ riderId e1 = riderId e2.
Proof.
  intros Hy1 Hy2 E. unfold eventLines in E. cbn [lookup list_lookup] in E.
  injection E as E.
  unfold dateText, formatDate in E. rewrite <- !app_assoc in E. cbn [app] in E.
  pose proof (getMonth_range (date e1)) as Hm1. pose proof (getMonth_range (date e2)) as Hm2.
  pose proof (getDate_range (date e1)) as Hd1. pose proof (getDate_range (date e2)) as Hd2.
  destruct (pad2_twoDigits (getMonth (date e1) + 1) ltac:(lia)) as [Lm1 Vm1].
  destruct (pad2_twoDigits (getMonth (date e2) + 1) ltac:(lia)) as [Lm2 Vm2].
  destruct (pad2_twoDigits (getDate (date e1)) ltac:(lia)) as [Ld1 Vd1].
  destruct (pad2_twoDigits (getDate (date e2)) ltac:(lia)) as [Ld2 Vd2].
  apply dash_prefix_inj in E as [Ey E];
    [|apply digits_no_dash, String_of_Z_digits; lia..].
  apply app_inj_1 in E as [Em E]; [|congruence].
  injection E as E.
  apply app_inj_1 in E as [Ed E]; [|congruence].
  injection E as E.
  apply app_inv_tail, String_of_Z_inj in E. split; [|done].
  apply String_of_Z_inj in Ey.
  rewrite <- (DaysFromCivil_civil (date e1)), <- (DaysFromCivil_civil (date e2)).
  rewrite Ey. f_equal; congruence.
Qed.

Lemma eventLines_UID_inj_witness :
  date shift_2023_10_01 = date shift_long /\ riderId shift_2023_10_01 = riderId shift_long.
Proof.
  apply (eventLines_UID_inj utcHost fiveHoursWest sample_now []);
    [vm_compute; discriminate | vm_compute; discriminate | vm_compute; reflexivity].
Defined.

(** X16. On a regular host that is never behind UTC, for an event whose
    year has four digits, [generateICalContent] writes the day of the event
    as YYYYMMDD on the DTSTART line and the next calendar day on the DTEND
    line, across month and year ends. *)
Theorem eventLines_DTSTART_DTEND (host : Host) (ts : JsString)
    (event : CalendarEvent) :
  RegularHost host -> eastOfUTC host ->
  1000 <= getFullYear (date event) <= 9999 ->
  eventLines host ts event !! 1%nat
  = Some (str "DTSTART;VALUE=DATE:" ++ compactDate (date event))
  /\ eventLines host ts event !! 2%nat
     = Some (str "DTEND;VALUE=DATE:" ++ compactDate (date event + 1))
  /\ civil (date event + 1) = nextCivil (civil (date event)).
Proof.
  intros Hhost Heast Hy. split_and!.
  - unfold eventLines. cbn [lookup list_lookup]. do 2 f_equal.
    apply (formatICalDate_compactDate (date event)). lia.
  - rewrite eventLines_DTEND by done.
    by rewrite localDay_ofDateOnly_east.
  - apply civil_succ.
Qed.

Lemma eventLines_DTSTART_DTEND_witness :
  eventLines utcHost sample_now shift_2023_10_01 !! 2%nat
  = Some (str "DTEND;VALUE=DATE:" ++ compactDate (date shift_2023_10_01 + 1)).
Proof.
  destruct (eventLines_DTSTART_DTEND utcHost sample_now shift_2023_10_01)
    as (_ & E & _); [apply utcHost_regular| |vm_compute; split; discriminate|exact E].
  intros t. cbn. unfold msPerDay. lia.
Defined.

(** X25. On a regular host that is always behind UTC, for an event whose
    year has four digits, [generateICalContent] writes the day of the event
    on the DTEND line as on the DTSTART line: the midnight in UTC that the
    date string names falls on the evening before, and the day added to it
    leads back to the day of the event. *)
Theorem eventLines_DTEND_west (host : Host) (ts : JsString)
    (event : CalendarEvent) :
  RegularHost host -> westOfUTC host ->
  1000 <= getFullYear (date event) <= 9999 ->
  eventLines host ts event !! 1%nat
  = Some (str "DTSTART;VALUE=DATE:" ++ compactDate (date event))
  /\ eventLines host ts event !! 2%nat
     = Some (str "DTEND;VALUE=DATE:" ++ compactDate (date event)).
Proof.
  intros Hhost Hwest Hy. split.
  - unfold eventLines. cbn [lookup list_lookup]. do 2 f_equal.
    apply (formatICalDate_compactDate (date event)). lia.
  - rewrite eventLines_DTEND by done.
    rewrite localDay_ofDateOnly_west by done. do 3 f_equal. lia.
Qed.

Lemma eventLines_DTEND_west_witness :
  eventLines fiveHoursWest sample_now shift_2023_10_01 !! 2%nat
  = Some (str "DTEND;VALUE=DATE:20231001").
Proof.
  destruct (eventLines_DTEND_west fiveHoursWest sample_now shift_2023_10_01)
    as (_ & E); [apply fiveHoursWest_regular| |vm_compute; split; discriminate|].
  - intros t. cbn. unfold msPerDay. lia.
  - rewrite E. vm_compute. reflexivity.
Defined.

(** ** The inline export *)

Lemma downloadICal_foldl eventName eventDescription riderId
    (entries : list (JsString * option Z)) : forall content,
  foldl (λ icalContent '(dateStr, scheduledRiderId),
    if decide (scheduledRiderId = Some riderId) then
      icalContent ++ templateLines
        [str "BEGIN:VEVENT";
         str "DTSTART;VALUE=DATE:" ++ formatICalDate dateStr;
         str "DTEND;VALUE=DATE:" ++ formatICalDate dateStr;
         str "SUMMARY:" ++ eventName;
         str "DESCRIPTION:" ++ replaceAll LF [BACKSLASH; 110%N] eventDescription;
         str "STATUS:CONFIRMED"; str "END:VEVENT"]
    else icalContent) content entries
  = content
    ++ (filter (λ e, e.2 = Some riderId) entries
          ≫= (λ e, downloadICal_event eventName eventDescription e.1)).
Proof.
  induction entries as [|[dateStr sid] entries IH]; intros content.
  - cbn [foldl]. rewrite filter_nil. simpl. by rewrite app_nil_r.
  - cbn [foldl]. rewrite IH, filter_cons. cbn [snd]. case_decide.
    + rewrite bind_cons, <- app_assoc. done.
    + done.
Qed.

(** X17. [downloadICal] writes nothing for an id that no rider has;
    otherwise it writes the calendar header, one VEVENT block for each entry
    of the schedule that holds this rider, in the order of the entries, and
    the closing line, every block with the day of its key on both the
    DTSTART and the DTEND line. *)
Theorem downloadICal_blocks (riders : list Rider)
    (entries : list (JsString * option Z)) (eventName eventDescription : JsString)
    (riderId : Z) :
  ((forall r, r ∈ riders -> id r ≠ riderId) ->
     downloadICal riders entries eventName eventDescription riderId = None)
  /\ ((exists r, r ∈ riders /\ id r = riderId) ->
      downloadICal riders entries eventName eventDescription riderId
      = Some (templateLines calendarHeader
              ++ (filter (λ e, e.2 = Some riderId) entries
                    ≫= (λ e, downloadICal_event eventName eventDescription e.1))
              ++ str "END:VCALENDAR")).
Proof.
  unfold downloadICal. split.
  - intros Hno. apply getRiderById_None in Hno. by rewrite Hno.
  - intros (r & Hr & Hid).
    destruct (getRiderById riders riderId) as [rider|] eqn:Hfind.
    + rewrite downloadICal_foldl, <- app_assoc. done.
    + pose proof (proj1 (getRiderById_None _ _) Hfind r Hr). done.
Qed.

(** * Further properties: the weekend test, removed riders, the time stamp *)

(** X18. [workedLastWeekend] on a Sunday looks at the Friday and the
    Saturday just before it; on any other day it looks at the last Friday,
    Saturday and Sunday that ended before it. *)
Theorem workedLastWeekend_by_weekday (newSchedule : Schedule) (date : Date) (i : Z) :
  (getDay date = 0 ->
     (workedLastWeekend newSchedule date i = true <->
      newSchedule !! formatDate (date - 2) = Some (Some i)
      \/ newSchedule !! formatDate (date - 1) = Some (Some i)))
  /\ (getDay date ≠ 0 ->
      (workedLastWeekend newSchedule date i = true <->
       newSchedule !! formatDate (date - getDay date - 2) = Some (Some i)
       \/ newSchedule !! formatDate (date - getDay date - 1) = Some (Some i)
       \/ newSchedule !! formatDate (date - getDay date) = Some (Some i))).
Proof.
  pose proof (getDay_range date) as Hr. split; intros Hday.
  - rewrite workedLastWeekend_spec, lastWeekendDays_sunday by done. split.
    + intros (d & Hd & Hs). rewrite !elem_of_cons in Hd.
      destruct Hd as [->|[->|Hd]]; [by left|by right|by apply elem_of_nil in Hd].
    + intros [H|H]; eexists; (split; [|exact H]); rewrite !elem_of_cons; auto.
  - rewrite workedLastWeekend_spec. unfold lastWeekendDays, lastSunday.
    rewrite !filter_cons, filter_nil, !decide_True by lia. split.
    + intros (d & Hd & Hs). rewrite !elem_of_cons in Hd.
      destruct Hd as [->|[->|[->|Hd]]]; [auto..|by apply elem_of_nil in Hd].
    + intros [H|[H|H]]; eexists; (split; [|exact H]); rewrite !elem_of_cons; auto.
Qed.

Lemma cycleList_removeRider (riders : list Rider) (i : Z) (dateStr : JsString) :
  Some i ∉ cycleList (removeRider riders i) dateStr.
Proof.
  unfold cycleList, removeRider. rewrite elem_of_app, list_elem_of_singleton.
  intros [H|H]; [|done].
  apply list_elem_of_fmap in H as (r & [= E] & Hr).
  apply list_elem_of_filter in Hr as [_ Hr]. apply list_elem_of_filter in Hr as [Hne _].
  congruence.
Qed.

(** X19. Once a rider is removed from the roster, a click on a day that the
    schedule still gives them hands the day to the first remaining rider who
    has not blocked it, or leaves it unassigned when there is none. *)
Theorem manualAssign_after_removeRider (schedule : Schedule) (riders : list Rider)
    (i : Z) (dateStr : JsString) :
  schedule !! dateStr = Some (Some i) ->
  manualAssign schedule (removeRider riders i) dateStr !! dateStr
  = Some (match availableRiders (removeRider riders i) dateStr with
          | r :: _ => Some (id r)
          | [] => None
          end)
  /\ manualAssign schedule (removeRider riders i) dateStr !! dateStr ≠ Some (Some i).
Proof.
  intros Hcur.
  assert (manualAssign schedule (removeRider riders i) dateStr !! dateStr
          = Some (match availableRiders (removeRider riders i) dateStr with
                  | r :: _ => Some (id r)
                  | [] => None
                  end)) as E.
  { rewrite manualAssign_target. f_equal.
    destruct (nextId_lookup schedule (removeRider riders i) dateStr) as (j & Hj & Hl).
    unfold indexOf in Hj. rewrite indexOf_from_notin in Hj.
    - replace (-1 + 1) with 0 in Hj by lia.
      rewrite Z.mod_0_l in Hj by (rewrite cycleList_length; lia).
      replace j with 0%nat in Hl by lia.
      unfold cycleList in Hl. fold (availableRiders (removeRider riders i) dateStr) in Hl.
      destruct (availableRiders (removeRider riders i) dateStr); simpl in Hl; congruence.
    - intros y Hy. rewrite Hcur in Hy. injection Hy as <-. apply cycleList_removeRider. }
  split; [exact E|]. rewrite manualAssign_target. intros [= Hn].
  pose proof (cycleList_removeRider riders i dateStr) as Hnot. apply Hnot.
  rewrite <- Hn. destruct (nextId_lookup schedule (removeRider riders i) dateStr)
    as (j & _ & Hl). by eapply list_elem_of_lookup_2.
Qed.

Lemma manualAssign_after_removeRider_witness :
  manualAssign {[ str "2023-10-01" := Some 1 ]} (removeRider [elin; anne] 1)
    (str "2023-10-01") !! str "2023-10-01" ≠ Some (Some 1).
Proof.
  destruct (manualAssign_after_removeRider {[ str "2023-10-01" := Some 1 ]}
              [elin; anne] 1 (str "2023-10-01")) as [_ H];
    [vm_compute; reflexivity|exact H].
Defined.

Lemma beforeDot_app a b :
  Forall (λ u, u ≠ 46%N) a -> beforeDot (a ++ 46%N :: b) = a.
Proof.
  induction 1 as [|u a Hu Ha IH]; cbn [app beforeDot].
  - by rewrite decide_True.
  - by rewrite decide_False, IH.
Qed.

Lemma digits_absent (c : N) s : ~ isDigit c -> Forall isDigit s -> Forall (λ u, u ≠ c) s.
Proof. intros Hc H. eapply Forall_impl; [exact H|]. intros u Hu ->. done. Qed.

(** X20. When the clock reads, in ISO form, date "T" hours ":" minutes ":"
    seconds "." milliseconds "Z" with the date as year "-" month "-" day,
    all in digits, the time stamp that the serializer writes on every
    DTSTAMP line is year month day "T" hours minutes seconds "Z". *)
Theorem timestamp_of_ISO (Y M D h m s ms : JsString) :
  Forall isDigit Y -> Forall isDigit M -> Forall isDigit D ->
  Forall isDigit h -> Forall isDigit m -> Forall isDigit s ->
  let nowISO := Y ++ [DASH] ++ M ++ [DASH] ++ D ++ str "T"
                ++ h ++ [58%N] ++ m ++ [58%N] ++ s ++ [46%N] ++ ms ++ str "Z" in
  timestampOf nowISO = Y ++ M ++ D ++ str "T" ++ h ++ m ++ s ++ str "Z"
  /\ forall host event,
       eventLines host (timestampOf nowISO) event !! 3%nat
       = Some (str "DTSTAMP:" ++ Y ++ M ++ D ++ str "T" ++ h ++ m ++ s ++ str "Z").
Proof.
  intros HY HM HD Hh Hm Hs nowISO.
  assert (Hdash : ~ isDigit DASH) by (intros [H _]; vm_compute in H; by apply H).
  assert (Hcolon : ~ isDigit 58%N) by (intros [_ H]; vm_compute in H; by apply H).
  assert (Hdot : ~ isDigit 46%N) by (intros [H _]; vm_compute in H; by apply H).
  assert (timestampOf nowISO = Y ++ M ++ D ++ str "T" ++ h ++ m ++ s ++ str "Z") as E.
  { unfold timestampOf, nowISO.
    assert (replaceAll DASH []
              (Y ++ [DASH] ++ M ++ [DASH] ++ D ++ str "T" ++ h ++ [58%N] ++ m
               ++ [58%N] ++ s ++ [46%N] ++ ms ++ str "Z")
            = Y ++ M ++ D ++ str "T" ++ h ++ [58%N] ++ m ++ [58%N] ++ s
              ++ replaceAll DASH [] ([46%N] ++ ms ++ str "Z")) as ->.
    { rewrite !replaceAll_app.
      rewrite !(replaceAll_absent DASH [] Y), !(replaceAll_absent DASH [] M),
        !(replaceAll_absent DASH [] D), !(replaceAll_absent DASH [] h),
        !(replaceAll_absent DASH [] m), !(replaceAll_absent DASH [] s)
        by (by apply digits_absent).
      done. }
    assert (forall t, replaceAll 58%N []
              (Y ++ M ++ D ++ str "T" ++ h ++ [58%N] ++ m ++ [58%N] ++ s ++ t)
            = Y ++ M ++ D ++ str "T" ++ h ++ m ++ s ++ replaceAll 58%N [] t) as Hc.
    { intros t. rewrite !replaceAll_app.
      rewrite !(replaceAll_absent 58%N [] Y), !(replaceAll_absent 58%N [] M),
        !(replaceAll_absent 58%N [] D), !(replaceAll_absent 58%N [] h),
        !(replaceAll_absent 58%N [] m), !(replaceAll_absent 58%N [] s)
        by (by apply digits_absent).
      done. }
    rewrite Hc.
    assert (forall ms', replaceAll 58%N [] (replaceAll DASH [] ([46%N] ++ ms'))
                        = 46%N :: replaceAll 58%N [] (replaceAll DASH [] ms')) as Hd
      by reflexivity.
    rewrite Hd.
    replace (Y ++ M ++ D ++ str "T" ++ h ++ m ++ s
             ++ 46%N :: replaceAll 58%N [] (replaceAll DASH [] (ms ++ str "Z")))
      with ((Y ++ M ++ D ++ str "T" ++ h ++ m ++ s)
            ++ 46%N :: replaceAll 58%N [] (replaceAll DASH [] (ms ++ str "Z")))
      by (by rewrite <- !app_assoc).
    rewrite beforeDot_app.
    - by rewrite <- !app_assoc.
    - rewrite !Forall_app. split_and!; try (by apply digits_absent).
      repeat constructor; discriminate. }
  split; [exact E|]. intros host event. rewrite E. done.
Qed.

Lemma timestamp_of_ISO_witness :
  timestampOf sample_now = str "20231102T101112Z".
Proof.
  refine (proj1 (timestamp_of_ISO (str "2023") (str "11") (str "02") (str "10")
                   (str "11") (str "12") (str "345") _ _ _ _ _ _));
    apply (bool_decide_unpack _); vm_compute; exact I.
Defined.
